(** * AI-STANCE: the text-to-sections pipeline, embedded and verified

    A shallow embedding of the deterministic core of the analyser
    ([src/pdf_utils.py] and [src/analysis.py]): boilerplate detection and
    cleaning, the page-anchored combiner and slicer, the chunker, the
    balanced-delimiter JSON extractor, the section reconciler and the
    default-filling of stance records.

    Conventions of the embedding.
    - A Python [str] is a list of characters ([pystr]); characters are the
      code points 0..255, so the Unicode tables of [str.isspace],
      [str.lower], [str.splitlines] and of the regular-expression classes
      are the restrictions of Python's tables to that range.
    - A Python [int] is a [Z].  A Python [float] is kept exactly, as a
      dyadic number [m * 2^e], or as an infinity or a NaN.
    - A Python value that comes out of [json.loads] is a [pyval]; a [dict]
      is an association list in insertion order with one entry per key.
    - A function that can raise returns a [result]; the one [while] loop
      whose termination depends on its arguments takes fuel.
    - Library code that the repository only calls ([json.loads], the [re]
      engine on caller-supplied patterns, [str()] on non-string values) is
      passed to the embedded function as an argument. *)

From Stdlib Require Import ZArith List Ascii String Bool Lia.
From Stdlib Require Import Sorting.Sorted Sorting.Permutation.
Import ListNotations.

Local Open Scope Z_scope.
Local Open Scope list_scope.

(* ================================================================== *)
(** ** Python strings                                                  *)
(* ================================================================== *)

Definition pystr := list ascii.

(** String literals of the source are written [lit "..."]. *)
Definition lit (s : string) : pystr := list_ascii_of_string s.

Definition code (c : ascii) : Z := Z.of_nat (nat_of_ascii c).

Definition chr (z : Z) : ascii := ascii_of_nat (Z.to_nat z).

Definition ascii_eqb (a b : ascii) : bool := Ascii.eqb a b.

Fixpoint pystr_eqb (a b : pystr) : bool :=
  match a, b with
  | [], [] => true
  | x :: a', y :: b' => ascii_eqb x y && pystr_eqb a' b'
  | _, _ => false
  end.

Definition NL : ascii := "010"%char.
Definition SP : ascii := " "%char.

(** [len(s)] *)
Definition len (s : pystr) : Z := Z.of_nat (List.length s).

(** [str.isspace] on one character, which is also the class [\s] of [re]
    on [str] patterns: TAB, LF, VT, FF, CR, FS, GS, RS, US, SPACE, NEL and
    NBSP. *)
Definition is_space (c : ascii) : bool :=
  let n := code c in
  ((9 <=? n) && (n <=? 13)) || ((28 <=? n) && (n <=? 32))
  || (n =? 133) || (n =? 160).

(** The class [\d] of [re]: the decimal digits. *)
Definition is_digit (c : ascii) : bool :=
  let n := code c in (48 <=? n) && (n <=? 57).

(** The characters at which [str.splitlines] breaks a line (CR LF counts
    as one break, see [splitlines]): LF, VT, FF, CR, FS, GS, RS and NEL. *)
Definition is_linebreak (c : ascii) : bool :=
  let n := code c in
  ((10 <=? n) && (n <=? 13)) || ((28 <=? n) && (n <=? 30)) || (n =? 133).

(** [str.lower] on one character: A..Z and the Latin-1 capitals. *)
Definition lower_char (c : ascii) : ascii :=
  let n := code c in
  if ((65 <=? n) && (n <=? 90))
     || ((192 <=? n) && (n <=? 222) && negb (n =? 215))
  then chr (n + 32) else c.

Definition lower (s : pystr) : pystr := map lower_char s.

Fixpoint lstrip (s : pystr) : pystr :=
  match s with
  | c :: s' => if is_space c then lstrip s' else s
  | [] => []
  end.

Definition rstrip (s : pystr) : pystr := rev (lstrip (rev s)).

(** [s.strip()] *)
Definition strip (s : pystr) : pystr := rstrip (lstrip s).

(** [sep.join(parts)] *)
Fixpoint join (sep : pystr) (parts : list pystr) : pystr :=
  match parts with
  | [] => []
  | [p] => p
  | p :: rest => p ++ sep ++ join sep rest
  end.

(** [s.splitlines()]: [cur] is the line being read, in reverse.  A line
    break closes the current line; a CR directly followed by LF is one
    break; text after the last break is a line only if it is not empty. *)
Fixpoint splitlines_go (s : pystr) (cur : pystr) : list pystr :=
  match s with
  | [] => match cur with [] => [] | _ => [rev cur] end
  | c :: s' =>
      if is_linebreak c then
        match s' with
        | d :: s'' =>
            if (code c =? 13) && (code d =? 10)
            then rev cur :: splitlines_go s'' []
            else rev cur :: splitlines_go s' []
        | [] => [rev cur]
        end
      else splitlines_go s' (c :: cur)
  end.

Definition splitlines (s : pystr) : list pystr := splitlines_go s [].

(** Truthiness of a string: [if s] *)
Definition nonempty (s : pystr) : bool :=
  match s with [] => false | _ => true end.

(** Index normalisation of slices and of the [start], [end] arguments of
    [str.rfind]: a negative index counts from the end, and the result is
    clamped to [0 .. n] (for [start] only from below, as CPython does for
    [find]; a start beyond [n] then bounds an empty range). *)
Definition norm_index (n i : Z) : Z :=
  if i <? 0 then Z.max 0 (i + n) else i.

(** [s[a:b]] *)
Definition slice (s : pystr) (a b : Z) : pystr :=
  let n := len s in
  let lo := Z.min n (norm_index n a) in
  let hi := Z.min n (norm_index n b) in
  firstn (Z.to_nat (hi - lo)) (skipn (Z.to_nat lo) s).

(** [s[:k]] and [s[k:]] on lists of any element type. *)
Definition take_to {A} (l : list A) (k : Z) : list A :=
  let n := Z.of_nat (List.length l) in
  firstn (Z.to_nat (Z.min n (norm_index n k))) l.

Definition drop_from {A} (l : list A) (k : Z) : list A :=
  let n := Z.of_nat (List.length l) in
  skipn (Z.to_nat (Z.min n (norm_index n k))) l.

Fixpoint starts_with (sub s : pystr) : bool :=
  match sub, s with
  | [], _ => true
  | x :: sub', y :: s' => ascii_eqb x y && starts_with sub' s'
  | _ :: _, [] => false
  end.

(** One left-to-right pass that remembers the last index [i] of the window
    [lo <= i], [i + len(sub) <= hi] at which [sub] occurs. *)
Fixpoint rfind_scan (sub s : pystr) (i lo hi best : Z) : Z :=
  let best' :=
    if (lo <=? i) && (i + len sub <=? hi) && starts_with sub s
    then i else best in
  match s with
  | [] => best'
  | _ :: s' => rfind_scan sub s' (i + 1) lo hi best'
  end.

(** [s.rfind(sub, start, end)]: the highest index in the window at which
    [sub] occurs, [-1] when there is none. *)
Definition rfind (s sub : pystr) (start stop : Z) : Z :=
  let n := len s in
  rfind_scan sub s 0 (norm_index n start) (Z.min n (norm_index n stop)) (-1).

(* ================================================================== *)
(** ** Exceptions and results                                          *)
(* ================================================================== *)

Inductive exn : Type :=
  | IndexError | TypeError | ValueError | OverflowError
  | JSONDecodeError | ReError.

Inductive result (A : Type) : Type :=
  | Ok (a : A)
  | Raise (e : exn).
Arguments Ok {A} a.
Arguments Raise {A} e.

Definition bind {A B} (r : result A) (k : A -> result B) : result B :=
  match r with Ok a => k a | Raise e => Raise e end.

Notation "x <- r ;; k" := (bind r (fun x => k))
  (at level 61, r at next level, right associativity).

(* ================================================================== *)
(** ** Python floats, as far as the pipeline computes with them        *)
(* ================================================================== *)

(** An IEEE-754 double is kept exactly: [FFinite m e] is [m * 2^e]. *)
Inductive pyfloat : Type :=
  | FFinite (m e : Z)
  | FInf (negative : bool)
  | FNan.

(** Round the positive number [m * 2^e] to 53 significant bits, to nearest
    and ties to even. *)
Definition round53 (m e : Z) : Z * Z :=
  let bits := Z.log2 m + 1 in
  if bits <=? 53 then (m, e)
  else
    let sh := bits - 53 in
    let q := Z.shiftr m sh in
    let r := m - Z.shiftl q sh in
    let half := Z.shiftl 1 (sh - 1) in
    let q' := if (half <? r) || ((r =? half) && Z.odd q) then q + 1 else q in
    (q', e + sh).

(** [float(z)] as the operand of [*]: [OverflowError] from [2^1024] up
    (after rounding). *)
Definition float_of_int (z : Z) : result pyfloat :=
  if z =? 0 then Ok (FFinite 0 0)
  else
    let '(m, e) := round53 (Z.abs z) 0 in
    if Z.shiftl 1 1024 <=? Z.shiftl m e then Raise OverflowError
    else Ok (FFinite (Z.sgn z * m) e).

(** The double written [0.3]. *)
Definition float_0_3 : pyfloat := FFinite 5404319552844595 (-54).

(** Product of two finite doubles whose exact product is neither
    subnormal nor beyond the largest double (the case of [0.3 * n] for an
    [int] [n] that converted); other operands are not needed. *)
Definition fmul (a b : pyfloat) : pyfloat :=
  match a, b with
  | FFinite m1 e1, FFinite m2 e2 =>
      let m := m1 * m2 in
      if m =? 0 then FFinite 0 0
      else let '(q, e) := round53 (Z.abs m) (e1 + e2) in
           FFinite (Z.sgn m * q) e
  | _, _ => FNan
  end.

(** [int(f)]: truncation toward zero. *)
Definition int_of_float (f : pyfloat) : result Z :=
  match f with
  | FFinite m e =>
      if 0 <=? e then Ok (Z.shiftl m e)
      else Ok (Z.quot m (Z.shiftl 1 (- e)))
  | FInf _ => Raise OverflowError
  | FNan => Raise ValueError
  end.

(** [int(0.3 * target_chars)] *)
Definition int_of_0_3_times (target_chars : Z) : result Z :=
  f <- float_of_int target_chars ;;
  int_of_float (fmul float_0_3 f).

(* ================================================================== *)
(** ** Conversions between [int] and [str]                             *)
(* ================================================================== *)

Definition digit_char (d : Z) : ascii := chr (48 + d).
Definition digit_val (c : ascii) : Z := code c - 48.

(** Decimal digits of a non-negative number, most significant first. *)
Fixpoint digits_go (fuel : nat) (n : Z) (acc : pystr) : pystr :=
  match fuel with
  | O => acc
  | S fuel' =>
      let acc' := digit_char (n mod 10) :: acc in
      if n <? 10 then acc' else digits_go fuel' (n / 10) acc'
  end.

(** [sys.get_int_max_str_digits()], at its default: CPython refuses to
    convert between [int] and [str] beyond that many digits. *)
Definition int_max_str_digits : Z := 4300.

(** [str(n)], which is also how an f-string formats an [int].  The
    numbers that the pipeline writes are page numbers and the integers of
    a parsed response, all within the limit; beyond it [str] raises, which
    is left out here. *)
Definition str_of_int (n : Z) : pystr :=
  if n <? 0
  then "-"%char :: digits_go (S (Z.to_nat (Z.log2 (- n)))) (- n) []
  else digits_go (S (Z.to_nat (Z.log2 n))) n [].

(** The white space that [int(s)] skips around the number. *)
Definition is_int_space (c : ascii) : bool :=
  let n := code c in
  ((9 <=? n) && (n <=? 13)) || (n =? 32) || (n =? 133) || (n =? 160).

Fixpoint lstrip_int (s : pystr) : pystr :=
  match s with
  | c :: s' => if is_int_space c then lstrip_int s' else s
  | [] => []
  end.

(** Digits with single underscores between them; [prev] tells whether the
    previous character was a digit. *)
Fixpoint parse_digits (s : pystr) (acc : Z) (prev : bool) : result Z :=
  match s with
  | [] => if prev then Ok acc else Raise ValueError
  | c :: s' =>
      if is_digit c then parse_digits s' (acc * 10 + digit_val c) true
      else if ascii_eqb c "_"%char && prev then parse_digits s' acc false
      else Raise ValueError
  end.

(** [int(s)] for a [str] [s], base 10: [ValueError] for a string that is
    not a numeral, and for one with more than [int_max_str_digits] digits
    (leading zeros count, underscores do not). *)
Definition int_of_str (s : pystr) : result Z :=
  let body := rev (lstrip_int (rev (lstrip_int s))) in
  if int_max_str_digits <? Z.of_nat (List.length (filter is_digit body))
  then Raise ValueError
  else
    match body with
    | c :: rest =>
        if ascii_eqb c "-"%char then
          n <- parse_digits rest 0 false ;; Ok (- n)
        else if ascii_eqb c "+"%char then parse_digits rest 0 false
        else parse_digits body 0 false
    | [] => Raise ValueError
    end.

(* ================================================================== *)
(** ** Python values                                                   *)
(* ================================================================== *)

Local Unset Elimination Schemes.
Inductive pyval : Type :=
  | PNone
  | PBool (b : bool)
  | PInt (z : Z)
  | PFloat (f : pyfloat)
  | PStr (s : pystr)
  | PList (l : list pyval)
  | PDict (d : list (pystr * pyval)).
Local Set Elimination Schemes.

Definition pydict := list (pystr * pyval).

(** [d.get(k)], as an option *)
Fixpoint dict_get (d : pydict) (k : pystr) : option pyval :=
  match d with
  | [] => None
  | (k', v) :: d' => if pystr_eqb k' k then Some v else dict_get d' k
  end.

(** [d.get(k, default)] *)
Definition dict_get_default (d : pydict) (k : pystr) (default : pyval) : pyval :=
  match dict_get d k with Some v => v | None => default end.

(** [d[k] = v]: an existing key keeps its place, a new key goes last. *)
Fixpoint dict_set (d : pydict) (k : pystr) (v : pyval) : pydict :=
  match d with
  | [] => [(k, v)]
  | (k', v') :: d' =>
      if pystr_eqb k' k then (k', v) :: d' else (k', v') :: dict_set d' k v
  end.

(** [d.setdefault(k, v)], for its effect on [d] *)
Definition dict_setdefault (d : pydict) (k : pystr) (v : pyval) : pydict :=
  match dict_get d k with Some _ => d | None => dict_set d k v end.

(** [int(v)] *)
Definition py_int (v : pyval) : result Z :=
  match v with
  | PInt z => Ok z
  | PBool b => Ok (if b then 1 else 0)
  | PFloat f => int_of_float f
  | PStr s => int_of_str s
  | PNone | PList _ | PDict _ => Raise TypeError
  end.

(** [str(v)].  The text of a float, a list or a dict is Python's [repr],
    which the repository does not define: [repr_other] stands for it. *)
Definition py_str (repr_other : pyval -> pystr) (v : pyval) : pystr :=
  match v with
  | PStr s => s
  | PNone => lit "None"
  | PBool true => lit "True"
  | PBool false => lit "False"
  | PInt z => str_of_int z
  | other => repr_other other
  end.

(* ================================================================== *)
(** ** [pdf_utils.py]                                                  *)
(* ================================================================== *)

Record PageText : Type := mkPageText {
  page_num : Z;   (* 1-based *)
  text : pystr
}.

(** *** [detect_repeated_headers_footers] *)

(** A [collections.Counter] on strings: the keys in the order of their
    first insertion, each with its count. *)
Definition counter := list (pystr * Z).

(** [c[k] += 1] *)
Fixpoint counter_incr (c : counter) (k : pystr) : counter :=
  match c with
  | [] => [(k, 1)]
  | (k', n) :: c' =>
      if pystr_eqb k' k then (k', n + 1) :: c' else (k', n) :: counter_incr c' k
  end.

(** [max(items, key=count)] keeps the first of the entries with the
    largest count; [best] is the largest so far. *)
Fixpoint first_max (best : pystr * Z) (c : counter) : pystr * Z :=
  match c with
  | [] => best
  | kv :: c' => first_max (if snd best <? snd kv then kv else best) c'
  end.

(** [c.most_common(1)] *)
Definition most_common_1 (c : counter) : list (pystr * Z) :=
  match c with
  | [] => []
  | kv :: c' => [first_max kv c']
  end.

(** The key of [next(iter(c.most_common(1)), default)], where the default
    is the pair of the empty string and 0. *)
Definition top_key (c : counter) : pystr :=
  match most_common_1 c with
  | kv :: _ => fst kv
  | [] => []
  end.

(** [[ln.strip() for ln in text.splitlines() if ln.strip()]] *)
Definition nonblank_lines (t : pystr) : list pystr :=
  map strip (filter (fun ln => nonempty (strip ln)) (splitlines t)).

(** The characters that [re.escape] puts a backslash before. *)
Definition is_re_special (c : ascii) : bool :=
  existsb (ascii_eqb c) (lit "()[]{}?*+-|^$\.&~# ")
  || let n := code c in (9 <=? n) && (n <=? 13).

(** [re.escape(s)] *)
Definition re_escape (s : pystr) : pystr :=
  flat_map (fun c => if is_re_special c then ["\"%char; c] else [c]) s.

(** The two signatures that one page contributes, as the loop body
    computes them; [None] for a page without a non-blank line, which the
    loop skips. *)
Definition page_signatures (top_n_lines bottom_n_lines : Z) (p : PageText)
  : option (pystr * pystr) :=
  let lines := nonblank_lines (text p) in
  match lines with
  | [] => None
  | _ =>
      let top := join [SP] (take_to lines top_n_lines) in
      let bot :=
        if bottom_n_lines <=? Z.of_nat (List.length lines)
        then join [SP] (drop_from lines (- bottom_n_lines))
        else [] in
      Some (top, bot)
  end.

(** One turn of the loop on the pair of counters. *)
Definition tally_page (top_n_lines bottom_n_lines : Z)
  (cs : counter * counter) (p : PageText) : counter * counter :=
  match page_signatures top_n_lines bottom_n_lines p with
  | None => cs
  | Some (top, bot) =>
      (if nonempty top then counter_incr (fst cs) top else fst cs,
       if nonempty bot then counter_incr (snd cs) bot else snd cs)
  end.

Definition tally_pages (top_n_lines bottom_n_lines : Z) (pages : list PageText)
  : counter * counter :=
  fold_left (tally_page top_n_lines bottom_n_lines) pages ([], []).

Definition header_candidate (top_n_lines bottom_n_lines : Z)
  (pages : list PageText) : pystr :=
  top_key (fst (tally_pages top_n_lines bottom_n_lines pages)).

Definition footer_candidate (top_n_lines bottom_n_lines : Z)
  (pages : list PageText) : pystr :=
  top_key (snd (tally_pages top_n_lines bottom_n_lines pages)).

(** The dict [{"header": ..., "footer": ...}] that the detector returns
    and the cleaner reads with [patterns.get]; a key that a caller leaves
    out reads as [None], which the cleaner treats as the empty string. *)
Record Patterns : Type := mkPatterns {
  header : pystr;
  footer : pystr
}.

Definition detect_repeated_headers_footers (pages : list PageText)
  (top_n_lines bottom_n_lines : Z) : Patterns :=
  let h := header_candidate top_n_lines bottom_n_lines pages in
  let f := footer_candidate top_n_lines bottom_n_lines pages in
  {| header := if nonempty h then re_escape h else [];
     footer := if nonempty f then re_escape f else [] |}.

(** *** [remove_headers_footers_and_numbers] *)

Fixpoint take_while (f : ascii -> bool) (s : pystr) : pystr :=
  match s with
  | c :: s' => if f c then c :: take_while f s' else []
  | [] => []
  end.

Fixpoint drop_while (f : ascii -> bool) (s : pystr) : pystr :=
  match s with
  | c :: s' => if f c then drop_while f s' else s
  | [] => []
  end.

(** The class [[ivxlcdmIVXLCDM]]. *)
Definition is_roman (c : ascii) : bool :=
  existsb (ascii_eqb c) (lit "ivxlcdmIVXLCDM").

(** [page_num_re.match(s)] for the pattern
    [^\s*(\d+|[ivxlcdmIVXLCDM]+)\s*$].  White space, digits and the Roman
    letters are disjoint classes, so each greedy run is the only way to
    match: leading white space, then a non-empty run of digits or else a
    non-empty run of Roman letters, then white space to the end. *)
Definition page_num_match (s : pystr) : bool :=
  let s1 := drop_while is_space s in
  let cls := if nonempty (take_while is_digit s1) then is_digit else is_roman in
  nonempty (take_while cls s1) && forallb is_space (drop_while cls s1).

(** A compiled pattern, as far as the cleaner uses it: the truth value of
    [rx.search(s)]. *)
Definition regex := pystr -> bool.

(** [re.compile(p, re.IGNORECASE) if p else None]; [re_compile] stands for
    Python's [re.compile(_, re.IGNORECASE)], which raises on a pattern
    that is not a regular expression. *)
Definition compile_if (re_compile : pystr -> result regex) (p : pystr)
  : result (option regex) :=
  if nonempty p then rx <- re_compile p ;; Ok (Some rx) else Ok None.

(** [rx and rx.search(s)] *)
Definition searches (rx : option regex) (s : pystr) : bool :=
  match rx with Some r => r s | None => false end.

(** The test of the inner loop: is the line [ln] appended to [new_lines]? *)
Definition keeps_line (header_re footer_re : option regex) (ln : pystr) : bool :=
  let s := strip ln in
  if negb (nonempty s) then false
  else if searches header_re s then false
  else if searches footer_re s then false
  else if page_num_match s then false
  else true.

Definition clean_page (header_re footer_re : option regex) (p : PageText)
  : PageText :=
  {| page_num := page_num p;
     text := join [NL] (filter (keeps_line header_re footer_re)
                               (splitlines (text p))) |}.

Definition remove_headers_footers_and_numbers
  (re_compile : pystr -> result regex)
  (pages : list PageText) (patterns : Patterns) : result (list PageText) :=
  header_re <- compile_if re_compile (header patterns) ;;
  footer_re <- compile_if re_compile (footer patterns) ;;
  Ok (map (clean_page header_re footer_re) pages).

(** *** [combine_pages] *)

(** [f"<<PAGE {p.page_num}>>\n{p.text}"] *)
Definition page_block (p : PageText) : pystr :=
  lit "<<PAGE " ++ str_of_int (page_num p) ++ lit ">>" ++ [NL] ++ text p.

Definition combine_pages (pages : list PageText) : pystr :=
  join [NL; NL] (map page_block pages).

(** *** [chunk_text_for_model] *)

(** The [while] loop, run for at most [fuel] turns.  Each turn yields the
    pair [(start, boundary)] that the chunk [text[start:boundary]] is cut
    at.  [None]: the fuel ran out.  [0.3 * target_chars] is only evaluated
    when a paragraph break was found. *)
Fixpoint chunk_loop (fuel : nat) (text : pystr) (target_chars overlap_chars : Z)
  (start : Z) : option (result (list (Z * Z))) :=
  match fuel with
  | O => None
  | S fuel' =>
      let n := len text in
      if start <? n then
        let end_ := Z.min (start + target_chars) n in
        let found := rfind text [NL; NL] start end_ in
        let chosen :=
          if found =? -1 then Ok end_
          else
            thr <- int_of_0_3_times target_chars ;;
            Ok (if found <=? start + thr then end_ else found) in
        match chosen with
        | Raise e => Some (Raise e)
        | Ok boundary =>
            if boundary =? n then Some (Ok [(start, boundary)])
            else
              match chunk_loop fuel' text target_chars overlap_chars
                               (Z.max 0 (boundary - overlap_chars)) with
              | Some (Ok rest) => Some (Ok ((start, boundary) :: rest))
              | other => other
              end
        end
      else Some (Ok [])
  end.

Definition chunk_spans (fuel : nat) (text : pystr) (target_chars overlap_chars : Z)
  : option (result (list (Z * Z))) :=
  chunk_loop fuel text target_chars overlap_chars 0.

Definition chunk_text_for_model (fuel : nat) (text : pystr)
  (target_chars overlap_chars : Z) : option (result (list pystr)) :=
  match chunk_spans fuel text target_chars overlap_chars with
  | Some (Ok spans) => Some (Ok (map (fun sb => slice text (fst sb) (snd sb)) spans))
  | Some (Raise e) => Some (Raise e)
  | None => None
  end.

(** The defaults of the signature. *)
Definition default_target_chars : Z := 24000.
Definition default_overlap_chars : Z := 1200.

(* ================================================================== *)
(** ** [analysis.py]                                                   *)
(* ================================================================== *)

(** *** [parse_json_str] *)

Definition BACKTICK : ascii := "096"%char.
Definition DQUOTE : ascii := "034"%char.
Definition BACKSLASH : ascii := "092"%char.

(** [sub in s] *)
Fixpoint contains (sub s : pystr) : bool :=
  starts_with sub s
  || match s with
     | [] => false
     | _ :: s' => contains sub s'
     end.

(** The pattern of the [re.search] call, as it stands in the source: six
    backticks, and no group. *)
Definition fence_pattern : pystr := repeat BACKTICK 6.

Definition is_open (c : ascii) : bool :=
  ascii_eqb c "["%char || ascii_eqb c "{"%char.

Definition is_close (c : ascii) : bool :=
  ascii_eqb c "]"%char || ascii_eqb c "}"%char.

(** The [for i, ch in enumerate(candidate)] loop on the characters from
    index [i] on.  [Some (start, i + 1)] are the bounds of the fragment
    at which the loop returns, [None] means that it ran to the end. *)
Fixpoint scan_balanced (rest : pystr) (i : Z) (start : option Z)
  (depth : Z) (in_str esc : bool) : option (Z * Z) :=
  match rest with
  | [] => None
  | ch :: rest' =>
      match start with
      | None =>
          if is_open ch
          then scan_balanced rest' (i + 1) (Some i) 1 in_str esc
          else scan_balanced rest' (i + 1) None depth in_str esc
      | Some st =>
          if in_str then
            if esc then scan_balanced rest' (i + 1) start depth in_str false
            else if ascii_eqb ch BACKSLASH
            then scan_balanced rest' (i + 1) start depth in_str true
            else if ascii_eqb ch DQUOTE
            then scan_balanced rest' (i + 1) start depth false esc
            else scan_balanced rest' (i + 1) start depth in_str esc
          else
            if ascii_eqb ch DQUOTE
            then scan_balanced rest' (i + 1) start depth true esc
            else if is_open ch
            then scan_balanced rest' (i + 1) start (depth + 1) in_str esc
            else if is_close ch then
              if depth - 1 =? 0 then Some (st, i + 1)
              else scan_balanced rest' (i + 1) start (depth - 1) in_str esc
            else scan_balanced rest' (i + 1) start depth in_str esc
      end
  end.

(** The string that is handed to [json.loads]. *)
Definition json_fragment (candidate : pystr) : pystr :=
  match scan_balanced candidate 0 None 0 false false with
  | Some (st, stop) => slice candidate st stop
  | None => candidate
  end.

(** [m.group(1) if m else s]: the pattern has no group 1, so a match makes
    [m.group(1)] raise [IndexError]. *)
Definition fence_candidate (s : pystr) : result pystr :=
  if contains fence_pattern s then Raise IndexError else Ok s.

(** [json_loads] stands for Python's [json.loads]. *)
Definition parse_json_str (json_loads : pystr -> result pyval) (s : pystr)
  : result pyval :=
  candidate <- fence_candidate (strip s) ;;
  json_loads (json_fragment candidate).

(** *** [_reconcile_sections] *)

(** The values kept under a title key in [groups]. *)
Record Group : Type := mkGroup {
  g_title : pystr;
  g_start_page : Z;
  g_end_page : Z;
  g_summaries : list pystr
}.

(** A merged section, [{"title", "start_page", "end_page", "summary"}]. *)
Record Section : Type := mkSection {
  title : pystr;
  start_page : Z;
  end_page : Z;
  summary : pystr
}.

(** [re.sub(r"\s+", " ", s)]: every maximal run of white space becomes one
    space. *)
Fixpoint collapse_ws (s : pystr) (in_run : bool) : pystr :=
  match s with
  | [] => []
  | c :: s' =>
      if is_space c
      then if in_run then collapse_ws s' true else SP :: collapse_ws s' true
      else c :: collapse_ws s' false
  end.

(** The grouping key of a (stripped) title. *)
Definition title_key (title : pystr) : pystr := collapse_ws (lower title) false.

(** What the loop body reads from one item before it touches [groups]. *)
Record Candidate : Type := mkCandidate {
  c_title : pystr;
  c_key : pystr;
  c_sp : Z;
  c_ep : Z;
  c_summary : pystr
}.

(** [int(it.get(k, default))] inside [try], with [fallback] in [except]. *)
Definition int_field (d : pydict) (k : pystr) (default fallback : Z) : Z :=
  match py_int (dict_get_default d k (PInt default)) with
  | Ok z => z
  | Raise _ => fallback
  end.

(** The body of the loop up to the update of [groups]; [None] where the
    body runs [continue]. *)
Definition normalize_candidate (repr_other : pyval -> pystr) (it : pyval)
  : option Candidate :=
  match it with
  | PDict d =>
      let title := strip (py_str repr_other (dict_get_default d (lit "title") (PStr []))) in
      if negb (nonempty title) then None
      else
        let sp := int_field d (lit "start_page") 1 1 in
        let ep := int_field d (lit "end_page") sp sp in
        let summary :=
          strip (py_str repr_other (dict_get_default d (lit "summary") (PStr []))) in
        let key := title_key title in
        let sp := Z.max 1 sp in
        let ep := Z.max sp ep in
        Some {| c_title := title; c_key := key; c_sp := sp; c_ep := ep;
                c_summary := summary |}
  | _ => None
  end.

Definition groups := list (pystr * Group).

(** [groups[key] = {...}] for a key that is not in [groups] yet. *)
Definition new_group (c : Candidate) : Group :=
  {| g_title := c_title c;
     g_start_page := c_sp c;
     g_end_page := c_ep c;
     g_summaries := if nonempty (c_summary c) then [c_summary c] else [] |}.

(** The [else] branch: the span widens, a non-empty summary is appended. *)
Definition merge_group (g : Group) (c : Candidate) : Group :=
  {| g_title := g_title g;
     g_start_page := Z.min (g_start_page g) (c_sp c);
     g_end_page := Z.max (g_end_page g) (c_ep c);
     g_summaries :=
       if nonempty (c_summary c)
       then g_summaries g ++ [c_summary c] else g_summaries g |}.

(** The update of [groups] by one candidate: a known key keeps its place,
    a new key goes last. *)
Fixpoint add_candidate (gs : groups) (c : Candidate) : groups :=
  match gs with
  | [] => [(c_key c, new_group c)]
  | (k, g) :: gs' =>
      if pystr_eqb k (c_key c)
      then (k, merge_group g c) :: gs'
      else (k, g) :: add_candidate gs' c
  end.

Definition group_step (repr_other : pyval -> pystr) (gs : groups) (it : pyval)
  : groups :=
  match normalize_candidate repr_other it with
  | Some c => add_candidate gs c
  | None => gs
  end.

Definition build_groups (repr_other : pyval -> pystr) (items : list pyval)
  : groups :=
  fold_left (group_step repr_other) items [].

Definition section_of_group (g : Group) : Section :=
  {| title := g_title g;
     start_page := g_start_page g;
     end_page := g_end_page g;
     summary := slice (join [SP] (g_summaries g)) 0 1200 |}.

(** The order of the sort key [(start_page, end_page)]. *)
Definition key_le (a b : Section) : bool :=
  (start_page a <? start_page b)
  || ((start_page a =? start_page b) && (end_page a <=? end_page b)).

(** [list.sort] is stable; a stable sort has one possible result, which
    insertion from the right computes. *)
Fixpoint insert_sorted (x : Section) (l : list Section) : list Section :=
  match l with
  | [] => [x]
  | y :: l' => if key_le x y then x :: y :: l' else y :: insert_sorted x l'
  end.

Fixpoint sort_sections (l : list Section) : list Section :=
  match l with
  | [] => []
  | x :: l' => insert_sorted x (sort_sections l')
  end.

(** [merged] after [merged.sort(...)]. *)
Definition merged_sections (repr_other : pyval -> pystr) (items : list pyval)
  : list Section :=
  sort_sections (map (fun kg => section_of_group (snd kg))
                     (build_groups repr_other items)).

(** One turn of the last loop: [cur] against the already updated [prev]. *)
Definition push_after (prev cur : Section) : Section :=
  if start_page cur <=? end_page prev then
    let sp := end_page prev + 1 in
    {| title := title cur;
       start_page := sp;
       end_page := if end_page cur <? sp then sp else end_page cur;
       summary := summary cur |}
  else cur.

Fixpoint resolve_from (prev : Section) (rest : list Section) : list Section :=
  match rest with
  | [] => []
  | cur :: rest' =>
      let cur' := push_after prev cur in
      cur' :: resolve_from cur' rest'
  end.

Definition resolve_overlaps (merged : list Section) : list Section :=
  match merged with
  | [] => []
  | first :: rest => first :: resolve_from first rest
  end.

(** [items] is [None] or a list ([items or []]); an element that is not a
    dict is skipped. *)
Definition _reconcile_sections (repr_other : pyval -> pystr)
  (items : list pyval) : list Section :=
  resolve_overlaps (merged_sections repr_other items).

(** *** [slice_pages_text] *)

(** The pattern [<<PAGE\s+(\d+)>>] tried at the head of [s]: the group
    and the length of the match.  White space, digits and [>] are disjoint
    classes, so the greedy runs are the only way to match. *)
Definition match_marker (s : pystr) : option (pystr * nat) :=
  if starts_with (lit "<<PAGE") s then
    let s1 := skipn 6 s in
    let ws := take_while is_space s1 in
    let s2 := drop_while is_space s1 in
    let ds := take_while is_digit s2 in
    let s3 := drop_while is_digit s2 in
    if nonempty ws && nonempty ds && starts_with (lit ">>") s3
    then Some (ds, (6 + List.length ws + List.length ds + 2)%nat)
    else None
  else None.

(** [re.split(r"<<PAGE\s+(\d+)>>", s)]: the text before the first match,
    then for each match, leftmost first, its group and the text up to the
    next match.  [skip] counts the characters of a match still to pass,
    [cur] is the text since the last match, in reverse. *)
Fixpoint split_go (s : pystr) (skip : nat) (cur : pystr) : list pystr :=
  match s with
  | [] => [rev cur]
  | c :: s' =>
      match skip with
      | S k => split_go s' k cur
      | O =>
          match match_marker s with
          | Some (ds, n) => rev cur :: ds :: split_go s' (n - 1) []
          | None => split_go s' O (c :: cur)
          end
      end
  end.

Definition re_split_marker (s : pystr) : list pystr := split_go s O [].

(** The loop [for i in range(1, len(parts), 2)] on [parts[i:]]. *)
Fixpoint slice_loop (parts : list pystr) (start_page end_page : Z) : list pystr :=
  match parts with
  | [] => []
  | num :: rest =>
      let keep (ptext : pystr) (more : list pystr) :=
        match int_of_str num with
        | Raise _ => more
        | Ok pnum =>
            if (start_page <=? pnum) && (pnum <=? end_page)
            then strip ptext :: more else more
        end in
      match rest with
      | ptext :: rest' => keep ptext (slice_loop rest' start_page end_page)
      | [] => keep [] []
      end
  end.

Definition slice_pages_text (full_text : pystr) (start_page end_page : Z) : pystr :=
  let parts := re_split_marker full_text in
  join [NL; NL] (slice_loop (tl parts) start_page end_page).

(** *** [ai_analyse_stance] *)

Definition stance_keys : list pystr :=
  [lit "hedges"; lit "boosters"; lit "attitude_markers"; lit "self_mentions"].

(** [if k not in data or not isinstance(data[k], list): data[k] = []] *)
Definition fill_category (d : pydict) (k : pystr) : pydict :=
  match dict_get d k with
  | Some (PList _) => d
  | _ => dict_set d k (PList [])
  end.

(** The body of [try] after the parse.  On a value that is not a dict the
    first turn of the loop raises [TypeError]: [k not in data] raises on
    [None], a number or a bool, and on a list or a string either
    [data[k]] or [data[k] = []] does. *)
Definition fill_stance (section_title : pystr) (data : pyval) : result pydict :=
  match data with
  | PDict d =>
      let d := fold_left fill_category stance_keys d in
      let d := dict_setdefault d (lit "section") (PStr section_title) in
      let d := dict_setdefault d (lit "summary") (PStr []) in
      Ok d
  | _ => Raise TypeError
  end.

(** The dict of the [except Exception] branch. *)
Definition stance_fallback (section_title : pystr) : pydict :=
  [(lit "section", PStr section_title);
   (lit "hedges", PList []);
   (lit "boosters", PList []);
   (lit "attitude_markers", PList []);
   (lit "self_mentions", PList []);
   (lit "summary", PStr (lit "Parsing failed"))].

(** [ai_analyse_stance] from the response of the service on: the call of
    the client lies outside the embedding, [out] is what it returned. *)
Definition ai_analyse_stance (json_loads : pystr -> result pyval)
  (section_title : pystr) (out : pystr) : pydict :=
  match (data <- parse_json_str json_loads out ;; fill_stance section_title data) with
  | Ok d => d
  | Raise _ => stance_fallback section_title
  end.

(* ================================================================== *)
(** * Vocabulary of the statements                                     *)
(* ================================================================== *)

(** ** The chunker *)

(** [sub] occurs in [s] at index [j]. *)
Definition occurs_at (sub s : pystr) (j : Z) : bool :=
  (0 <=? j) && starts_with sub (skipn (Z.to_nat j) s).

(** A paragraph break: a blank-line boundary, two line feeds. *)
Definition is_break (s : pystr) (j : Z) : bool := occurs_at [NL; NL] s j.

(** [ceil(a / b)] for a positive [b]. *)
Definition ceil_div (a b : Z) : Z := (a + b - 1) / b.

(** The boundary that one turn of the chunker's loop chooses from [start]
    when [int(0.3 * target_chars)] is [thr]. *)
Definition chosen_boundary (text : pystr) (target_chars thr start : Z) : Z :=
  let end_ := Z.min (start + target_chars) (len text) in
  let found := rfind text [NL; NL] start end_ in
  if (found =? -1) || (found <=? start + thr) then end_ else found.

(** What the chunker's loop guarantees of a pair [(start, boundary)]: the
    boundary is the last paragraph break of the window
    [start .. min(start + target_chars, n)] when that break lies more than
    [thr] characters after [start], and the end of the window when no
    break of the window lies that far. *)
Definition span_ok (text : pystr) (target_chars thr : Z) (sb : Z * Z) : Prop :=
  let s := fst sb in
  let b := snd sb in
  let e := Z.min (s + target_chars) (len text) in
  0 <= s < len text /\ s < b <= e /\
  ((is_break text b = true /\ s + thr < b /\ b + 2 <= e
    /\ (forall j, b < j -> j + 2 <= e -> is_break text j = false))
   \/ (b = e
       /\ (forall j, s <= j -> s + thr < j -> j + 2 <= e ->
                     is_break text j = false))).

(** The starts of the chunks: the first is [start], each next one lies
    [overlap_chars] before the boundary of the chunk before it, and not
    before 0. *)
Fixpoint starts_chain (overlap_chars start : Z) (spans : list (Z * Z)) : Prop :=
  match spans with
  | [] => True
  | sb :: rest =>
      fst sb = start
      /\ starts_chain overlap_chars (Z.max 0 (snd sb - overlap_chars)) rest
  end.

Definition result_map {A B} (f : A -> B) (r : result A) : result B :=
  match r with Ok a => Ok (f a) | Raise e => Raise e end.

(** The number of chunks of a run. *)
Definition chunk_count (fuel : nat) (text : pystr) (target_chars overlap_chars : Z)
  : option (result Z) :=
  option_map (result_map (fun l : list pystr => Z.of_nat (List.length l)))
             (chunk_text_for_model fuel text target_chars overlap_chars).

(** A page of [k] letters, for the examples. *)
Definition filler (k : Z) : pystr := repeat "a"%char (Z.to_nat k).

Definition filler_page (num : Z) (k : Z) : PageText :=
  {| page_num := num; text := filler k |}.

(** 25000 characters with paragraph breaks at offsets 7201 and 24000. *)
Definition two_break_text : pystr :=
  filler 7201 ++ [NL; NL] ++ filler 16797 ++ [NL; NL] ++ filler 998.

(** Three cleaned pages of 7000, 1194 and 5 characters, combined. *)
Definition three_page_text : pystr :=
  combine_pages [filler_page 1 7000; filler_page 2 1194; filler_page 3 5].

(** Three small pages, combined. *)
Definition small_page_text : pystr :=
  combine_pages [filler_page 1 20; filler_page 2 5; filler_page 3 3].

(** ** The reconciler *)

(** The candidates that the reconciler's first loop keeps, in order. *)
Definition candidates (repr_other : pyval -> pystr) (items : list pyval)
  : list Candidate :=
  flat_map (fun it => match normalize_candidate repr_other it with
                      | Some c => [c]
                      | None => []
                      end) items.

(** The trimmed title that the loop reads from a dict. *)
Definition title_of (repr_other : pyval -> pystr) (d : pydict) : pystr :=
  strip (py_str repr_other (dict_get_default d (lit "title") (PStr []))).

(** The value of a run of decimal digits. *)
Definition digits_value (ds : pystr) : Z :=
  fold_left (fun a c => a * 10 + digit_val c) ds 0.

(** The trimmed summary that the loop reads from a dict. *)
Definition summary_of (repr_other : pyval -> pystr) (d : pydict) : pystr :=
  strip (py_str repr_other (dict_get_default d (lit "summary") (PStr []))).

(** Following the spec's words, what a valid integer is, said without the
    conversion of the source.  The groups of [s] between its underscores;
    [cur] is the group being read, in reverse. *)
Fixpoint underscore_groups (s : pystr) (cur : pystr) : list pystr :=
  match s with
  | [] => [rev cur]
  | c :: s' =>
      if ascii_eqb c "_"%char then rev cur :: underscore_groups s' []
      else underscore_groups s' (c :: cur)
  end.

(** An unsigned decimal numeral: groups of digits, none of them empty,
    with one underscore between two groups, and at most 4300 digits. *)
Definition is_numeral (s : pystr) : bool :=
  forallb (fun g => nonempty g && forallb is_digit g) (underscore_groups s [])
  && (Z.of_nat (List.length (filter is_digit s)) <=? int_max_str_digits).

(** Its value: its digits, read in base 10. *)
Definition numeral_value (s : pystr) : Z := digits_value (filter is_digit s).

(** The integer that a string stands for: a numeral with an optional
    sign, white space around it set aside. *)
Definition spec_int_of_str (s : pystr) : option Z :=
  let body := rev (drop_while is_int_space (rev (drop_while is_int_space s))) in
  match body with
  | [] => None
  | c :: rest =>
      if ascii_eqb c "-"%char then
        if is_numeral rest then Some (- numeral_value rest) else None
      else if ascii_eqb c "+"%char then
        if is_numeral rest then Some (numeral_value rest) else None
      else
        if is_numeral body then Some (numeral_value body) else None
  end.

(** The integer that a value of a response stands for: an integer
    itself, a truth value as 0 or 1, a finite float cut toward zero, a
    string that holds a numeral; nothing for [null], an infinite float
    or a NaN, a list or an object. *)
Definition spec_integer (v : pyval) : option Z :=
  match v with
  | PInt z => Some z
  | PBool b => Some (if b then 1 else 0)
  | PFloat (FFinite m e) =>
      Some (if 0 <=? e then m * 2 ^ e else Z.quot m (2 ^ (- e)))
  | PFloat _ => None
  | PStr s => spec_int_of_str s
  | PNone | PList _ | PDict _ => None
  end.

(** The valid integer under key [k] of a candidate, if there is one. *)
Definition spec_field (d : pydict) (k : pystr) : option Z :=
  match dict_get d k with
  | Some v => spec_integer v
  | None => None
  end.

Definition with_default (default : Z) (o : option Z) : Z :=
  match o with Some z => z | None => default end.

(** A section with a well-formed span. *)
Definition valid_span (s : Section) : Prop :=
  1 <= start_page s <= end_page s.

(** [b] starts after [a] ends. *)
Definition strictly_after (a b : Section) : Prop :=
  end_page a < start_page b.

(** The order of the sort key, as a relation. *)
Definition key_order (a b : Section) : Prop := key_le a b = true.

Definition valid_group (kg : pystr * Group) : Prop :=
  1 <= g_start_page (snd kg) <= g_end_page (snd kg).

(** The kept candidates whose grouping key is [k], in order. *)
Definition members (repr_other : pyval -> pystr) (items : list pyval) (k : pystr)
  : list Candidate :=
  filter (fun c => pystr_eqb (c_key c) k) (candidates repr_other items).

(** The sections of a list whose title has the grouping key [k]. *)
Definition sections_with_key (k : pystr) (l : list Section) : list Section :=
  filter (fun s => pystr_eqb (title_key (title s)) k) l.

Definition is_min (m : Z) (l : list Z) : Prop :=
  In m l /\ forall x, In x l -> m <= x.

Definition is_max (m : Z) (l : list Z) : Prop :=
  In m l /\ forall x, In x l -> x <= m.

(** The entries of [groups] under the key [k]. *)
Definition entries_with_key (k : pystr) (gs : groups) : groups :=
  filter (fun kg => pystr_eqb (fst kg) k) gs.

(** The group that a non-empty run of candidates of one key builds up. *)
Definition group_of (cs : list Candidate) : option Group :=
  match cs with
  | [] => None
  | c0 :: rest => Some (fold_left merge_group rest (new_group c0))
  end.

(** A candidate dict with the four fields, for the examples. *)
Definition candidate_item (t : pystr) (a b : Z) (s : pystr) : pyval :=
  PDict [(lit "title", PStr t); (lit "start_page", PInt a);
         (lit "end_page", PInt b); (lit "summary", PStr s)].

(** [str()] never meets a float, a list or a dict in the examples. *)
Definition no_repr (v : pyval) : pystr := [].

(** Candidates of the examples: a section "A" on pages 1..5, a section
    "B" on pages 2..3 and the same section again, as " b ", on 3..4. *)
Definition overlap_items : list pyval :=
  [candidate_item (lit "A") 1 5 (lit "s");
   candidate_item (lit "B") 2 3 (lit "x");
   candidate_item (lit " b ") 3 4 (lit "y")].

Definition cand_B : Candidate :=
  {| c_title := lit "B"; c_key := lit "b"; c_sp := 2; c_ep := 3;
     c_summary := lit "x" |}.

Definition cand_b : Candidate :=
  {| c_title := lit "b"; c_key := lit "b"; c_sp := 3; c_ep := 4;
     c_summary := lit "y" |}.

(** A candidate whose [start_page] is a string of 4301 digits, more than
    [int] converts, and one whose pages are a string and [null]. *)
Definition long_digits_item : pyval :=
  PDict [(lit "title", PStr (lit "T"));
         (lit "start_page", PStr (repeat "1"%char (Z.to_nat 4301)));
         (lit "end_page", PInt 3)].

Definition string_pages_item : pyval :=
  PDict [(lit "title", PStr (lit " Results "));
         (lit "start_page", PStr (lit " 7 "));
         (lit "end_page", PNone);
         (lit "summary", PStr (lit "s"))].

(** Two candidates whose titles are empty after trimming. *)
Definition untitled_items : list pyval :=
  [candidate_item [] 1 2 (lit "x"); candidate_item (lit "  ") 3 4 (lit "y")].

(** ** The cleaner *)

(** Following the claim's words: the line, trimmed, is not empty and
    each of its characters is, in lower case, one of the letters i, v, x,
    l, c, d, m. *)
Definition roman_letters_only (ln : pystr) : bool :=
  nonempty (strip ln)
  && forallb (fun c => existsb (ascii_eqb (lower_char c)) (lit "ivxlcdm"))
             (strip ln).

(** A page whose middle lines are the words "mix", "civil", "did" and
    "mild". *)
Definition words_page : PageText :=
  {| page_num := 1;
     text := join [NL] [lit "intro"; lit "mix"; lit " Civil "; lit "did";
                        lit "mild"; lit "outro"] |}.

Definition no_patterns : Patterns := {| header := []; footer := [] |}.

(** A regular-expression engine that knows no pattern at all. *)
Definition no_re_compile (p : pystr) : result regex := Raise ReError.

(** ** The JSON extractor and the stance records *)

(** The response of the spec's example: prose, a fenced block with the
    object, more prose. *)
Definition json_a1 : pystr :=
  lit "{" ++ [DQUOTE] ++ lit "a" ++ [DQUOTE] ++ lit ":1}".

Definition fence_open : pystr := repeat BACKTICK 3 ++ lit "json" ++ [NL].
Definition fence_close : pystr := [NL] ++ repeat BACKTICK 3.

Definition fenced_response : pystr :=
  lit "Here is the result:" ++ [NL] ++ fence_open ++ json_a1 ++ fence_close
  ++ [NL] ++ lit "Thanks".

(** The same block after prose that holds a bracket. *)
Definition cited_response : pystr :=
  lit "See [1]:" ++ [NL] ++ fence_open ++ json_a1 ++ fence_close.

(** A response with an empty fence: six backticks in a row. *)
Definition empty_fence_response : pystr :=
  lit "Result: " ++ repeat BACKTICK 6.

(** Following the spec's words ("if a fenced code block is present, use
    its contents as the search candidate"): the text between the line
    that opens the first fence and the next three backticks; [None] when
    there is no such block. *)
Fixpoint until_fence (s : pystr) : option pystr :=
  match s with
  | [] => None
  | c :: s' =>
      if starts_with (repeat BACKTICK 3) s then Some []
      else option_map (cons c) (until_fence s')
  end.

Fixpoint after_line (s : pystr) : pystr :=
  match s with
  | [] => []
  | c :: s' => if ascii_eqb c NL then s' else after_line s'
  end.

Fixpoint spec_fence_contents (s : pystr) : option pystr :=
  match s with
  | [] => None
  | _ :: s' =>
      if starts_with (repeat BACKTICK 3) s
      then until_fence (after_line (skipn 3 s))
      else spec_fence_contents s'
  end.

(** The value that the default-fill leaves under a category key. *)
Definition filled (o : option pyval) : pyval :=
  match o with
  | Some (PList l) => PList l
  | _ => PList []
  end.

(** ** The boilerplate detector *)

(** The non-empty top signatures that the detector tallies, page by page,
    and the non-empty bottom signatures. *)
Definition top_signatures (top_n_lines bottom_n_lines : Z) (pages : list PageText)
  : list pystr :=
  flat_map (fun p => match page_signatures top_n_lines bottom_n_lines p with
                     | Some (top, _) => if nonempty top then [top] else []
                     | None => []
                     end) pages.

Definition bottom_signatures (top_n_lines bottom_n_lines : Z) (pages : list PageText)
  : list pystr :=
  flat_map (fun p => match page_signatures top_n_lines bottom_n_lines p with
                     | Some (_, bot) => if nonempty bot then [bot] else []
                     | None => []
                     end) pages.

(** Number of occurrences of [k] in [l]. *)
Fixpoint count (k : pystr) (l : list pystr) : Z :=
  match l with
  | [] => 0
  | x :: l' => (if pystr_eqb x k then 1 else 0) + count k l'
  end.

(** [h] is a most frequent element of [l], and among the most frequent
    ones the first to occur: whatever occurs before the first [h] is
    strictly less frequent. *)
Definition most_frequent_first (h : pystr) (l : list pystr) : Prop :=
  exists pre post,
    l = pre ++ h :: post
    /\ ~ In h pre
    /\ (forall t, In t l -> count t l <= count h l)
    /\ (forall t, In t pre -> count t l < count h l).

(** [c[k]], 0 for a key that is not there. *)
Fixpoint counter_get (c : counter) (k : pystr) : Z :=
  match c with
  | [] => 0
  | (k', n) :: c' => if pystr_eqb k' k then n else counter_get c' k
  end.

(** The tally of a list of signatures. *)
Definition tally (l : list pystr) (c : counter) : counter :=
  fold_left counter_incr l c.

(** Following the spec's words: the bottom signature of a page is its last
    [n] non-blank lines joined by a space (all of them when the page has
    fewer), as its top signature is its first [n]. *)
Definition spec_bottom_signature (n : nat) (p : PageText) : pystr :=
  let lines := nonblank_lines (text p) in
  join [SP] (skipn (List.length lines - n) lines).

Definition spec_top_signature (n : nat) (p : PageText) : pystr :=
  join [SP] (firstn n (nonblank_lines (text p))).

(** Two one-line pages and a two-line page. *)
Definition short_pages : list PageText :=
  [ {| page_num := 1; text := lit "Title" |};
    {| page_num := 2; text := lit "Title" |};
    {| page_num := 3; text := lit "a" ++ [NL] ++ lit "b" |} ].

(** ** The combiner and the slicer *)

(** [re.search(r"<<PAGE\s+(\d+)>>", s) is not None]: the page-marker
    pattern matches somewhere in [s]. *)
Fixpoint has_marker (s : pystr) : bool :=
  match match_marker s with
  | Some _ => true
  | None => match s with
            | [] => false
            | _ :: s' => has_marker s'
            end
  end.

(** The pages whose number lies in [a .. b]. *)
Definition pages_in_range (a b : Z) (pages : list PageText) : list PageText :=
  filter (fun p => (a <=? page_num p) && (page_num p <=? b)) pages.

(** The number of the page is written with at most [int_max_str_digits]
    digits, so that [int] reads its marker back; every number below
    [10 ^ 4300] is. *)
Definition within_digit_limit (p : PageText) : bool :=
  len (str_of_int (page_num p)) <=? int_max_str_digits.

(** What comes after the text of a page in the combined text: nothing, or
    the blank line and the marker of the next page. *)
Definition follows_page (r : pystr) : Prop :=
  r = [] \/ exists r', r = NL :: NL :: "<"%char :: r'.

(** The pieces that the split of a combined text consists of after its
    (empty) head: for each page its number and its text, the text between
    the line feed that ends the marker and the blank line that separates
    it from the next page. *)
Fixpoint parts_of (pages : list PageText) : list pystr :=
  match pages with
  | [] => []
  | p :: rest =>
      str_of_int (page_num p)
      :: ([NL] ++ text p ++ match rest with [] => [] | _ => [NL; NL] end)
      :: parts_of rest
  end.

(** Two cleaned pages, and a third one. *)
Definition sample_pages : list PageText :=
  [ {| page_num := 1; text := lit "First page. " |};
    {| page_num := 2; text := lit " Second <<PAGE two>> page" |};
    {| page_num := 3; text := lit "Third" |} ].

(* ================================================================== *)
(** * The functions around the core, and further vocabulary            *)
(* ================================================================== *)

(** The retrying client of [src/ai_clients.py], the callers of the parser
    in [src/analysis.py] ([ai_segment_text], [ai_refine_query],
    [run_query_on_text]), the rows of [src/io_utils.py] and the pipeline
    of [src/pdf_utils.py].  The remote service is a function of a state
    that each call may change; a function whose exceptions go beyond
    those of [result] returns an [outcome]. *)

(** ** Chunks, cleaned lines, fragments *)

(** The character of [s] at index [i] (a line feed beyond the end; the
    statements only look inside). *)
Definition char_at (s : pystr) (i : Z) : ascii := nth (Z.to_nat i) s NL.

(** No character of [l] breaks a line. *)
Definition no_linebreak (l : pystr) : bool :=
  forallb (fun c => negb (is_linebreak c)) l.

(** A line as [str.splitlines] yields it and the cleaner keeps it: not
    empty, and without a line-break character. *)
Definition plain_line (l : pystr) : Prop :=
  l <> [] /\ no_linebreak l = true.

(** No character of [s] opens a bracket. *)
Definition no_open (s : pystr) : bool := forallb (fun c => negb (is_open c)) s.

(** The grouping key of a section of the output. *)
Definition section_key (s : Section) : pystr := title_key (title s).

(** What the overlap pass may do to a section: title and summary stay,
    the pages do not move backward. *)
Definition moved_forward (before after : Section) : Prop :=
  title after = title before
  /\ summary after = summary before
  /\ start_page before <= start_page after
  /\ end_page before <= end_page after.

(* ================================================================== *)
(** ** [ai_clients.py]                                                 *)
(* ================================================================== *)

(** How a call ends: with a value, or with an exception of type [E]. *)
Inductive outcome (E A : Type) : Type :=
  | Returns (a : A)
  | Raises (e : E).
Arguments Returns {E A} a.
Arguments Raises {E A} e.

Definition obind {E A B : Type} (r : outcome E A) (k : A -> outcome E B)
  : outcome E B :=
  match r with
  | Returns a => k a
  | Raises e => Raises e
  end.

(** Temperature and token limit, handed unchanged to the service. *)
Record GenParams : Type := mkGenParams {
  temperature : pyfloat;
  max_output_tokens : Z
}.

(** [for attempt in range(1, n + 1)] *)
Definition attempts_upto (n : Z) : list Z :=
  map Z.of_nat (seq 1 (Z.to_nat n)).

Section GeminiClient.

(** The remote service, the clock and the random generator form a state
    [world], which every call and every sleep may change.  [exc] is the
    type of the exceptions below [Exception] that a call can raise, and
    [str_exc] is Python's [str(e)].  An exception object is true in a
    condition, as it is unless its class defines otherwise. *)
Variables world exc : Type.
Variable str_exc : exc -> pystr.

(** The constants that the module reads from the environment when it is
    loaded. *)
Variable MAX_RETRIES : Z.
Variable FALLBACK_MODEL : pystr.

(** What a call gives: the [.text] of the answer, which may be [None], or
    an exception. *)
Definition reply : Type := outcome exc (option pystr).

(** [_call_once(model, contents, ...)], on either client library. *)
Variable _call_once : pystr -> pystr -> GenParams -> world -> reply * world.

(** The sleep of lines 64 to 66 at a given attempt: it draws the jitter,
    waits, and can itself raise ([time.sleep] refuses a negative length,
    and the product overflows on a very late attempt). *)
Variable backoff : Z -> world -> option exc * world.

(** What the run of a call leaves behind, in order. *)
Inductive event : Type :=
  | Tried (attempt : Z) (r : reply)
  | Slept (attempt : Z) (raised : option exc)
  | FellBack (r : reply).

Definition transient (e : exc) : bool :=
  let msg := str_exc e in
  contains (lit "503") msg
  || contains (lit "UNAVAILABLE") msg
  || contains (lit "RESOURCE_EXHAUSTED") msg.

(** [if err_last: raise err_last], and [None] at the end of the body. *)
Definition after_loop (err_last : option exc) : reply :=
  match err_last with
  | Some e => Raises e
  | None => Returns None
  end.

Fixpoint retry_loop (fn : world -> reply * world) (attempts : list Z)
  (err_last : option exc) (w : world) : reply * world * list event :=
  match attempts with
  | [] => (after_loop err_last, w, [])
  | attempt :: rest =>
      let '(r, w1) := fn w in
      match r with
      | Returns v => (Returns v, w1, [Tried attempt r])
      | Raises e =>
          if negb (transient e) && (MAX_RETRIES <=? attempt)
          then (Raises e, w1, [Tried attempt r])
          else if transient e then
            match backoff attempt w1 with
            | (Some e', w2) =>
                (Raises e', w2, [Tried attempt r; Slept attempt (Some e')])
            | (None, w2) =>
                let '(res, w3, tr) := retry_loop fn rest (Some e) w2 in
                (res, w3, Tried attempt r :: Slept attempt None :: tr)
            end
          else (after_loop (Some e), w1, [Tried attempt r])
      end
  end.

(** [self._retry_wrapper(fn, *args, **kwargs)], with [fn] applied to its
    arguments. *)
Definition _retry_wrapper (fn : world -> reply * world) (w : world)
  : reply * world * list event :=
  retry_loop fn (attempts_upto MAX_RETRIES) None w.

(** [(system_instruction + "\n\n" + prompt) if system_instruction else
    prompt] *)
Definition contents_of (prompt : pystr) (system_instruction : option pystr)
  : pystr :=
  match system_instruction with
  | Some s => if nonempty s then s ++ [NL; NL] ++ prompt else prompt
  | None => prompt
  end.

Definition generate_json (model_name prompt : pystr)
  (system_instruction : option pystr) (params : GenParams) (w : world)
  : reply * world * list event :=
  let contents := contents_of prompt system_instruction in
  match _retry_wrapper (_call_once model_name contents params) w with
  | (Returns v, w1, tr) => (Returns v, w1, tr)
  | (Raises e, w1, tr) =>
      if nonempty FALLBACK_MODEL && negb (pystr_eqb FALLBACK_MODEL model_name)
      then
        let '(r, w2) := _call_once FALLBACK_MODEL contents params w1 in
        (r, w2, tr ++ [FellBack r])
      else (Raises e, w1, tr)
  end.

(** The calls of a run, and its sleeps. *)
Definition tried (tr : list event) : list (Z * reply) :=
  flat_map (fun ev => match ev with Tried k r => [(k, r)] | _ => [] end) tr.

Definition slept (tr : list event) : list Z :=
  flat_map (fun ev => match ev with Slept k _ => [k] | _ => [] end) tr.

Definition fell_back (tr : list event) : list reply :=
  flat_map (fun ev => match ev with FellBack r => [r] | _ => [] end) tr.

Definition is_transient_error (r : reply) : bool :=
  match r with
  | Raises e => transient e
  | Returns _ => false
  end.

End GeminiClient.

Arguments Tried {exc} attempt r.
Arguments Slept {exc} attempt raised.
Arguments FellBack {exc} r.

(* ================================================================== *)
(** ** [analysis.py] and [io_utils.py]: the functions around the parser *)
(* ================================================================== *)

(** The exceptions of these functions: those of the models above, and the
    two that a wrong kind of value brings. *)
Inductive pyerror : Type :=
  | Builtin (e : exn)
  | AttributeError
  | KeyError (k : pystr).

Definition of_result {A : Type} (r : result A) : outcome pyerror A :=
  match r with
  | Ok a => Returns a
  | Raise e => Raises (Builtin e)
  end.

(** [isinstance(v, dict)] *)
Definition is_dict (v : pyval) : bool :=
  match v with
  | PDict _ => true
  | _ => false
  end.

(** [for x in v]: the elements of a list, the characters of a string, the
    keys of a dict; nothing else that [json.loads] gives can be iterated. *)
Definition py_iter (v : pyval) : outcome pyerror (list pyval) :=
  match v with
  | PList l => Returns l
  | PStr s => Returns (map (fun c => PStr [c]) s)
  | PDict d => Returns (map (fun kv => PStr (fst kv)) d)
  | PNone | PBool _ | PInt _ | PFloat _ => Raises (Builtin TypeError)
  end.

(** [v.get(k, default)]: only a dict has the method. *)
Definition py_get (v : pyval) (k : pystr) (default : pyval)
  : outcome pyerror pyval :=
  match v with
  | PDict d => Returns (dict_get_default d k default)
  | _ => Raises AttributeError
  end.

(** *** [ai_segment_text] *)

(** [SEGMENT_USER_TEMPLATE.format(chunk=ch)] *)
Definition segment_prompt (ch : pystr) : pystr :=
  join [NL]
    [lit "Input text includes page markers like <<PAGE N>> to help infer page ranges.";
     lit "Task:";
     lit "- Infer section boundaries and map them to inclusive page ranges.";
     lit "- If overlaps occur across chunks, choose the most plausible boundary and keep consistency.";
     [];
     lit "Text:";
     ch;
     []].

Section Segmentation.

(** The service behind [client.generate_json(prompt, system_instruction =
    SEGMENT_SYSTEM, temperature = 0.1, max_output_tokens = 20000)], as a
    function of the prompt and of the state of the world; the client is
    built before the first line modelled here. *)
Variables world exc : Type.
Variable ask : pystr -> world -> outcome exc (option pystr) * world.
Variable json_loads : pystr -> result pyval.
Variable repr_other : pyval -> pystr.

(** The body of [try]: parse, wrap an object in a list, keep the objects.
    [None] has no [strip]; a string is iterated by characters, none of
    which is a dict. *)
Definition items_of_reply (out : option pystr) : outcome pyerror (list pyval) :=
  match out with
  | None => Raises AttributeError
  | Some s =>
      obind (of_result (parse_json_str json_loads s)) (fun arr =>
      let arr := if is_dict arr then PList [arr] else arr in
      obind (py_iter arr) (fun its =>
      Returns (filter is_dict its)))
  end.

(** [try: ... except Exception: continue] *)
Definition add_items (collected : list pyval) (out : option pystr)
  : list pyval :=
  match items_of_reply out with
  | Returns its => collected ++ its
  | Raises _ => collected
  end.

Fixpoint segment_chunks (chunks : list pystr) (collected : list pyval)
  (w : world) : outcome exc (list pyval) * world :=
  match chunks with
  | [] => (Returns collected, w)
  | ch :: rest =>
      match ask (segment_prompt ch) w with
      | (Raises e, w1) => (Raises e, w1)
      | (Returns out, w1) => segment_chunks rest (add_items collected out) w1
      end
  end.

(** [None] when the fuel of the chunker runs out. *)
Definition ai_segment_text (fuel : nat) (full_text : pystr) (w : world)
  : option (outcome (exn + exc) (list Section) * world) :=
  match chunk_text_for_model fuel full_text
          default_target_chars default_overlap_chars with
  | None => None
  | Some (Raise e) => Some (Raises (inl e), w)
  | Some (Ok chunks) =>
      match segment_chunks chunks [] w with
      | (Raises e, w1) => Some (Raises (inr e), w1)
      | (Returns collected, w1) =>
          Some (Returns (_reconcile_sections repr_other collected), w1)
      end
  end.

End Segmentation.

(** *** [save_csv_stance]: the rows, before they are written *)

Definition csv_row (section : pyval) (cat : pystr) (ex : pyval)
  : outcome pyerror pydict :=
  obind (py_get ex (lit "word") (PStr [])) (fun word =>
  obind (py_get ex (lit "sentence") (PStr [])) (fun sentence =>
  Returns [(lit "section", section);
           (lit "category", PStr cat);
           (lit "word", word);
           (lit "sentence", sentence)])).

Fixpoint rows_of_examples (section : pyval) (cat : pystr) (exs : list pyval)
  (rows : list pydict) : outcome pyerror (list pydict) :=
  match exs with
  | [] => Returns rows
  | ex :: rest =>
      obind (csv_row section cat ex) (fun row =>
      rows_of_examples section cat rest (rows ++ [row]))
  end.

Fixpoint rows_of_categories (item section : pyval) (cats : list pystr)
  (rows : list pydict) : outcome pyerror (list pydict) :=
  match cats with
  | [] => Returns rows
  | cat :: rest =>
      obind (py_get item cat (PList [])) (fun v =>
      obind (py_iter v) (fun exs =>
      obind (rows_of_examples section cat exs rows) (fun rows' =>
      rows_of_categories item section rest rows')))
  end.

Fixpoint stance_rows (items : list pyval) (rows : list pydict)
  : outcome pyerror (list pydict) :=
  match items with
  | [] => Returns rows
  | item :: rest =>
      obind (py_get item (lit "section") (PStr [])) (fun section =>
      obind (rows_of_categories item section stance_keys rows) (fun rows' =>
      stance_rows rest rows'))
  end.

(** The rows that [save_csv_stance] hands to the CSV writer. *)
Definition save_csv_stance_rows (items : list pyval)
  : outcome pyerror (list pydict) :=
  stance_rows items [].

(** The examples of one category of a stance record. *)
Definition examples_of (d : pydict) (cat : pystr) : list pyval :=
  match dict_get d cat with
  | Some (PList l) => l
  | _ => []
  end.

Definition all_examples (d : pydict) : list (pystr * pyval) :=
  flat_map (fun cat => map (fun ex => (cat, ex)) (examples_of d cat)) stance_keys.

(** A field of an example that is an object. *)
Definition example_field (ex : pyval) (k : pystr) : pyval :=
  match ex with
  | PDict e => dict_get_default e k (PStr [])
  | _ => PStr []
  end.

(** The row of one example of a record. *)
Definition row_of (d : pydict) (ce : pystr * pyval) : pydict :=
  [(lit "section", dict_get_default d (lit "section") (PStr []));
   (lit "category", PStr (fst ce));
   (lit "word", example_field (snd ce) (lit "word"));
   (lit "sentence", example_field (snd ce) (lit "sentence"))].

(** Every example of the record is an object. *)
Definition objects_only (d : pydict) : bool :=
  forallb (fun ce => is_dict (snd ce)) (all_examples d).

(** *** [ai_refine_query] *)

Definition default_fields : pyval :=
  PList [PDict [(lit "name", PStr (lit "page")); (lit "type", PStr (lit "string"))];
         PDict [(lit "name", PStr (lit "snippet")); (lit "type", PStr (lit "string"))]].

(** The seven [strategy.setdefault] calls, in order. *)
Definition strategy_defaults (strategy : pydict) : pydict :=
  let strategy := dict_setdefault strategy (lit "mode") (PStr (lit "keywords")) in
  let strategy := dict_setdefault strategy (lit "keywords") (PList []) in
  let strategy := dict_setdefault strategy (lit "patterns") (PList []) in
  let strategy := dict_setdefault strategy (lit "any_all") (PStr (lit "any")) in
  let strategy := dict_setdefault strategy (lit "case_sensitive") (PBool false) in
  let strategy := dict_setdefault strategy (lit "context_before_chars") (PInt 120) in
  let strategy := dict_setdefault strategy (lit "context_after_chars") (PInt 120) in
  strategy.

(** [ai_refine_query] from the response of the service on ([None] when
    the client returned no text).  [strategy] is the object held by
    [spec], so its new keys show in [spec]; a [strategy] that is not an
    object has no [setdefault]. *)
Definition ai_refine_query (json_loads : pystr -> result pyval)
  (out : option pystr) : outcome pyerror pydict :=
  match out with
  | None => Raises AttributeError
  | Some s =>
      obind (of_result (parse_json_str json_loads s)) (fun spec =>
      match spec with
      | PDict spec =>
          let spec := dict_setdefault spec (lit "fields") default_fields in
          let spec := dict_setdefault spec (lit "strategy") (PDict []) in
          match dict_get spec (lit "strategy") with
          | Some (PDict strategy) =>
              Returns (dict_set spec (lit "strategy")
                         (PDict (strategy_defaults strategy)))
          | _ => Raises AttributeError
          end
      | _ => Raises (Builtin ValueError)
      end)
  end.

(** The keys of [strategy] that [run_query_on_text] reads. *)
Definition strategy_keys : list pystr :=
  [lit "mode"; lit "keywords"; lit "patterns"; lit "any_all";
   lit "case_sensitive"; lit "context_before_chars"; lit "context_after_chars"].

(** *** [run_query_on_text] *)

(** [v[k]] for a string [k]: a missing key of a dict is a [KeyError], and
    nothing else that [json.loads] gives takes a string as index. *)
Definition py_getitem (v : pyval) (k : pystr) : outcome pyerror pyval :=
  match v with
  | PDict d =>
      match dict_get d k with
      | Some x => Returns x
      | None => Raises (KeyError k)
      end
  | _ => Raises (Builtin TypeError)
  end.

(** The truth value of [v] in a condition. *)
Definition py_truthy (v : pyval) : bool :=
  match v with
  | PNone => false
  | PBool b => b
  | PInt z => negb (z =? 0)
  | PFloat (FFinite m _) => negb (m =? 0)
  | PFloat _ => true
  | PStr s => nonempty s
  | PList l => match l with [] => false | _ => true end
  | PDict d => match d with [] => false | _ => true end
  end.

(** [v == s] for a string [s] *)
Definition py_eq_str (v : pyval) (s : pystr) : bool :=
  match v with
  | PStr t => pystr_eqb t s
  | _ => false
  end.

(** [s.replace("\n", " ")] *)
Definition replace_nl (s : pystr) : pystr :=
  map (fun c => if ascii_eqb c NL then SP else c) s.

(** A list comprehension whose element may raise. *)
Fixpoint omap {A B : Type} (f : A -> outcome pyerror B) (l : list A)
  : outcome pyerror (list B) :=
  match l with
  | [] => Returns []
  | x :: rest =>
      obind (f x) (fun y =>
      obind (omap f rest) (fun ys =>
      Returns (y :: ys)))
  end.

(** One character of a literal pattern against one of the text, with or
    without [re.IGNORECASE]. *)
Definition char_matches (ignore_case : bool) (p c : ascii) : bool :=
  if ignore_case then ascii_eqb (lower_char p) (lower_char c)
  else ascii_eqb p c.

(** The literal [kw] matches at the head of [s]. *)
Fixpoint matches_at (ignore_case : bool) (kw s : pystr) : bool :=
  match kw, s with
  | [], _ => true
  | p :: kw', c :: s' => char_matches ignore_case p c && matches_at ignore_case kw' s'
  | _ :: _, [] => false
  end.

(** [re.compile(re.escape(kw), case).finditer(text)], as the spans of the
    matches: leftmost first and not overlapping; the empty keyword
    matches at every index, the end included.  [i] is the index of the
    head of [s], [skip] the characters of a match still to pass. *)
Fixpoint find_literal (ignore_case : bool) (kw : pystr) (s : pystr) (i : Z)
  (skip : nat) : list (Z * Z) :=
  match s with
  | [] =>
      match skip, kw with
      | O, [] => [(i, i)]
      | _, _ => []
      end
  | _ :: s' =>
      match skip with
      | S k => find_literal ignore_case kw s' (i + 1) k
      | O =>
          if matches_at ignore_case kw s
          then (i, i + len kw)
               :: find_literal ignore_case kw s' (i + 1) (List.length kw - 1)
          else find_literal ignore_case kw s' (i + 1) O
      end
  end.

Definition finditer_literal (ignore_case : bool) (kw text : pystr)
  : list (Z * Z) :=
  find_literal ignore_case kw text 0 O.

(** A compiled pattern: its source and its [finditer], as spans. *)
Definition compiled : Type := pystr * (pystr -> list (Z * Z)).

(** A hit: the term, the start and the end of the match. *)
Definition hit : Type := pystr * Z * Z.

Section Query.

(** [re.compile(p, flags)] for a string [p], the flag being
    [re.IGNORECASE] or none, and [str] of the values that are not
    strings. *)
Variable re_compile : pystr -> bool -> result (pystr -> list (Z * Z)).
Variable repr_other : pyval -> pystr.

Definition compile_pattern (ignore_case : bool) (p : pyval)
  : outcome pyerror compiled :=
  match p with
  | PStr s =>
      obind (of_result (re_compile s ignore_case)) (fun f => Returns (s, f))
  | _ => Raises (Builtin TypeError)
  end.

(** [any(f.get("name") == "term" for f in fields)] *)
Fixpoint wants_term (fields : list pyval) : outcome pyerror bool :=
  match fields with
  | [] => Returns false
  | f :: rest =>
      obind (py_get f (lit "name") PNone) (fun name =>
      if py_eq_str name (lit "term") then Returns true else wants_term rest)
  end.

(** The snippet around a match. *)
Definition snippet_of (before after : Z) (text : pystr) (start stop : Z)
  : pystr :=
  let s := Z.max 0 (start - before) in
  let e := Z.min (len text) (stop + after) in
  strip (replace_nl (slice text s e)).

(** The inner function [collect]; [results] is the list it appends to. *)
Definition collect (spec : pydict) (before after : Z) (results : list pydict)
  (page : Z) (text : pystr) (h : hit) : outcome pyerror (list pydict) :=
  let '(term, start, stop) := h in
  let row := [(lit "page", PInt page);
              (lit "snippet", PStr (snippet_of before after text start stop))] in
  obind (py_iter (dict_get_default spec (lit "fields") (PList []))) (fun fields =>
  obind (wants_term fields) (fun want_term =>
  let row := if want_term then dict_set row (lit "term") (PStr term) else row in
  Returns (results ++ [row]))).

Fixpoint collect_hits (spec : pydict) (before after : Z) (page : Z)
  (text : pystr) (hits : list hit) (results : list pydict)
  : outcome pyerror (list pydict) :=
  match hits with
  | [] => Returns results
  | h :: rest =>
      obind (collect spec before after results page text h) (fun results' =>
      collect_hits spec before after page text rest results')
  end.

(** The matches of the patterns on a page, pattern by pattern. *)
Definition regex_hits (patterns : list compiled) (text : pystr) : list hit :=
  flat_map (fun rx => map (fun se => (fst rx, fst se, snd se)) (snd rx text))
           patterns.

(** The occurrences of the keywords on a page, keyword by keyword. *)
Definition keyword_hits (ignore_case : bool) (keyword_list : list pystr)
  (text : pystr) : list hit :=
  flat_map (fun kw => map (fun se => (kw, fst se, snd se))
                          (finditer_literal ignore_case kw text))
           keyword_list.

(** [all(kw.lower() in {p.lower() for p in present} for kw in
    keyword_list)], [present] being the keywords of the hits. *)
Definition all_present (keyword_list : list pystr) (hits : list hit) : bool :=
  forallb (fun kw =>
             existsb (fun h => pystr_eqb (lower (fst (fst h))) (lower kw)) hits)
          keyword_list.

(** The body of the loop for one page. *)
Definition query_page (spec : pydict) (mode any_all : pyval) (ignore_case : bool)
  (before after : Z) (keyword_list : list pystr) (patterns : list compiled)
  (page : Z) (text : pystr) (results : list pydict)
  : outcome pyerror (list pydict) :=
  if py_eq_str mode (lit "regex")
     && match patterns with [] => false | _ => true end
  then collect_hits spec before after page text (regex_hits patterns text) results
  else
    match keyword_list with
    | [] => Returns results
    | _ =>
        let hits := keyword_hits ignore_case keyword_list text in
        if py_eq_str any_all (lit "all") && negb (all_present keyword_list hits)
        then Returns results
        else collect_hits spec before after page text hits results
    end.

(** The loop [for i in range(1, len(segments), 2)] on [segments[i:]]. *)
Fixpoint query_loop (spec : pydict) (mode any_all : pyval) (ignore_case : bool)
  (before after : Z) (keyword_list : list pystr) (patterns : list compiled)
  (segments : list pystr) (results : list pydict)
  : outcome pyerror (list pydict) :=
  match segments with
  | [] => Returns results
  | num :: rest =>
      let run (text : pystr) (more : list pydict -> outcome pyerror (list pydict)) :=
        match int_of_str num with
        | Raise _ => more results
        | Ok page =>
            obind (query_page spec mode any_all ignore_case before after
                     keyword_list patterns page text results) more
        end in
      match rest with
      | text :: rest' =>
          run text (query_loop spec mode any_all ignore_case before after
                      keyword_list patterns rest')
      | [] => run [] (fun results' => Returns results')
      end
  end.

Definition run_query_on_text (full_text : pystr) (spec : pydict)
  : outcome pyerror (list pydict) :=
  let segments := re_split_marker full_text in
  obind (py_getitem (PDict spec) (lit "strategy")) (fun strategy =>
  obind (py_getitem strategy (lit "mode")) (fun mode =>
  obind (py_getitem strategy (lit "case_sensitive")) (fun case_sensitive =>
  let ignore_case := negb (py_truthy case_sensitive) in
  obind (py_getitem strategy (lit "context_before_chars")) (fun b =>
  obind (of_result (py_int b)) (fun before =>
  obind (py_getitem strategy (lit "context_after_chars")) (fun a =>
  obind (of_result (py_int a)) (fun after =>
  obind (py_get strategy (lit "keywords") (PList [])) (fun kws =>
  obind (py_iter kws) (fun ks =>
  let keyword_list := map (py_str repr_other) ks in
  obind (py_get strategy (lit "any_all") (PStr (lit "any"))) (fun any_all =>
  obind (py_get strategy (lit "patterns") (PList [])) (fun ps =>
  obind (py_iter ps) (fun ps =>
  obind (omap (compile_pattern ignore_case) ps) (fun patterns =>
  query_loop spec mode any_all ignore_case before after keyword_list patterns
    (tl segments) []))))))))))))).

End Query.

(** The groups of the page markers of a text, in order: the pieces of the
    split at the odd indices. *)
Fixpoint odd_pieces (pieces : list pystr) : list pystr :=
  match pieces with
  | [] => []
  | num :: rest =>
      num :: match rest with
             | [] => []
             | _ :: rest' => odd_pieces rest'
             end
  end.

Definition marker_numbers (full_text : pystr) : list pystr :=
  odd_pieces (tl (re_split_marker full_text)).

(** A row of a query: the number of a page marker of the text, a snippet
    that is trimmed and holds no line feed, and no key beyond the three. *)
Definition query_row (full_text : pystr) (row : pydict) : Prop :=
  exists page snippet,
    (exists num, In num (marker_numbers full_text) /\ int_of_str num = Ok page)
    /\ dict_get row (lit "page") = Some (PInt page)
    /\ dict_get row (lit "snippet") = Some (PStr snippet)
    /\ strip snippet = snippet
    /\ ~ In NL snippet
    /\ (map fst row = [lit "page"; lit "snippet"]
        \/ map fst row = [lit "page"; lit "snippet"; lit "term"]).

(** A specification, a text and an engine for the examples: the keyword
    [risk], any case, with 6 characters of context on either side. *)
Definition risk_response : pyval :=
  PDict [(lit "strategy",
          PDict [(lit "keywords", PList [PStr (lit "risk")]);
                 (lit "context_before_chars", PInt 6);
                 (lit "context_after_chars", PInt 6)])].

Definition risk_text : pystr :=
  combine_pages
    [ {| page_num := 1; text := join [NL] [lit "A Risk is"; lit "a risk."] |};
      {| page_num := 2; text := lit "No hazard here." |} ].

Definition no_regex (p : pystr) (ignore_case : bool)
  : result (pystr -> list (Z * Z)) := Raise ReError.

(** The call does not end in a [KeyError]. *)
Definition no_key_error {A : Type} (r : outcome pyerror A) : Prop :=
  forall k, r <> Raises (KeyError k).

(* ================================================================== *)
(** ** [pdf_utils.py]: the pipeline                                    *)
(* ================================================================== *)

(** The defaults of the detector's signature. *)
Definition default_top_n_lines : Z := 2.
Definition default_bottom_n_lines : Z := 2.

(** [extract_text_pipeline] from the raw pages on; reading them out of
    the PDF is the work of the PDF library. *)
Definition extract_text_pipeline (re_compile : pystr -> result regex)
  (raw_pages : list PageText)
  : result (list PageText * list PageText * pystr) :=
  let patterns :=
    detect_repeated_headers_footers raw_pages
      default_top_n_lines default_bottom_n_lines in
  cleaned_pages <- remove_headers_footers_and_numbers re_compile raw_pages patterns ;;
  Ok (raw_pages, cleaned_pages, combine_pages cleaned_pages).

(** [re.compile(re.escape(h), re.IGNORECASE).search(s)], as a truth
    value: is there a match of the literal [h] in [s], case apart? *)
Definition search_literal (h : pystr) : regex :=
  fun s => match finditer_literal true h s with
           | [] => false
           | _ :: _ => true
           end.

(** What the engine does with a signature that the detector escaped; the
    empty signature is not compiled. *)
Definition compiles_as_literal (re_compile : pystr -> result regex)
  (h : pystr) : Prop :=
  h <> [] -> re_compile (re_escape h) = Ok (search_literal h).

(** The pattern of signature [h] cannot match a line of length [n]: it is
    longer; the empty signature gives no pattern. *)
Definition out_of_reach (h : pystr) (n : Z) : Prop :=
  h = [] \/ n < len h.

(** Undo [re.escape]: drop each backslash and keep what follows it. *)
Fixpoint re_unescape (p : pystr) : pystr :=
  match p with
  | [] => []
  | c :: p' =>
      if ascii_eqb c BACKSLASH
      then match p' with
           | [] => []
           | d :: p'' => d :: re_unescape p''
           end
      else c :: re_unescape p'
  end.

(** An engine for escaped signatures, and pages with a running title. *)
Definition literal_engine (p : pystr) : result regex :=
  Ok (search_literal (re_unescape p)).

Definition titled_pages : list PageText :=
  [ {| page_num := 1;
       text := join [NL] [lit "Thesis"; lit "Chapter 1"; lit "So it begins."; lit "1"] |};
    {| page_num := 2;
       text := join [NL] [lit "Thesis"; lit "Chapter 1"; lit "And so on."; lit "2"] |} ].

(* ================================================================== *)
(** * Proofs                                                           *)
(* ================================================================== *)

(** ** Strings: basic facts *)

Lemma len_nonneg (s : pystr) : 0 <= len s.
Proof. unfold len. lia. Qed.

Lemma len_cons (c : ascii) (s : pystr) : len (c :: s) = len s + 1.
Proof. unfold len. cbn [List.length]. lia. Qed.

Lemma len_nil : len [] = 0.
Proof. reflexivity. Qed.

Lemma norm_index_nonneg (n i : Z) : 0 <= i -> norm_index n i = i.
Proof. intros H. unfold norm_index. destruct (Z.ltb_spec i 0); lia. Qed.

(** ** [str.rfind] *)

Lemma rfind_scan_spec (sub : pystr) :
  forall (s : pystr) (i lo hi best : Z),
    best < i ->
    let r := rfind_scan sub s i lo hi best in
    best <= r
    /\ (r = best
        \/ (i <= r <= i + len s /\ lo <= r /\ r + len sub <= hi
            /\ starts_with sub (skipn (Z.to_nat (r - i)) s) = true))
    /\ (forall j, i <= j <= i + len s -> lo <= j -> j + len sub <= hi ->
                  starts_with sub (skipn (Z.to_nat (j - i)) s) = true ->
                  j <= r).
Proof.
  induction s as [|c s IH]; intros i lo hi best Hb; cbn [rfind_scan].
  - cbn zeta. rewrite len_nil.
    destruct ((lo <=? i) && (i + len sub <=? hi) && starts_with sub []) eqn:E.
    + apply andb_prop in E as [E E3]. apply andb_prop in E as [E1 E2].
      apply Z.leb_le in E1, E2.
      split; [lia|]. split.
      * right. replace (i - i) with 0 by lia. cbn. repeat split; try lia; exact E3.
      * intros j Hj _ _ _. lia.
    + split; [lia|]. split; [now left|].
      intros j Hj H1 H2 H3. assert (j = i) by lia. subst j.
      replace (i - i) with 0 in H3 by lia. cbn in H3.
      apply Z.leb_le in H1, H2. rewrite H1, H2, H3 in E. discriminate.
  - set (best' := if (lo <=? i) && (i + len sub <=? hi) && starts_with sub (c :: s)
                  then i else best).
    assert (Hb' : best' < i + 1) by (unfold best'; destruct (_ && _); lia).
    assert (Hbb : best <= best') by (unfold best'; destruct (_ && _); lia).
    specialize (IH (i + 1) lo hi best' Hb').
    cbn zeta in *. destruct IH as (IH1 & IH2 & IH3).
    set (r := rfind_scan sub s (i + 1) lo hi best') in *.
    rewrite len_cons. pose proof (len_nonneg s) as Hls.
    split; [lia|]. split.
    + destruct IH2 as [IH2 | (Hr & Hlo & Hhi & Hm)].
      * unfold best' in IH2.
        destruct ((lo <=? i) && (i + len sub <=? hi) && starts_with sub (c :: s)) eqn:E.
        -- right. apply andb_prop in E as [E E3]. apply andb_prop in E as [E1 E2].
           apply Z.leb_le in E1, E2. rewrite IH2.
           replace (i - i) with 0 by lia. cbn [Z.to_nat skipn].
           repeat split; try lia; exact E3.
        -- now left.
      * right. repeat split; try lia.
        replace (Z.to_nat (r - i)) with (S (Z.to_nat (r - (i + 1)))) by lia.
        exact Hm.
    + intros j Hj H1 H2 H3.
      destruct (Z.eq_dec j i) as [->|Hne].
      * replace (i - i) with 0 in H3 by lia. cbn [Z.to_nat skipn] in H3.
        apply Z.leb_le in H1, H2.
        assert (best' = i) as Hbi by (unfold best'; now rewrite H1, H2, H3).
        lia.
      * apply IH3; try lia.
        replace (Z.to_nat (j - i)) with (S (Z.to_nat (j - (i + 1)))) in H3 by lia.
        exact H3.
Qed.

(** [rfind] on a window inside the text: either [-1] and no occurrence
    lies in the window, or the last occurrence of the window. *)
Lemma rfind_spec (s sub : pystr) (start stop : Z) :
  0 <= start -> 0 <= stop <= len s ->
  let r := rfind s sub start stop in
  (r = -1 \/ (start <= r /\ r + len sub <= stop /\ occurs_at sub s r = true))
  /\ (forall j, start <= j -> j + len sub <= stop ->
                occurs_at sub s j = true -> j <= r).
Proof.
  intros Hs Hst. unfold rfind.
  rewrite (norm_index_nonneg _ start) by lia.
  rewrite (norm_index_nonneg _ stop) by lia.
  rewrite Z.min_r by lia.
  pose proof (rfind_scan_spec sub s 0 start stop (-1) ltac:(lia)) as H.
  cbn zeta in H. destruct H as (H1 & H2 & H3).
  cbn zeta. split.
  - destruct H2 as [H2 | (Ha & Hb & Hc & Hd)]; [now left | right].
    repeat split; try lia. unfold occurs_at.
    rewrite Z.sub_0_r in Hd. rewrite Hd.
    destruct (Z.leb_spec 0 (rfind_scan sub s 0 start stop (-1))); [reflexivity | lia].
  - intros j Hj1 Hj2 Hocc. unfold occurs_at in Hocc.
    apply andb_prop in Hocc as [Hj0 Hocc]. apply Z.leb_le in Hj0.
    pose proof (len_nonneg sub).
    apply H3; try lia. now rewrite Z.sub_0_r.
Qed.

(** ** The chunker *)

Lemma chunk_loop_more_fuel (text : pystr) (target overlap : Z) :
  forall (fuel fuel' : nat) (start : Z) (r : result (list (Z * Z))),
    (fuel <= fuel')%nat ->
    chunk_loop fuel text target overlap start = Some r ->
    chunk_loop fuel' text target overlap start = Some r.
Proof.
  induction fuel as [|fuel IH]; intros fuel' start r Hle H; [discriminate|].
  destruct fuel' as [|fuel']; [lia|].
  cbn [chunk_loop] in *. cbn zeta in *.
  destruct (start <? len text); [|exact H].
  destruct (if rfind text [NL; NL] start (Z.min (start + target) (len text)) =? -1
            then _ else _) as [b|e]; [|exact H].
  destruct (b =? len text); [exact H|].
  destruct (chunk_loop fuel text target overlap (Z.max 0 (b - overlap)))
    as [r0|] eqn:E; [|discriminate].
  rewrite (IH fuel' _ r0 ltac:(lia) E). exact H.
Qed.

Section Chunker.
Variables (text : pystr) (target overlap thr : Z).
Hypothesis Hthr : int_of_0_3_times target = Ok thr.
Hypothesis Hov : 0 <= overlap <= thr.
Hypothesis Htar : thr < target.

Let n := len text.
Let gain := thr + 1 - overlap.
Let stride := target - overlap.

Lemma chunk_loop_step (fuel : nat) (start : Z) :
  chunk_loop (S fuel) text target overlap start =
  if start <? n then
    let b := chosen_boundary text target thr start in
    if b =? n then Some (Ok [(start, b)])
    else match chunk_loop fuel text target overlap (Z.max 0 (b - overlap)) with
         | Some (Ok rest) => Some (Ok ((start, b) :: rest))
         | other => other
         end
  else Some (Ok []).
Proof.
  cbn [chunk_loop]. cbn zeta. fold n. rewrite Hthr. cbn [bind].
  unfold chosen_boundary. fold n.
  destruct (start <? n); [|reflexivity].
  destruct (rfind text [NL; NL] start (Z.min (start + target) n) =? -1);
    cbn [orb]; reflexivity.
Qed.

Lemma chosen_boundary_spec (start : Z) :
  0 <= start < n ->
  span_ok text target thr (start, chosen_boundary text target thr start).
Proof.
  intros Hs. unfold span_ok, chosen_boundary. cbn [fst snd]. cbn zeta. fold n.
  set (e := Z.min (start + target) n).
  assert (He : start < e <= n) by (unfold e; lia).
  pose proof (rfind_spec text [NL; NL] start e ltac:(lia) ltac:(fold n; lia))
    as [Hfound Hlast].
  cbn zeta in Hfound, Hlast.
  set (found := rfind text [NL; NL] start e) in *.
  change (len [NL; NL]) with 2 in *.
  split; [exact Hs|].
  destruct (Z.eqb_spec found (-1)) as [Hm1|Hm1]; cbn [orb].
  - split; [lia|]. right. split; [reflexivity|].
    intros j Hj1 Hj2 Hj3. destruct (is_break text j) eqn:E; [|reflexivity].
    specialize (Hlast j Hj1 Hj3 E). lia.
  - destruct Hfound as [Hf|(Hf1 & Hf2 & Hf3)]; [contradiction|].
    destruct (Z.leb_spec found (start + thr)) as [Hle|Hgt].
    + split; [lia|]. right. split; [reflexivity|].
      intros j Hj1 Hj2 Hj3. destruct (is_break text j) eqn:E; [|reflexivity].
      specialize (Hlast j Hj1 Hj3 E). lia.
    + split; [lia|]. left. repeat split; try lia; try exact Hf3.
      intros j Hj1 Hj2. destruct (is_break text j) eqn:E; [|reflexivity].
      specialize (Hlast j ltac:(lia) Hj2 E). lia.
Qed.

(** From one turn to the next the start moves on by at least [gain]. *)
Lemma chosen_boundary_progress (start : Z) :
  0 <= start < n ->
  let b := chosen_boundary text target thr start in
  b = n \/ start + gain <= Z.max 0 (b - overlap).
Proof.
  intros Hs. pose proof (chosen_boundary_spec start Hs) as H.
  unfold span_ok in H. cbn [fst snd] in H. cbn zeta in *. fold n in H.
  destruct H as (_ & Hb & [(_ & Hgt & _)|(Heq & _)]); unfold gain; lia.
Qed.

(** Without a paragraph break the boundary is the end of the window. *)
Lemma chosen_boundary_no_break (start : Z) :
  0 <= start < n ->
  (forall j, is_break text j = false) ->
  chosen_boundary text target thr start = Z.min (start + target) n.
Proof.
  intros Hs Hnb. pose proof (chosen_boundary_spec start Hs) as H.
  unfold span_ok in H. cbn [fst snd] in H. cbn zeta in H. fold n in H.
  destruct H as (_ & _ & [(Hbr & _)|(Heq & _)]); [|exact Heq].
  rewrite Hnb in Hbr. discriminate.
Qed.

Lemma chunk_loop_spec :
  forall (fuel : nat) (start : Z),
    0 <= start -> (Z.to_nat (n - start) < fuel)%nat ->
    exists spans,
      chunk_loop fuel text target overlap start = Some (Ok spans)
      /\ Forall (span_ok text target thr) spans
      /\ starts_chain overlap start spans
      /\ gain * Z.of_nat (List.length spans) <= Z.max 0 (n - start) + gain - 1
      /\ (n <= start -> spans = [])
      /\ ((forall j, is_break text j = false) -> start < n ->
          stride * (Z.of_nat (List.length spans) - 1)
          <= Z.max 0 (n - start - target + stride - 1)).
Proof.
  induction fuel as [|fuel IH]; intros start H0 Hfuel; [lia|].
  rewrite chunk_loop_step.
  destruct (Z.ltb_spec start n) as [Hlt|Hge].
  2:{ exists []. repeat split; try constructor; try lia;
      try (unfold gain; cbn; lia). }
  cbn zeta.
  pose proof (chosen_boundary_spec start ltac:(lia)) as Hok.
  pose proof (chosen_boundary_progress start ltac:(lia)) as Hprog.
  pose proof (chosen_boundary_no_break start ltac:(lia)) as Hnb.
  cbn zeta in Hprog.
  set (b := chosen_boundary text target thr start) in *.
  destruct (Z.eqb_spec b n) as [Hbn|Hbn].
  - exists [(start, b)]. cbn [List.length starts_chain fst snd].
    repeat split; try (constructor; [exact Hok | constructor]); try lia;
      try (unfold gain; lia).
  - destruct Hprog as [Hp|Hp]; [contradiction|].
    assert (Hg : 1 <= gain) by (unfold gain; lia).
    destruct (IH (Z.max 0 (b - overlap)) ltac:(lia) ltac:(lia))
      as (rest & Hrun & Hall & Hchain & Hcnt & Hnil & Hstr).
    rewrite Hrun. exists ((start, b) :: rest). cbn [List.length].
    rewrite Nat2Z.inj_succ, <- Z.add_1_r.
    split; [reflexivity|]. split; [constructor; assumption|].
  split; [cbn [starts_chain fst snd]; split; [reflexivity|exact Hchain]|].
    split; [|split; [lia|]].
    + rewrite Z.mul_add_distr_l, Z.mul_1_r.
      destruct (Z_le_gt_dec n (Z.max 0 (b - overlap))) as [Hout|Hin].
      * rewrite (Hnil Hout). cbn [List.length]. lia.
      * lia.
    + intros Hnob _. specialize (Hnb Hnob). fold b in Hnb.
      assert (Hb' : b = start + target) by lia.
      assert (Hnext : Z.max 0 (b - overlap) = start + stride)
        by (unfold stride; lia).
      rewrite Hnext in Hstr.
      assert (Hin : start + stride < n) by (unfold stride; lia).
      specialize (Hstr Hnob Hin).
      replace (Z.of_nat (List.length rest) + 1 - 1)
        with ((Z.of_nat (List.length rest) - 1) + 1) by lia.
      rewrite Z.mul_add_distr_l, Z.mul_1_r. unfold stride in *. lia.
Qed.

Lemma ceil_div_bound (k a d : Z) :
  0 < d -> d * k <= a + d - 1 -> k <= ceil_div a d.
Proof.
  intros Hd H. unfold ceil_div. apply Z.div_le_lower_bound; lia.
Qed.

Lemma chunk_spans_spec (fuel : nat) :
  (Z.to_nat n < fuel)%nat ->
  exists spans,
    chunk_spans fuel text target overlap = Some (Ok spans)
    /\ Forall (span_ok text target thr) spans
    /\ starts_chain overlap 0 spans
    /\ Z.of_nat (List.length spans) <= ceil_div n gain
    /\ ((forall j, is_break text j = false) ->
        Z.of_nat (List.length spans) <= ceil_div n stride).
Proof.
  intros Hfuel. unfold chunk_spans.
  destruct (chunk_loop_spec fuel 0 ltac:(lia) ltac:(rewrite Z.sub_0_r; exact Hfuel))
    as (spans & Hrun & Hall & Hchain & Hcnt & Hnil & Hstr).
  pose proof (len_nonneg text) as Hn. fold n in Hn.
  exists spans. split; [exact Hrun|]. split; [exact Hall|].
split; [exact Hchain|]. split.
  - apply ceil_div_bound; [unfold gain; lia|]. lia.
  - intros Hnob. destruct (Z.eq_dec n 0) as [Hz|Hz].
    + rewrite (Hnil ltac:(lia)). cbn. unfold ceil_div.
      apply Z.div_pos; unfold stride; lia.
    + specialize (Hstr Hnob ltac:(lia)).
      apply ceil_div_bound; [unfold stride; lia|].
      rewrite Z.mul_sub_distr_l, Z.mul_1_r in Hstr. unfold stride in *. lia.
Qed.

End Chunker.

Lemma contains_false_starts_with (sub : pystr) :
  forall (s : pystr) (k : nat),
    contains sub s = false -> starts_with sub (skipn k s) = false.
Proof.
  induction s as [|c s IH]; intros k H.
  - cbn [contains] in H. apply orb_false_elim in H as [H _].
    destruct k; exact H.
  - cbn [contains] in H. apply orb_false_elim in H as [H1 H2].
    destruct k as [|k]; [exact H1|]. cbn [skipn]. now apply IH.
Qed.

Lemma contains_false_no_break (s : pystr) :
  contains [NL; NL] s = false -> forall j, is_break s j = false.
Proof.
  intros H j. unfold is_break, occurs_at.
  rewrite (contains_false_starts_with _ _ _ H). apply andb_false_r.
Qed.

(** With the default target size the threshold [int(0.3 * 24000)] is 7200:
    the product of the doubles [0.3] and [24000.0] rounds to [7200.0]. *)
Lemma default_threshold : int_of_0_3_times default_target_chars = Ok 7200.
Proof. vm_compute. reflexivity. Qed.

(** C3 (amended): for every text, and for every [target_chars] and
    [overlap_chars] with [0 <= overlap_chars <= int(0.3 * target_chars) <
    target_chars] (the defaults 24000 and 1200 among them), the chunker
    terminates (any fuel above the length of the text is enough); it emits
    at most [ceil(length / (int(0.3 * target_chars) + 1 - overlap_chars))]
    chunks, and at most [ceil(length / (target_chars - overlap_chars))]
    when the text has no paragraph break. *)
Theorem chunker_terminates_with_bounded_count
  (text : pystr) (target overlap thr : Z) (fuel : nat) :
  int_of_0_3_times target = Ok thr ->
  0 <= overlap <= thr ->
  thr < target ->
  (Z.to_nat (len text) < fuel)%nat ->
  exists chunks,
    chunk_text_for_model fuel text target overlap = Some (Ok chunks)
    /\ Z.of_nat (List.length chunks) <= ceil_div (len text) (thr + 1 - overlap)
    /\ (contains [NL; NL] text = false ->
        Z.of_nat (List.length chunks) <= ceil_div (len text) (target - overlap)).
Proof.
  intros Hthr Hov Htar Hfuel.
  destruct (chunk_spans_spec text target overlap thr Hthr Hov Htar fuel Hfuel)
    as (spans & Hrun & _ & _ & Hcnt & Hnob).
  exists (map (fun sb => slice text (fst sb) (snd sb)) spans).
  unfold chunk_text_for_model. rewrite Hrun, length_map.
  split; [reflexivity|]. split; [exact Hcnt|].
  intros Hc. apply Hnob. now apply contains_false_no_break.
Qed.

Lemma chunker_terminates_with_bounded_count_witness :
  exists chunks,
    chunk_text_for_model 14 (lit "no break here") 24000 1200 = Some (Ok chunks)
    /\ Z.of_nat (List.length chunks) <= ceil_div (len (lit "no break here")) (7200 + 1 - 1200)
    /\ (contains [NL; NL] (lit "no break here") = false ->
        Z.of_nat (List.length chunks)
        <= ceil_div (len (lit "no break here")) (24000 - 1200)).
Proof.
  apply (chunker_terminates_with_bounded_count (lit "no break here") 24000 1200 7200 14).
  - vm_compute. reflexivity.
  - lia.
  - lia.
  - vm_compute. lia.
Defined.

(** C3 (as stated) fails: with the default sizes, a text of 25000
    characters whose two paragraph breaks sit at offsets 7201 and 24000 is
    cut into 3 chunks, while [ceil(25000 / (24000 - 1200))] is 2. *)
Lemma chunk_count_exceeds_stated_bound :
  len two_break_text = 25000
  /\ chunk_count 3 two_break_text default_target_chars default_overlap_chars
     = Some (Ok 3)
  /\ ceil_div (len two_break_text) (default_target_chars - default_overlap_chars) = 2.
Proof. repeat split; vm_compute; reflexivity. Qed.

(** C6 (amended): under the same conditions on the sizes, every chunk is
    [text[start:boundary]] for a pair that the loop chose, and every
    chosen boundary is the last paragraph break of the window
    [start .. min(start + target_chars, n)] when that break lies more than
    [int(0.3 * target_chars)] characters after [start], and the end of the
    window otherwise; the first chunk starts at 0 and each next one
    [overlap_chars] before the boundary of the chunk before it.  Page
    markers play no part in the choice. *)
Theorem chunk_boundaries_characterised
  (text : pystr) (target overlap thr : Z) (fuel : nat) :
  int_of_0_3_times target = Ok thr ->
  0 <= overlap <= thr ->
  thr < target ->
  (Z.to_nat (len text) < fuel)%nat ->
  exists spans,
    chunk_spans fuel text target overlap = Some (Ok spans)
    /\ chunk_text_for_model fuel text target overlap
       = Some (Ok (map (fun sb => slice text (fst sb) (snd sb)) spans))
    /\ Forall (span_ok text target thr) spans
    /\ starts_chain overlap 0 spans.
Proof.
  intros Hthr Hov Htar Hfuel.
  destruct (chunk_spans_spec text target overlap thr Hthr Hov Htar fuel Hfuel)
    as (spans & Hrun & Hall & Hchain & _).
  exists spans. unfold chunk_text_for_model. rewrite Hrun. auto.
Qed.

Lemma chunk_boundaries_characterised_witness :
  exists spans,
    chunk_spans 66 small_page_text 30 5 = Some (Ok spans)
    /\ chunk_text_for_model 66 small_page_text 30 5
       = Some (Ok (map (fun sb => slice small_page_text (fst sb) (snd sb)) spans))
    /\ Forall (span_ok small_page_text 30 9) spans
    /\ starts_chain 5 0 spans.
Proof.
  apply (chunk_boundaries_characterised small_page_text 30 5 9 66).
  - vm_compute. reflexivity.
  - lia.
  - lia.
  - vm_compute. lia.
Defined.

(** C6 (as stated) fails.  With the default sizes, on three combined
    pages of 7000, 1194 and 5 characters the first boundary is the
    paragraph break at 8218, and the second chunk starts 1200 characters
    before it, at 7018: inside the marker [<<PAGE 2>>], which occupies
    7013..7022.  With sizes 10 and 1 on three small pages, the boundary 40
    itself lies inside the marker at 33..42. *)
Lemma chunk_boundary_inside_page_marker :
  (chunk_spans 2 three_page_text default_target_chars default_overlap_chars
   = Some (Ok [(0, 8218); (7018, 8236)])
   /\ slice three_page_text 7013 7023 = lit "<<PAGE 2>>"
   /\ 7013 < 7018 < 7023)
  /\ (chunk_spans 8 small_page_text 10 1
      = Some (Ok [(0, 10); (9, 19); (18, 28); (27, 31); (30, 40); (39, 49);
                  (48, 58); (57, 65)])
      /\ slice small_page_text 33 43 = lit "<<PAGE 2>>"
      /\ 33 < 40 < 43).
Proof. repeat split; try lia; vm_compute; reflexivity. Qed.

(** The condition on the sizes matters: when [overlap_chars] reaches
    [target_chars] the loop never ends.  On 11 characters with both sizes
    10, every turn cuts [text[0:10]] and starts again at 0. *)
Lemma chunker_loops_when_overlap_reaches_target :
  forall fuel : nat, chunk_spans fuel (filler 11) 10 10 = None.
Proof.
  unfold chunk_spans. induction fuel as [|fuel IH]; [reflexivity|].
  rewrite (chunk_loop_step (filler 11) 10 10 3 eq_refl).
  change (0 <? len (filler 11)) with true. cbv iota zeta.
  change (chosen_boundary (filler 11) 10 3 0) with 10.
  change (10 =? len (filler 11)) with false. cbv iota.
  change (Z.max 0 (10 - 10)) with 0. now rewrite IH.
Qed.

(** ** The reconciler: spans *)

Lemma normalize_candidate_span (repr_other : pyval -> pystr) (it : pyval) (c : Candidate) :
  normalize_candidate repr_other it = Some c -> 1 <= c_sp c <= c_ep c.
Proof.
  unfold normalize_candidate. destruct it; try discriminate.
  destruct (negb _); [discriminate|].
  intros H. injection H as <-. cbn [c_sp c_ep]. lia.
Qed.

Lemma add_candidate_valid (gs : groups) (c : Candidate) :
  Forall valid_group gs -> 1 <= c_sp c <= c_ep c ->
  Forall valid_group (add_candidate gs c).
Proof.
  intros Hgs Hc. induction gs as [|[k g] gs IH]; cbn [add_candidate].
  - constructor; [|constructor]. unfold valid_group. cbn. exact Hc.
  - inversion Hgs as [|? ? Hg Hrest]; subst.
    destruct (pystr_eqb k (c_key c)).
    + constructor; [|exact Hrest]. unfold valid_group in *. cbn in *. lia.
    + constructor; [exact Hg | now apply IH].
Qed.

Lemma build_groups_valid (repr_other : pyval -> pystr) (items : list pyval) :
  Forall valid_group (build_groups repr_other items).
Proof.
  unfold build_groups.
  assert (H : forall gs, Forall valid_group gs ->
                         Forall valid_group (fold_left (group_step repr_other) items gs)).
  { induction items as [|it items IH]; intros gs Hgs; cbn [fold_left]; [exact Hgs|].
    apply IH. unfold group_step.
    destruct (normalize_candidate repr_other it) as [c|] eqn:E; [|exact Hgs].
    apply add_candidate_valid; [exact Hgs|].
    eapply normalize_candidate_span; eassumption. }
  apply H. constructor.
Qed.

Lemma insert_sorted_Forall (P : Section -> Prop) (x : Section) (l : list Section) :
  P x -> Forall P l -> Forall P (insert_sorted x l).
Proof.
  intros Hx Hl. induction Hl as [|y l Hy Hl IH]; cbn [insert_sorted].
  - repeat constructor; exact Hx.
  - destruct (key_le x y); repeat constructor; assumption.
Qed.

Lemma sort_sections_Forall (P : Section -> Prop) (l : list Section) :
  Forall P l -> Forall P (sort_sections l).
Proof.
  induction 1 as [|x l Hx Hl IH]; cbn [sort_sections]; [constructor|].
  now apply insert_sorted_Forall.
Qed.

Lemma merged_sections_valid (repr_other : pyval -> pystr) (items : list pyval) :
  Forall valid_span (merged_sections repr_other items).
Proof.
  unfold merged_sections. apply sort_sections_Forall.
  apply Forall_map.
  eapply Forall_impl; [|apply build_groups_valid].
  intros [k g] H. exact H.
Qed.

Lemma push_after_spec (prev cur : Section) :
  valid_span prev -> valid_span cur ->
  valid_span (push_after prev cur) /\ strictly_after prev (push_after prev cur).
Proof.
  unfold valid_span, strictly_after, push_after. intros Hp Hc.
  destruct (Z.leb_spec (start_page cur) (end_page prev)); cbn.
  - destruct (Z.ltb_spec (end_page cur) (end_page prev + 1)); lia.
  - lia.
Qed.

Lemma resolve_from_spec :
  forall (rest : list Section) (prev : Section),
    valid_span prev -> Forall valid_span rest ->
    Forall valid_span (resolve_from prev rest)
    /\ Sorted strictly_after (prev :: resolve_from prev rest).
Proof.
  induction rest as [|cur rest IH]; intros prev Hp Hr; cbn [resolve_from].
  - split; repeat constructor.
  - inversion Hr as [|? ? Hc Hrest]; subst.
    destruct (push_after_spec prev cur Hp Hc) as [Hv Ha].
    destruct (IH (push_after prev cur) Hv Hrest) as [IH1 IH2].
    split; [constructor; assumption|].
    constructor; [exact IH2|]. constructor. exact Ha.
Qed.

Lemma resolve_overlaps_spec (l : list Section) :
  Forall valid_span l ->
  Forall valid_span (resolve_overlaps l)
  /\ Sorted strictly_after (resolve_overlaps l).
Proof.
  intros H. destruct l as [|x l]; cbn [resolve_overlaps].
  - split; constructor.
  - inversion H as [|? ? Hx Hl]; subst.
    destruct (resolve_from_spec l x Hx Hl) as [H1 H2].
    split; [constructor; assumption | exact H2].
Qed.

(** Valid spans that follow one another strictly are in the order of the
    sort key, any two of them. *)
Lemma strictly_after_key_order (l : list Section) :
  Forall valid_span l -> Sorted strictly_after l -> StronglySorted key_order l.
Proof.
  intros Hv Hs.
  assert (H : StronglySorted (fun a b => start_page a < start_page b) l).
  { induction l as [|x l IH]; [constructor|].
    inversion Hv as [|? ? Hx Hl]; subst.
    inversion Hs as [|? ? Hs' Hhd]; subst.
    specialize (IH Hl Hs'). constructor; [exact IH|].
    destruct l as [|y l]; [constructor|].
    inversion Hhd as [|? ? Hxy]; subst.
    inversion IH as [|? ? _ Hall]; subst.
    inversion Hl as [|? ? Hy _]; subst.
    unfold strictly_after, valid_span in *.
    constructor; [lia|].
    eapply Forall_impl; [|exact Hall]. cbn. intros z Hz. lia. }
  clear Hv Hs. induction H as [|x l Hl IH Hall]; constructor; [exact IH|].
  eapply Forall_impl; [|exact Hall]. intros z Hz. unfold key_order, key_le.
  apply orb_true_iff. left. now apply Z.ltb_lt.
Qed.

Lemma Sorted_nth {A} (R : A -> A -> Prop) (d : A) (l : list A) :
  Sorted R l ->
  forall i, (S i < List.length l)%nat -> R (nth i l d) (nth (S i) l d).
Proof.
  induction 1 as [|x l Hs IH Hhd]; intros i Hi; [cbn in Hi; lia|].
  destruct i as [|i].
  - destruct l as [|y l]; [cbn in Hi; lia|]. inversion Hhd; subst. assumption.
  - cbn [List.length] in Hi. apply (IH i). lia.
Qed.

(** C1: for every list of items, of any shape, every section of the
    output of [_reconcile_sections] has [1 <= start_page <= end_page], the
    output is in ascending order of [(start_page, end_page)], and each
    section starts strictly after the end of the one before it. *)
Theorem reconcile_sections_ordered_non_overlapping
  (repr_other : pyval -> pystr) (items : list pyval) :
  let out := _reconcile_sections repr_other items in
  Forall valid_span out
  /\ StronglySorted key_order out
  /\ (forall i d, (S i < List.length out)%nat ->
                  start_page (nth (S i) out d) > end_page (nth i out d)).
Proof.
  cbn zeta. unfold _reconcile_sections.
  destruct (resolve_overlaps_spec _ (merged_sections_valid repr_other items))
    as [Hv Hs].
  split; [exact Hv|]. split; [now apply strictly_after_key_order|].
  intros i d Hi. pose proof (Sorted_nth strictly_after d _ Hs i Hi) as H.
  unfold strictly_after in H. lia.
Qed.

(** ** The reconciler: normalisation *)

Lemma nonempty_false_iff (s : pystr) : nonempty s = false <-> s = [].
Proof. destruct s; cbn; split; congruence. Qed.

Lemma group_step_skip (repr_other : pyval -> pystr) (it : pyval) (l1 l2 : list pyval) :
  normalize_candidate repr_other it = None ->
  build_groups repr_other (l1 ++ it :: l2) = build_groups repr_other (l1 ++ l2).
Proof.
  intros H. unfold build_groups. rewrite !fold_left_app. cbn [fold_left].
  unfold group_step at 2. rewrite H. reflexivity.
Qed.

(** ** The reconciler: merging by title key *)

Lemma ascii_eqb_eq (a b : ascii) : ascii_eqb a b = true <-> a = b.
Proof. unfold ascii_eqb. apply Ascii.eqb_eq. Qed.

Lemma pystr_eqb_eq (a b : pystr) : pystr_eqb a b = true <-> a = b.
Proof.
  revert b. induction a as [|x a IH]; intros [|y b]; cbn [pystr_eqb];
    try (split; congruence).
  rewrite andb_true_iff, ascii_eqb_eq, IH. split.
  - intros [-> ->]. reflexivity.
  - intros H. injection H as -> ->. auto.
Qed.

Lemma pystr_eqb_refl (a : pystr) : pystr_eqb a a = true.
Proof. now apply pystr_eqb_eq. Qed.

Lemma pystr_eqb_neq (a b : pystr) : pystr_eqb a b = false <-> a <> b.
Proof.
  split.
  - intros H E. apply pystr_eqb_eq in E. congruence.
  - intros H. destruct (pystr_eqb a b) eqn:E; [|reflexivity].
    apply pystr_eqb_eq in E. contradiction.
Qed.

Lemma build_groups_candidates (repr_other : pyval -> pystr) (items : list pyval) :
  build_groups repr_other items
  = fold_left add_candidate (candidates repr_other items) [].
Proof.
  unfold build_groups, candidates. generalize (@nil (pystr * Group)) as gs.
  induction items as [|it items IH]; intros gs; cbn [fold_left flat_map]; [reflexivity|].
  rewrite fold_left_app, <- IH. unfold group_step at 2.
  destruct (normalize_candidate repr_other it); reflexivity.
Qed.

Lemma normalize_candidate_key (repr_other : pyval -> pystr) (it : pyval) (c : Candidate) :
  normalize_candidate repr_other it = Some c -> c_key c = title_key (c_title c).
Proof.
  unfold normalize_candidate. destruct it; try discriminate.
  destruct (negb _); [discriminate|].
  intros H. injection H as <-. reflexivity.
Qed.

Lemma candidates_key (repr_other : pyval -> pystr) (items : list pyval) :
  Forall (fun c => c_key c = title_key (c_title c)) (candidates repr_other items).
Proof.
  unfold candidates. induction items as [|it items IH]; cbn [flat_map]; [constructor|].
  apply Forall_app. split; [|exact IH].
  destruct (normalize_candidate repr_other it) as [c|] eqn:E; repeat constructor.
  eapply normalize_candidate_key; eassumption.
Qed.

(** The entries under one key: at most one, and what [add_candidate] does
    to it. *)
Lemma add_candidate_entries (k : pystr) (c : Candidate) :
  forall gs : groups,
    (entries_with_key k gs = [] \/ exists g, entries_with_key k gs = [(k, g)]) ->
    entries_with_key k (add_candidate gs c)
    = if pystr_eqb k (c_key c)
      then match entries_with_key k gs with
           | [] => [(k, new_group c)]
           | kg :: _ => [(k, merge_group (snd kg) c)]
           end
      else entries_with_key k gs.
Proof.
  induction gs as [|[k' g'] gs IH]; intros Hone.
  - cbn [add_candidate entries_with_key filter fst].
    destruct (pystr_eqb k (c_key c)) eqn:E.
    + apply pystr_eqb_eq in E. subst k. rewrite pystr_eqb_refl. reflexivity.
    + apply pystr_eqb_neq in E.
      destruct (pystr_eqb (c_key c) k) eqn:E'; [|reflexivity].
      apply pystr_eqb_eq in E'. congruence.
  - cbn [add_candidate]. unfold entries_with_key in *.
    cbn [filter fst] in Hone.
    destruct (pystr_eqb k' (c_key c)) eqn:Ekc.
    + apply pystr_eqb_eq in Ekc. subst k'. cbn [filter fst].
      destruct (pystr_eqb (c_key c) k) eqn:Ek.
      * apply pystr_eqb_eq in Ek. subst k. rewrite pystr_eqb_refl. cbn [snd].
        destruct Hone as [Hone|[g Hone]]; [discriminate|].
        injection Hone as _ Hrest. rewrite Hrest. reflexivity.
      * apply pystr_eqb_neq in Ek.
        destruct (pystr_eqb k (c_key c)) eqn:Ek'; [|reflexivity].
        apply pystr_eqb_eq in Ek'. congruence.
    + cbn [filter fst]. destruct (pystr_eqb k' k) eqn:Ek.
      * apply pystr_eqb_eq in Ek. subst k'. rewrite Ekc.
        destruct Hone as [Hone|[g Hone]]; [discriminate|].
        injection Hone as _ Hrest.
        rewrite IH by (left; exact Hrest). rewrite Ekc, Hrest. reflexivity.
      * rewrite IH by exact Hone. reflexivity.
Qed.

Lemma fold_add_candidate_entries (k : pystr) (cs : list Candidate) :
  entries_with_key k (fold_left add_candidate cs [])
  = match group_of (filter (fun c => pystr_eqb (c_key c) k) cs) with
    | None => []
    | Some g => [(k, g)]
    end.
Proof.
  induction cs as [|c cs IH] using rev_ind; [reflexivity|].
  rewrite fold_left_app, filter_app. cbn [fold_left filter].
  rewrite add_candidate_entries.
  2:{ rewrite IH. destruct (group_of _); eauto. }
  rewrite IH.
  destruct (pystr_eqb k (c_key c)) eqn:E.
  - apply pystr_eqb_eq in E. subst k. rewrite pystr_eqb_refl.
    destruct (filter _ cs) as [|c0 rest]; cbn [group_of app]; [reflexivity|].
    cbn [snd]. rewrite fold_left_app. reflexivity.
  - apply pystr_eqb_neq in E.
    destruct (pystr_eqb (c_key c) k) eqn:E'.
    + apply pystr_eqb_eq in E'. congruence.
    + rewrite app_nil_r. reflexivity.
Qed.

Lemma add_candidate_titles (gs : groups) (c : Candidate) :
  c_key c = title_key (c_title c) ->
  Forall (fun kg => title_key (g_title (snd kg)) = fst kg) gs ->
  Forall (fun kg => title_key (g_title (snd kg)) = fst kg) (add_candidate gs c).
Proof.
  intros Hc Hgs. induction Hgs as [|[k g] gs Hg Hgs IH]; cbn [add_candidate].
  - repeat constructor. cbn. now rewrite Hc.
  - destruct (pystr_eqb k (c_key c)); constructor; assumption.
Qed.

Lemma fold_add_candidate_titles (cs : list Candidate) :
  Forall (fun c => c_key c = title_key (c_title c)) cs ->
  Forall (fun kg => title_key (g_title (snd kg)) = fst kg)
         (fold_left add_candidate cs []).
Proof.
  induction cs as [|c cs IH] using rev_ind; intros H; [constructor|].
  apply Forall_app in H as [H1 H2]. inversion H2; subst.
  rewrite fold_left_app. cbn [fold_left]. apply add_candidate_titles; auto.
Qed.

Lemma sections_with_key_groups (k : pystr) (gs : groups) :
  Forall (fun kg => title_key (g_title (snd kg)) = fst kg) gs ->
  sections_with_key k (map (fun kg => section_of_group (snd kg)) gs)
  = map (fun kg => section_of_group (snd kg)) (entries_with_key k gs).
Proof.
  unfold sections_with_key, entries_with_key.
  induction 1 as [|[k' g] gs Hg Hgs IH]; [reflexivity|].
  cbn [map filter]. cbn [snd fst title section_of_group] in *.
  rewrite Hg, IH. destruct (pystr_eqb k' k); reflexivity.
Qed.

Lemma insert_sorted_filter_out (P : Section -> bool) (x : Section) (l : list Section) :
  P x = false -> filter P (insert_sorted x l) = filter P l.
Proof.
  intros Hx. induction l as [|y l IH]; cbn [insert_sorted filter].
  - now rewrite Hx.
  - destruct (key_le x y); cbn [filter].
    + now rewrite Hx.
    + now rewrite IH.
Qed.

Lemma insert_sorted_filter_in (P : Section -> bool) (x : Section) (l : list Section) :
  P x = true -> filter P l = [] -> filter P (insert_sorted x l) = [x].
Proof.
  intros Hx. induction l as [|y l IH]; cbn [insert_sorted filter]; intros Hl.
  - now rewrite Hx.
  - destruct (P y) eqn:Hy; [discriminate|].
    destruct (key_le x y); cbn [filter].
    + now rewrite Hx, Hy, Hl.
    + rewrite Hy. now apply IH.
Qed.

(** Sorting keeps a filter that selects nothing, or one section. *)
Lemma sort_sections_filter (P : Section -> bool) (l : list Section) :
  (filter P l = [] -> filter P (sort_sections l) = [])
  /\ (forall s, filter P l = [s] -> filter P (sort_sections l) = [s]).
Proof.
  induction l as [|y l [IH0 IH1]]; [split; intros; assumption|].
  cbn [sort_sections filter].
  destruct (P y) eqn:Hy; split.
  - discriminate.
  - intros s H. injection H as -> H. apply insert_sorted_filter_in; auto.
  - intros H. rewrite insert_sorted_filter_out by exact Hy. auto.
  - intros s H. rewrite insert_sorted_filter_out by exact Hy. auto.
Qed.

Lemma fold_merge_group_spec :
  forall (rest : list Candidate) (g : Group),
    let g' := fold_left merge_group rest g in
    g_title g' = g_title g
    /\ is_min (g_start_page g') (g_start_page g :: map c_sp rest)
    /\ is_max (g_end_page g') (g_end_page g :: map c_ep rest)
    /\ g_summaries g' = g_summaries g ++ filter nonempty (map c_summary rest).
Proof.
  induction rest as [|c rest IH]; intros g; cbn zeta; cbn [fold_left map filter].
  - unfold is_min, is_max. rewrite app_nil_r.
    repeat split; try (now left); intros x [<-|[]]; lia.
  - specialize (IH (merge_group g c)). cbn zeta in IH.
    destruct IH as (Ht & [Hmin1 Hmin2] & [Hmax1 Hmax2] & Hs).
    cbn [merge_group g_title g_start_page g_end_page g_summaries map] in *.
    split; [exact Ht|]. unfold is_min, is_max. repeat split.
    + destruct Hmin1 as [H|H]; [|now right; right].
      rewrite <- H. destruct (Z.min_spec (g_start_page g) (c_sp c)) as [[_ ->]|[_ ->]];
        [now left | now right; left].
    + intros x Hx.
      pose proof (Hmin2 (Z.min (g_start_page g) (c_sp c)) (or_introl eq_refl)) as Hm.
      destruct Hx as [<-|[<-|Hx]]; try lia. apply Hmin2. now right.
    + destruct Hmax1 as [H|H]; [|now right; right].
      rewrite <- H. destruct (Z.max_spec (g_end_page g) (c_ep c)) as [[_ ->]|[_ ->]];
        [now right; left | now left].
    + intros x Hx.
      pose proof (Hmax2 (Z.max (g_end_page g) (c_ep c)) (or_introl eq_refl)) as Hm.
      destruct Hx as [<-|[<-|Hx]]; try lia. apply Hmax2. now right.
    + rewrite Hs. destruct (nonempty (c_summary c)); [|reflexivity].
      rewrite <- app_assoc. reflexivity.
Qed.

Lemma group_of_spec (cs : list Candidate) (c0 : Candidate) :
  In c0 cs ->
  exists g first rest,
    group_of cs = Some g /\ cs = first :: rest
    /\ g_title g = c_title first
    /\ is_min (g_start_page g) (map c_sp cs)
    /\ is_max (g_end_page g) (map c_ep cs)
    /\ g_summaries g = filter nonempty (map c_summary cs).
Proof.
  destruct cs as [|first rest]; [intros []|]. intros _.
  exists (fold_left merge_group rest (new_group first)), first, rest.
  destruct (fold_merge_group_spec rest (new_group first)) as (Ht & Hmin & Hmax & Hs).
  cbn [new_group g_title g_start_page g_end_page g_summaries] in *.
  repeat split; try assumption; try apply Hmin; try apply Hmax.
  rewrite Hs. cbn [map filter]. destruct (nonempty (c_summary first)); reflexivity.
Qed.

(** C5 (amended): for every pair of kept candidates (dicts whose trimmed
    title is not empty) with the same grouping key, [merged], as it stands
    after the sort and before the overlap pass, holds exactly one section
    of that key; its [start_page] is the least and its [end_page] the
    greatest of the normalised pages of the candidates of that key, and
    its summary is the first 1200 characters of their non-empty summaries
    joined by single spaces. *)
Theorem merge_stage_unions_equal_titles
  (repr_other : pyval -> pystr) (items : list pyval) (c1 c2 : Candidate) :
  In c1 (candidates repr_other items) ->
  In c2 (candidates repr_other items) ->
  c_key c1 = c_key c2 ->
  exists s,
    sections_with_key (c_key c1) (merged_sections repr_other items) = [s]
    /\ is_min (start_page s) (map c_sp (members repr_other items (c_key c1)))
    /\ is_max (end_page s) (map c_ep (members repr_other items (c_key c1)))
    /\ summary s
       = slice (join [SP] (filter nonempty
                  (map c_summary (members repr_other items (c_key c1))))) 0 1200
    /\ start_page s <= Z.min (c_sp c1) (c_sp c2)
    /\ Z.max (c_ep c1) (c_ep c2) <= end_page s.
Proof.
  intros H1 H2 Hk.
  set (k := c_key c1) in *. set (ms := members repr_other items k).
  assert (Hm1 : In c1 ms).
  { unfold ms, members. apply filter_In. split; [exact H1|]. apply pystr_eqb_refl. }
  assert (Hm2 : In c2 ms).
  { unfold ms, members. apply filter_In. split; [exact H2|].
    rewrite <- Hk. apply pystr_eqb_refl. }
  destruct (group_of_spec ms c1 Hm1)
    as (g & first & rest & Hg & _ & _ & Hmin & Hmax & Hsum).
  exists (section_of_group g).
  cbn [section_of_group start_page end_page summary].
  split; [|split; [exact Hmin|split; [exact Hmax|split]]].
  - unfold merged_sections.
    apply (proj2 (sort_sections_filter _ _)).
    fold (sections_with_key k
            (map (fun kg => section_of_group (snd kg)) (build_groups repr_other items))).
    rewrite build_groups_candidates.
    rewrite sections_with_key_groups
      by (apply fold_add_candidate_titles, candidates_key).
    rewrite fold_add_candidate_entries.
    fold (members repr_other items k). fold ms. rewrite Hg. reflexivity.
  - now rewrite Hsum.
  - destruct Hmin as [_ Hmin]. destruct Hmax as [_ Hmax].
    pose proof (Hmin _ (in_map c_sp _ _ Hm1)).
    pose proof (Hmin _ (in_map c_sp _ _ Hm2)).
    pose proof (Hmax _ (in_map c_ep _ _ Hm1)).
    pose proof (Hmax _ (in_map c_ep _ _ Hm2)).
    lia.
Qed.

Lemma merge_stage_unions_equal_titles_witness :
  exists s,
    sections_with_key (c_key cand_B) (merged_sections no_repr overlap_items) = [s]
    /\ is_min (start_page s) (map c_sp (members no_repr overlap_items (c_key cand_B)))
    /\ is_max (end_page s) (map c_ep (members no_repr overlap_items (c_key cand_B)))
    /\ summary s
       = slice (join [SP] (filter nonempty
                  (map c_summary (members no_repr overlap_items (c_key cand_B))))) 0 1200
    /\ start_page s <= Z.min (c_sp cand_B) (c_sp cand_b)
    /\ Z.max (c_ep cand_B) (c_ep cand_b) <= end_page s.
Proof.
  apply (merge_stage_unions_equal_titles no_repr overlap_items cand_B cand_b).
  - right. left. reflexivity.
  - right. right. left. reflexivity.
  - reflexivity.
Defined.

(** C5 (as stated) fails on the output of the reconciler.  The candidates
    "B" on pages 2..3 and " b " on pages 3..4 have the same key, least
    start 2 and greatest end 4, but next to a section "A" on pages 1..5
    the overlap pass leaves their section on pages 6..6.  And two
    candidates whose titles are both empty after trimming have equal keys
    and yield no section at all. *)
Lemma merged_span_moved_or_dropped :
  _reconcile_sections no_repr overlap_items
  = [ {| title := lit "A"; start_page := 1; end_page := 5; summary := lit "s" |};
      {| title := lit "B"; start_page := 6; end_page := 6; summary := lit "x y" |} ]
  /\ _reconcile_sections no_repr untitled_items = [].
Proof. split; vm_compute; reflexivity. Qed.

(** ** The cleaner *)

Lemma is_roman_cases (c : ascii) :
  is_roman c = true -> is_space c = false /\ is_digit c = false.
Proof.
  unfold is_roman. cbn [lit list_ascii_of_string existsb].
  rewrite !orb_true_iff, !ascii_eqb_eq.
  intros H. repeat (destruct H as [H|H]; [subst c; split; reflexivity|]).
  discriminate.
Qed.

Lemma take_while_all (f : ascii -> bool) (s : pystr) :
  forallb f s = true -> take_while f s = s /\ drop_while f s = [].
Proof.
  induction s as [|c s IH]; cbn [forallb take_while drop_while]; [auto|].
  intros H. apply andb_prop in H as [Hc Hs]. rewrite Hc.
  destruct (IH Hs) as [-> ->]. auto.
Qed.

Lemma page_num_match_roman (s : pystr) :
  nonempty s = true -> forallb is_roman s = true -> page_num_match s = true.
Proof.
  intros Hne Hall. destruct s as [|c s]; [discriminate|].
  pose proof Hall as Hall'. cbn [forallb] in Hall'.
  apply andb_prop in Hall' as [Hc _].
  destruct (is_roman_cases c Hc) as [Hsp Hdg].
  assert (Hd : drop_while is_space (c :: s) = c :: s)
    by (cbn [drop_while]; now rewrite Hsp).
  assert (Ht : take_while is_digit (c :: s) = [])
    by (cbn [take_while]; now rewrite Hdg).
  unfold page_num_match. rewrite Hd, Ht. cbn [nonempty].
  destruct (take_while_all is_roman (c :: s) Hall) as [-> ->].
  reflexivity.
Qed.

(** The letters of the claim are the class of the pattern. *)
Lemma roman_letter_in_class (c : ascii) :
  existsb (ascii_eqb (lower_char c)) (lit "ivxlcdm") = true -> is_roman c = true.
Proof.
  destruct c as [[] [] [] [] [] [] [] []]; vm_compute; intros H;
    first [reflexivity | discriminate H].
Qed.

Lemma keeps_line_roman (header_re footer_re : option regex) (ln : pystr) :
  roman_letters_only ln = true -> keeps_line header_re footer_re ln = false.
Proof.
  unfold roman_letters_only, keeps_line. intros H.
  apply andb_prop in H as [Hne Hall].
  rewrite Hne. cbn [negb].
  destruct (searches header_re (strip ln)); [reflexivity|].
  destruct (searches footer_re (strip ln)); [reflexivity|].
  rewrite page_num_match_roman; [reflexivity|exact Hne|].
  apply forallb_forall. intros c Hc. apply roman_letter_in_class.
  rewrite forallb_forall in Hall. now apply Hall.
Qed.

(** The words of the claim: a page with the lines "intro", "mix",
    " Civil ", "did", "mild" and "outro" comes back as "intro" and
    "outro". *)
Lemma cleaner_deletes_plain_words :
  remove_headers_footers_and_numbers no_re_compile [words_page] no_patterns
  = Ok [ {| page_num := 1; text := join [NL] [lit "intro"; lit "outro"] |} ].
Proof. vm_compute. reflexivity. Qed.

(** ** The JSON extractor *)

(** C4: [parse_json_str] hands the whole stripped response to the
    balanced-delimiter scan, not the contents of the fence.  On the
    response of the spec's example the first balanced value is the object
    of the fence, and that is what [json.loads] receives; after prose
    that holds a bracket, [json.loads] receives the bracket of the prose,
    [[1]]; and a response with six backticks in a row raises
    [IndexError]. *)
Theorem parse_json_str_scans_whole_response (json_loads : pystr -> result pyval) :
  parse_json_str json_loads fenced_response = json_loads json_a1
  /\ parse_json_str json_loads cited_response = json_loads (lit "[1]")
  /\ parse_json_str json_loads empty_fence_response = Raise IndexError.
Proof.
  split; [|split]; unfold parse_json_str.
  - replace (fence_candidate (strip fenced_response)) with (Ok fenced_response)
      by (vm_compute; reflexivity).
    cbn [bind]. apply f_equal. vm_compute. reflexivity.
  - replace (fence_candidate (strip cited_response)) with (Ok cited_response)
      by (vm_compute; reflexivity).
    cbn [bind]. apply f_equal. vm_compute. reflexivity.
  - replace (fence_candidate (strip empty_fence_response))
      with (@Raise pystr IndexError) by (vm_compute; reflexivity).
    reflexivity.
Qed.

(** ** Stance records *)

Lemma dict_get_set (d : pydict) (k k' : pystr) (v : pyval) :
  dict_get (dict_set d k v) k'
  = if pystr_eqb k k' then Some v else dict_get d k'.
Proof.
  induction d as [|[k0 v0] d IH]; cbn [dict_set dict_get].
  - destruct (pystr_eqb k k'); reflexivity.
  - destruct (pystr_eqb k0 k) eqn:E0; cbn [dict_get].
    + apply pystr_eqb_eq in E0. subst k0.
      destruct (pystr_eqb k k'); reflexivity.
    + rewrite IH. destruct (pystr_eqb k0 k') eqn:E1; [|reflexivity].
      apply pystr_eqb_eq in E1. subst k0. apply pystr_eqb_neq in E0.
      destruct (pystr_eqb k k') eqn:E2; [|reflexivity].
      apply pystr_eqb_eq in E2. congruence.
Qed.

Lemma dict_get_setdefault_other (d : pydict) (k k' : pystr) (v : pyval) :
  pystr_eqb k k' = false ->
  dict_get (dict_setdefault d k v) k' = dict_get d k'.
Proof.
  intros H. unfold dict_setdefault. destruct (dict_get d k); [reflexivity|].
  now rewrite dict_get_set, H.
Qed.

Lemma dict_get_fill_category (d : pydict) (k k' : pystr) :
  dict_get (fill_category d k) k'
  = if pystr_eqb k k' then Some (filled (dict_get d k)) else dict_get d k'.
Proof.
  unfold fill_category.
  destruct (pystr_eqb k k') eqn:E.
  - apply pystr_eqb_eq in E. subst k'.
    destruct (dict_get d k) as [[| | | | |l|]|] eqn:G; cbn [filled];
      rewrite ?dict_get_set, ?pystr_eqb_refl; auto.
  - destruct (dict_get d k) as [[| | | | |l|]|] eqn:G;
      rewrite ?dict_get_set, ?E; reflexivity.
Qed.

Ltac eval_key_tests :=
  repeat match goal with
         | |- context [pystr_eqb (lit ?a) (lit ?b)] =>
             let v := eval vm_compute in (pystr_eqb (lit a) (lit b)) in
             change (pystr_eqb (lit a) (lit b)) with v
         end.

Lemma fill_stance_categories (section_title : pystr) (d d' : pydict) :
  fill_stance section_title (PDict d) = Ok d' ->
  forall k, In k stance_keys -> dict_get d' k = Some (filled (dict_get d k)).
Proof.
  unfold fill_stance. intros H. injection H as <-.
  intros k Hk. unfold stance_keys in *. cbn [fold_left In] in *.
  destruct Hk as [<-|[<-|[<-|[<-|[]]]]];
    rewrite !dict_get_setdefault_other by (vm_compute; reflexivity);
    rewrite !dict_get_fill_category; eval_key_tests; reflexivity.
Qed.

Lemma filled_is_list (o : option pyval) : exists l, filled o = PList l.
Proof. destruct o as [[| | | | |l|]|]; cbn; eauto. Qed.

Lemma stance_fallback_categories (section_title : pystr) :
  forall k, In k stance_keys ->
    dict_get (stance_fallback section_title) k = Some (PList []).
Proof.
  intros k Hk. unfold stance_keys in Hk. cbn [In] in Hk.
  destruct Hk as [<-|[<-|[<-|[<-|[]]]]]; reflexivity.
Qed.

(** C7: for every response string (and whatever [json.loads] does with
    it), [ai_analyse_stance] returns a dict in which each of the keys
    hedges, boosters, attitude_markers and self_mentions is bound to a
    list.  When the response parses to an object, a category that is
    there as a list is kept, and one that is missing or not a list is the
    empty list.  When it does not parse to an object (the parse raised,
    or gave another kind of value), the four categories are empty and the
    summary is "Parsing failed". *)
Theorem stance_record_has_four_lists
  (json_loads : pystr -> result pyval) (section_title out : pystr) :
  let r := ai_analyse_stance json_loads section_title out in
  (forall k, In k stance_keys -> exists l, dict_get r k = Some (PList l))
  /\ (forall d, parse_json_str json_loads out = Ok (PDict d) ->
        forall k, In k stance_keys ->
          dict_get r k = Some (filled (dict_get d k)))
  /\ ((forall d, parse_json_str json_loads out <> Ok (PDict d)) ->
        r = stance_fallback section_title
        /\ (forall k, In k stance_keys -> dict_get r k = Some (PList []))
        /\ dict_get r (lit "summary") = Some (PStr (lit "Parsing failed"))).
Proof.
  cbn zeta. unfold ai_analyse_stance.
  destruct (parse_json_str json_loads out) as [data|e] eqn:Hparse; cbn [bind].
  - destruct data as [| | | | | |d]; cbn [fill_stance];
      try (split; [intros k Hk; rewrite stance_fallback_categories by exact Hk; eauto
                  |split; [intros d Hd; discriminate
                          |intros _; split; [reflexivity
                            |split; [apply stance_fallback_categories|reflexivity]]]]).
    pose proof (fill_stance_categories section_title d _ eq_refl) as Hcat.
    cbn [fill_stance] in Hcat.
    split; [|split].
    + intros k Hk. rewrite (Hcat k Hk).
      destruct (filled_is_list (dict_get d k)) as [l ->]. eauto.
    + intros d0 Hd0. injection Hd0 as <-. exact Hcat.
    + intros Hno. exfalso. now apply (Hno d).
  - split; [|split].
    + intros k Hk. rewrite stance_fallback_categories by exact Hk. eauto.
    + intros d Hd. discriminate.
    + intros _. split; [reflexivity|].
      split; [apply stance_fallback_categories|reflexivity].
Qed.

(** ** The boilerplate detector *)

Lemma counter_incr_get (c : counter) (k k' : pystr) :
  counter_get (counter_incr c k) k'
  = counter_get c k' + (if pystr_eqb k k' then 1 else 0).
Proof.
  induction c as [|[k0 n] c IH]; cbn [counter_incr counter_get].
  - destruct (pystr_eqb k k'); reflexivity.
  - destruct (pystr_eqb k0 k) eqn:E0; cbn [counter_get].
    + apply pystr_eqb_eq in E0. subst k0.
      destruct (pystr_eqb k k'); lia.
    + rewrite IH. destruct (pystr_eqb k0 k') eqn:E1; [|reflexivity].
      apply pystr_eqb_eq in E1. subst k0. apply pystr_eqb_neq in E0.
      destruct (pystr_eqb k k') eqn:E2; [|lia].
      apply pystr_eqb_eq in E2. congruence.
Qed.

Lemma counter_incr_keys (c : counter) (k : pystr) :
  (In k (map fst c) /\ map fst (counter_incr c k) = map fst c)
  \/ (~ In k (map fst c) /\ map fst (counter_incr c k) = map fst c ++ [k]).
Proof.
  induction c as [|[k0 n] c IH]; cbn [counter_incr map fst].
  - right. split; [intros []|reflexivity].
  - destruct (pystr_eqb k0 k) eqn:E0; cbn [map fst].
    + apply pystr_eqb_eq in E0. subst k0. left. split; [now left|reflexivity].
    + apply pystr_eqb_neq in E0. destruct IH as [[Hin Heq]|[Hin Heq]].
      * left. split; [now right|]. now rewrite Heq.
      * right. split; [|cbn; now rewrite Heq].
        intros [H|H]; [congruence|contradiction].
Qed.

Lemma tally_get (l : list pystr) :
  forall (c : counter) (k : pystr),
    counter_get (tally l c) k = counter_get c k + count k l.
Proof.
  unfold tally. induction l as [|x l IH]; intros c k; cbn [fold_left count]; [lia|].
  rewrite IH, counter_incr_get. lia.
Qed.

Lemma tally_keys (l : list pystr) :
  forall c : counter,
    NoDup (map fst c) ->
    NoDup (map fst (tally l c))
    /\ (exists ext, map fst (tally l c) = map fst c ++ ext
                    /\ forall t, In t ext -> In t l)
    /\ (forall t, In t l -> In t (map fst (tally l c))).
Proof.
  unfold tally. induction l as [|x l IH]; intros c Hnd; cbn [fold_left].
  - split; [exact Hnd|]. split; [|intros t []].
    exists []. rewrite app_nil_r. split; [reflexivity|intros t []].
  - assert (Hnd' : NoDup (map fst (counter_incr c x))).
    { destruct (counter_incr_keys c x) as [[_ ->]|[Hin ->]]; [exact Hnd|].
      apply NoDup_app; [exact Hnd|repeat constructor; intros []|].
      intros t Ht [<-|[]]. contradiction. }
    destruct (IH _ Hnd') as (H1 & (ext & Hext & Hsub) & H3).
    split; [exact H1|]. split.
    + destruct (counter_incr_keys c x) as [[_ Hk]|[_ Hk]]; rewrite Hk in Hext.
      * exists ext. split; [exact Hext|]. intros t Ht. right. now apply Hsub.
      * exists (x :: ext). rewrite <- app_assoc in Hext. split; [exact Hext|].
        intros t [<-|Ht]; [now left|right; now apply Hsub].
    + intros t [<-|Ht]; [|now apply H3].
      rewrite Hext. apply in_or_app. left.
      destruct (counter_incr_keys c x) as [[Hin ->]|[_ ->]]; [exact Hin|].
      apply in_or_app. right. now left.
Qed.

Lemma counter_get_NoDup (c : counter) (k : pystr) (n : Z) :
  NoDup (map fst c) -> In (k, n) c -> counter_get c k = n.
Proof.
  induction c as [|[k0 m] c IH]; intros Hnd Hin; [destruct Hin|].
  cbn [map fst] in Hnd. inversion Hnd as [|? ? Hnotin Hnd']; subst.
  cbn [counter_get]. destruct Hin as [Heq|Hin].
  - injection Heq as -> ->. now rewrite pystr_eqb_refl.
  - destruct (pystr_eqb k0 k) eqn:E.
    + apply pystr_eqb_eq in E. subst k0. exfalso. apply Hnotin.
      change k with (fst (k, n)). now apply in_map.
    + now apply IH.
Qed.

Lemma first_max_spec :
  forall (c : counter) (best : pystr * Z),
    let r := first_max best c in
    (forall kv, In kv (best :: c) -> snd kv <= snd r)
    /\ exists c1 c2,
         best :: c = c1 ++ r :: c2
         /\ forall kv, In kv c1 -> snd kv < snd r.
Proof.
  induction c as [|kv c IH]; intros best; cbn zeta; cbn [first_max].
  - split.
    + intros kv [<-|[]]. lia.
    + exists [], []. split; [reflexivity|intros kv []].
  - destruct (Z.ltb_spec (snd best) (snd kv)) as [Hlt|Hge].
    + specialize (IH kv). cbn zeta in IH. destruct IH as (Hall & c1 & c2 & Heq & Hless).
      pose proof (Hall kv (or_introl eq_refl)) as Hkv.
      split.
      * intros x [<-|Hx]; [lia|now apply Hall].
      * exists (best :: c1), c2. split; [cbn [app]; f_equal; exact Heq|].
        intros x [<-|Hx]; [lia|now apply Hless].
    + specialize (IH best). cbn zeta in IH. destruct IH as (Hall & c1 & c2 & Heq & Hless).
      pose proof (Hall best (or_introl eq_refl)) as Hb.
      split.
      * intros x [<-|[<-|Hx]]; [lia|lia|apply Hall; now right].
      * destruct c1 as [|b c1].
        -- cbn [app] in Heq. injection Heq as Hr Hc. exists [], (kv :: c).
           split; [cbn [app]; f_equal; exact Hr|intros x []].
        -- cbn [app] in Heq. injection Heq as Hb' Hc. subst b.
           exists (best :: kv :: c1), c2. split; [cbn [app]; do 2 f_equal; exact Hc|].
           pose proof (Hless best (or_introl eq_refl)) as Hbl.
           intros x [<-|[<-|Hx]]; [exact Hbl|lia|apply Hless; now right].
Qed.

Lemma first_occurrence_split (h : pystr) (l : list pystr) :
  In h l -> exists pre post, l = pre ++ h :: post /\ ~ In h pre.
Proof.
  induction l as [|x l IH]; intros Hin; [destruct Hin|].
  destruct (pystr_eqb x h) eqn:E.
  - apply pystr_eqb_eq in E. subst x. exists [], l. split; [reflexivity|intros []].
  - apply pystr_eqb_neq in E. destruct Hin as [Hx|Hin]; [contradiction|].
    destruct (IH Hin) as (pre & post & -> & Hnot).
    exists (x :: pre), post. split; [reflexivity|].
    intros [H|H]; [contradiction|contradiction].
Qed.

Lemma app_split_before {A} (h : A) :
  forall (a l1 l2 b : list A),
    l1 ++ h :: l2 = a ++ b -> ~ In h a -> exists b', l1 = a ++ b'.
Proof.
  induction a as [|x a IH]; intros l1 l2 b Heq Hnot.
  - exists l1. reflexivity.
  - destruct l1 as [|y l1]; cbn [app] in Heq.
    + injection Heq as -> _. exfalso. apply Hnot. now left.
    + injection Heq as -> Heq.
      destruct (IH l1 l2 b Heq) as [b' ->]; [intros H; apply Hnot; now right|].
      exists b'. reflexivity.
Qed.

(** The key that [most_common(1)] yields on the tally of a non-empty list
    is its most frequent element, the first-encountered one on a tie. *)
Lemma top_key_tally (l : list pystr) :
  l <> [] -> most_frequent_first (top_key (tally l [])) l.
Proof.
  intros Hne.
  destruct (tally_keys l [] (NoDup_nil _)) as (Hnd & _ & Hin).
  pose proof (fun k => tally_get l [] k) as Hget. cbn [counter_get] in Hget.
  set (c := tally l []) in *.
  destruct c as [|kv0 c'] eqn:Hc.
  { destruct l as [|x l]; [congruence|]. destruct (Hin x (or_introl eq_refl)). }
  unfold top_key, most_common_1. cbn [fst].
  destruct (first_max_spec c' kv0) as (Hall & c1 & c2 & Heq & Hless).
  cbn zeta in *. set (r := first_max kv0 c') in *.
  destruct r as [h n] eqn:Hr. cbn [fst snd] in *.
  assert (Hrin : In (h, n) (kv0 :: c')) by (rewrite Heq; apply in_or_app; right; now left).
  assert (Hcount : forall t m, In (t, m) (kv0 :: c') -> count t l = m).
  { intros t m Htm. rewrite <- (counter_get_NoDup _ t m Hnd Htm). rewrite Hget. lia. }
  assert (Hkeys : forall t, In t l -> exists m, In (t, m) (kv0 :: c')).
  { intros t Ht. specialize (Hin t Ht). apply in_map_iff in Hin as ([t' m] & Hfst & Hin).
    cbn in Hfst. subst t'. eauto. }
  assert (Hh : count h l = n) by now apply Hcount.
  assert (Hhl : In h l).
  { destruct (tally_keys l [] (NoDup_nil _)) as (_ & (ext & Hext & Hsub) & _).
    apply Hsub. cbn [map app] in Hext. rewrite <- Hext. fold c. rewrite Hc.
    change h with (fst (h, n)). now apply in_map. }
  destruct (first_occurrence_split h l Hhl) as (pre & post & Hl & Hnot).
  exists pre, post. split; [exact Hl|]. split; [exact Hnot|]. split.
  - intros t Ht. destruct (Hkeys t Ht) as [m Hm].
    rewrite (Hcount t m Hm), Hh. exact (Hall (t, m) Hm).
  - intros t Ht.
    assert (Htl : In t l) by (rewrite Hl; apply in_or_app; now left).
    (* the keys of the tally of [pre] come first among the keys *)
    destruct (tally_keys pre [] (NoDup_nil _)) as (_ & (ext0 & Hext0 & Hsub0) & Hin0).
    cbn [map app] in Hext0.
    destruct (tally_keys (h :: post) (tally pre []) ltac:(
                destruct (tally_keys pre [] (NoDup_nil _)) as (H & _); exact H))
      as (_ & (ext1 & Hext1 & _) & _).
    assert (Hfold : tally (h :: post) (tally pre []) = kv0 :: c').
    { rewrite <- Hc. unfold c, tally. rewrite Hl, fold_left_app. reflexivity. }
    rewrite Hfold, Heq, map_app in Hext1. cbn [map fst] in Hext1.
    destruct (app_split_before h (map fst (tally pre [])) (map fst c1) (map fst c2) ext1 Hext1)
      as [b' Hb'].
    { rewrite Hext0. intros H. apply Hnot. now apply Hsub0. }
    assert (Htc1 : In t (map fst c1)).
    { rewrite Hb'. apply in_or_app. left. now apply Hin0. }
    apply in_map_iff in Htc1 as ([t' m] & Hfst & Htm). cbn in Hfst. subst t'.
    assert (Htm' : In (t, m) (kv0 :: c')) by (rewrite Heq; apply in_or_app; now left).
    rewrite (Hcount t m Htm'), Hh. exact (Hless (t, m) Htm).
Qed.

Lemma tally_pages_split (tn bn : Z) (pages : list PageText) :
  forall c1 c2 : counter,
    fold_left (tally_page tn bn) pages (c1, c2)
    = (tally (top_signatures tn bn pages) c1,
       tally (bottom_signatures tn bn pages) c2).
Proof.
  unfold tally, top_signatures, bottom_signatures.
  induction pages as [|p pages IH]; intros c1 c2; cbn [fold_left flat_map]; [reflexivity|].
  rewrite !fold_left_app. unfold tally_page at 2. cbn [fst snd].
  destruct (page_signatures tn bn p) as [[top bot]|]; [|apply IH].
  rewrite IH. destruct (nonempty top), (nonempty bot); reflexivity.
Qed.

Lemma page_signatures_spec (tn bn : Z) (p : PageText) :
  0 <= tn -> 1 <= bn ->
  page_signatures tn bn p
  = match nonblank_lines (text p) with
    | [] => None
    | _ :: _ =>
        Some (spec_top_signature (Z.to_nat tn) p,
              if bn <=? Z.of_nat (List.length (nonblank_lines (text p)))
              then spec_bottom_signature (Z.to_nat bn) p
              else [])
    end.
Proof.
  intros Htn Hbn. unfold page_signatures, spec_top_signature, spec_bottom_signature.
  set (lines := nonblank_lines (text p)).
  destruct lines as [|l0 lines'] eqn:E; [reflexivity|]. rewrite <- E.
  f_equal. f_equal.
  - unfold take_to. rewrite norm_index_nonneg by lia. f_equal.
    destruct (Z.le_ge_cases tn (Z.of_nat (List.length lines))) as [H|H].
    + rewrite Z.min_r by lia. reflexivity.
    + rewrite Z.min_l by lia. rewrite Nat2Z.id.
      rewrite !firstn_all2; [reflexivity|lia|lia].
  - destruct (Z.leb_spec bn (Z.of_nat (List.length lines))) as [H|H]; [|reflexivity].
    unfold drop_from, norm_index.
    destruct (Z.ltb_spec (- bn) 0) as [_|Hc]; [|lia].
    do 2 f_equal. lia.
Qed.

(** C9 (amended): the header candidate is the most frequent non-empty top
    signature and the footer candidate the most frequent non-empty bottom
    signature, the first-encountered one on a tie, and the empty string
    when no page has such a signature; the top signature of a page is its
    first N non-blank lines joined by a space, and only a page with at
    least N non-blank lines has a bottom signature, its last N non-blank
    lines joined by a space.  Each returned pattern is the [re.escape] of
    its candidate. *)
Theorem boilerplate_candidates_most_frequent
  (pages : list PageText) (top_n_lines bottom_n_lines : Z) :
  let tops := top_signatures top_n_lines bottom_n_lines pages in
  let bots := bottom_signatures top_n_lines bottom_n_lines pages in
  let h := header_candidate top_n_lines bottom_n_lines pages in
  let f := footer_candidate top_n_lines bottom_n_lines pages in
  (tops = [] -> h = [])
  /\ (tops <> [] -> most_frequent_first h tops)
  /\ (bots = [] -> f = [])
  /\ (bots <> [] -> most_frequent_first f bots)
  /\ detect_repeated_headers_footers pages top_n_lines bottom_n_lines
     = {| header := re_escape h; footer := re_escape f |}
  /\ (0 <= top_n_lines -> 1 <= bottom_n_lines ->
      forall p,
        page_signatures top_n_lines bottom_n_lines p
        = match nonblank_lines (text p) with
          | [] => None
          | _ :: _ =>
              Some (spec_top_signature (Z.to_nat top_n_lines) p,
                    if bottom_n_lines <=? Z.of_nat (List.length (nonblank_lines (text p)))
                    then spec_bottom_signature (Z.to_nat bottom_n_lines) p
                    else [])
          end).
Proof.
  cbn zeta. unfold detect_repeated_headers_footers, header_candidate, footer_candidate,
    tally_pages.
  rewrite tally_pages_split. cbn [fst snd].
  split; [intros ->; reflexivity|].
  split; [apply top_key_tally|].
  split; [intros ->; reflexivity|].
  split; [apply top_key_tally|].
  split.
  - f_equal.
    + destruct (top_key _); reflexivity.
    + destruct (top_key _); reflexivity.
  - intros H1 H2 p. now apply page_signatures_spec.
Qed.

(** C9 (as stated) fails for the footer.  Of two pages with the single
    line "Title" and one page with the lines "a" and "b", the last two
    non-blank lines joined by a space are "Title", "Title" and "a b"; the
    most frequent of these is "Title", but with N = 2 the footer candidate
    is "a b": the one-line pages have no bottom signature. *)
Lemma footer_candidate_skips_short_pages :
  map (spec_bottom_signature 2) short_pages = [lit "Title"; lit "Title"; lit "a b"]
  /\ count (lit "Title") (map (spec_bottom_signature 2) short_pages) = 2
  /\ count (lit "a b") (map (spec_bottom_signature 2) short_pages) = 1
  /\ footer_candidate 2 2 short_pages = lit "a b"
  /\ footer (detect_repeated_headers_footers short_pages 2 2) = re_escape (lit "a b").
Proof. repeat split; vm_compute; reflexivity. Qed.

(** ** Decimal numbers *)

Lemma digit_char_spec (d : Z) :
  0 <= d <= 9 ->
  is_digit (digit_char d) = true /\ digit_val (digit_char d) = d.
Proof.
  intros H.
  assert (Hd : d = 0 \/ d = 1 \/ d = 2 \/ d = 3 \/ d = 4 \/ d = 5 \/ d = 6
               \/ d = 7 \/ d = 8 \/ d = 9) by lia.
  repeat (destruct Hd as [->|Hd]; [split; reflexivity|]).
  subst d. split; reflexivity.
Qed.

Lemma digits_go_spec :
  forall (fuel : nat) (n : Z) (acc : pystr),
    0 <= n < 2 ^ Z.of_nat fuel ->
    exists ds,
      digits_go fuel n acc = ds ++ acc
      /\ forallb is_digit ds = true
      /\ (fuel <> O -> ds <> [])
      /\ digits_value ds = n.
Proof.
  induction fuel as [|fuel IH]; intros n acc Hn.
  - exists []. cbn in Hn. assert (n = 0) by lia. subst n.
    repeat split; try reflexivity. congruence.
  - cbn [digits_go]. cbn zeta.
    assert (Hmod : 0 <= n mod 10 <= 9) by (pose proof (Z.mod_pos_bound n 10); lia).
    destruct (digit_char_spec (n mod 10) Hmod) as [Hd Hv].
    destruct (Z.ltb_spec n 10) as [Hlt|Hge].
    + exists [digit_char (n mod 10)]. cbn [app forallb]. rewrite Hd.
      repeat split; try reflexivity; try congruence.
      unfold digits_value. cbn [fold_left]. rewrite Hv, Z.mod_small; lia.
    + assert (Hdiv : 0 <= n / 10 < 2 ^ Z.of_nat fuel).
      { split; [apply Z.div_pos; lia|].
        rewrite Nat2Z.inj_succ, Z.pow_succ_r in Hn by lia.
        apply Z.div_lt_upper_bound; lia. }
      destruct (IH (n / 10) (digit_char (n mod 10) :: acc) Hdiv)
        as (ds & Heq & Hall & _ & Hval).
      exists (ds ++ [digit_char (n mod 10)]). rewrite Heq, <- app_assoc.
      split; [reflexivity|]. split.
      * rewrite forallb_app, Hall. cbn. now rewrite Hd.
      * split; [intros _ H; now destruct ds|].
        unfold digits_value in *. rewrite fold_left_app. cbn [fold_left].
        rewrite Hval, Hv. pose proof (Z.div_mod n 10). lia.
Qed.

Lemma str_of_int_spec (n : Z) :
  0 <= n ->
  forallb is_digit (str_of_int n) = true
  /\ str_of_int n <> []
  /\ digits_value (str_of_int n) = n.
Proof.
  intros Hn. unfold str_of_int. destruct (Z.ltb_spec n 0) as [H|_]; [lia|].
  destruct (digits_go_spec (S (Z.to_nat (Z.log2 n))) n []) as (ds & Heq & Hall & Hne & Hv).
  - split; [lia|]. rewrite Nat2Z.inj_succ, Z2Nat.id by apply Z.log2_nonneg.
    destruct (Z.eq_dec n 0) as [->|Hz]; [cbn; lia|].
    apply Z.log2_spec. lia.
  - rewrite Heq, app_nil_r. auto.
Qed.

Lemma parse_digits_all (ds : pystr) :
  forallb is_digit ds = true ->
  forall (acc : Z) (prev : bool),
    (ds <> [] \/ prev = true) ->
    parse_digits ds acc prev
    = Ok (fold_left (fun a c => a * 10 + digit_val c) ds acc).
Proof.
  induction ds as [|c ds IH]; intros Hall acc prev Hne.
  - destruct Hne as [H | ->]; [congruence|reflexivity].
  - cbn [forallb] in Hall. apply andb_prop in Hall as [Hc Hall].
    cbn [parse_digits fold_left]. rewrite Hc. apply IH; auto.
Qed.

Lemma is_digit_not_int_space (c : ascii) :
  is_digit c = true -> is_int_space c = false.
Proof.
  unfold is_digit, is_int_space. intros H.
  apply andb_prop in H as [H1 H2]. apply Z.leb_le in H1, H2.
  repeat match goal with
         | |- context [?a <=? ?b] => destruct (Z.leb_spec a b); try lia
         | |- context [?a =? ?b] => destruct (Z.eqb_spec a b); try lia
         end; reflexivity.
Qed.

Lemma is_digit_not_space (c : ascii) : is_digit c = true -> is_space c = false.
Proof.
  unfold is_digit, is_space. intros H.
  apply andb_prop in H as [H1 H2]. apply Z.leb_le in H1, H2.
  repeat match goal with
         | |- context [?a <=? ?b] => destruct (Z.leb_spec a b); try lia
         | |- context [?a =? ?b] => destruct (Z.eqb_spec a b); try lia
         end; reflexivity.
Qed.

Lemma lstrip_int_digit (ds : pystr) :
  forallb is_digit ds = true -> lstrip_int ds = ds.
Proof.
  destruct ds as [|c ds]; [reflexivity|]. cbn [forallb lstrip_int].
  intros H. apply andb_prop in H as [Hc _].
  now rewrite (is_digit_not_int_space c Hc).
Qed.

Lemma forallb_rev {A} (f : A -> bool) (l : list A) :
  forallb f (rev l) = forallb f l.
Proof.
  induction l as [|x l IH]; [reflexivity|].
  cbn [rev forallb]. rewrite forallb_app, IH. cbn. rewrite andb_true_r.
  apply andb_comm.
Qed.

Lemma digits_go_length :
  forall (fuel : nat) (n : Z) (acc : pystr) (k : nat),
    0 <= n < 10 ^ Z.of_nat k -> (1 <= k)%nat ->
    (List.length (digits_go fuel n acc) <= k + List.length acc)%nat.
Proof.
  induction fuel as [|fuel IH]; intros n acc k Hn Hk; cbn [digits_go]; [lia|].
  cbn zeta. destruct (Z.ltb_spec n 10) as [Hlt|Hge]; [cbn [List.length]; lia|].
  destruct k as [|[|k]]; [lia|cbn in Hn; lia|].
  assert (Hdiv : 0 <= n / 10 < 10 ^ Z.of_nat (S k)).
  { split; [apply Z.div_pos; lia|].
    rewrite (Nat2Z.inj_succ (S k)), Z.pow_succ_r in Hn by lia.
    apply Z.div_lt_upper_bound; lia. }
  specialize (IH (n / 10) (digit_char (n mod 10) :: acc) (S k) Hdiv ltac:(lia)).
  cbn [List.length] in IH. lia.
Qed.

(** A number below [10^4300] is written with at most 4300 digits. *)
Lemma str_of_int_length (n : Z) :
  0 <= n < 10 ^ int_max_str_digits ->
  len (str_of_int n) <= int_max_str_digits.
Proof.
  intros Hn. unfold str_of_int. destruct (Z.ltb_spec n 0) as [H|_]; [lia|].
  pose proof (digits_go_length (S (Z.to_nat (Z.log2 n))) n []
                (Z.to_nat int_max_str_digits)) as H.
  rewrite Z2Nat.id in H by (unfold int_max_str_digits; lia).
  specialize (H Hn ltac:(unfold int_max_str_digits; lia)).
  cbn [List.length] in H. unfold len. unfold int_max_str_digits in *. lia.
Qed.

Lemma filter_all {A} (f : A -> bool) (l : list A) :
  forallb f l = true -> filter f l = l.
Proof.
  induction l as [|x l IH]; [reflexivity|]. cbn [forallb filter].
  intros H. apply andb_prop in H as [-> H]. now rewrite IH.
Qed.

(** [int(str(n))] for a non-negative [n]: [n] when it is written within
    the digit limit, [ValueError] otherwise. *)
Lemma int_of_str_of_int_limit (n : Z) :
  0 <= n ->
  int_of_str (str_of_int n)
  = if len (str_of_int n) <=? int_max_str_digits then Ok n else Raise ValueError.
Proof.
  intros Hn. destruct (str_of_int_spec n Hn) as (Hall & Hne & Hv).
  unfold int_of_str. rewrite (lstrip_int_digit _ Hall).
  rewrite lstrip_int_digit by (now rewrite forallb_rev).
  rewrite rev_involutive. cbn zeta. rewrite (filter_all _ _ Hall).
  fold (len (str_of_int n)). rewrite Z.ltb_antisym.
  destruct (len (str_of_int n) <=? int_max_str_digits); cbn [negb]; [|reflexivity].
  destruct (str_of_int n) as [|c ds] eqn:E; [congruence|].
  pose proof Hall as Hall'. cbn [forallb] in Hall'. apply andb_prop in Hall' as [Hc _].
  assert (Hm : ascii_eqb c "-"%char = false).
  { destruct (ascii_eqb c "-"%char) eqn:Em; [|reflexivity].
    apply ascii_eqb_eq in Em. subst c. discriminate. }
  assert (Hp : ascii_eqb c "+"%char = false).
  { destruct (ascii_eqb c "+"%char) eqn:Em; [|reflexivity].
    apply ascii_eqb_eq in Em. subst c. discriminate. }
  rewrite Hm, Hp. rewrite parse_digits_all; [|exact Hall|left; congruence].
  f_equal. exact Hv.
Qed.


(** ** Splitting a combined text at its page markers *)

Lemma take_while_app (f : ascii -> bool) (x y : pystr) :
  take_while f (x ++ y)
  = if forallb f x then x ++ take_while f y else take_while f x.
Proof.
  induction x as [|c x IH]; cbn [app take_while forallb]; [reflexivity|].
  destruct (f c); cbn [andb]; [|reflexivity].
  rewrite IH. destruct (forallb f x); reflexivity.
Qed.

Lemma drop_while_app (f : ascii -> bool) (x y : pystr) :
  drop_while f (x ++ y)
  = if forallb f x then drop_while f y else drop_while f x ++ y.
Proof.
  induction x as [|c x IH]; cbn [app drop_while forallb]; [reflexivity|].
  destruct (f c); cbn [andb]; [|reflexivity].
  exact IH.
Qed.

Lemma starts_with_app (p : pystr) :
  forall s r : pystr,
    ~ In NL p -> (r = [] \/ exists r', r = NL :: r') ->
    starts_with p (s ++ r) = starts_with p s.
Proof.
  induction p as [|x p IH]; intros s r Hnl Hr; [destruct s; reflexivity|].
  destruct s as [|y s]; cbn [app starts_with].
  - destruct Hr as [->|[r' ->]]; [reflexivity|]. cbn [starts_with].
    destruct (ascii_eqb x NL) eqn:E; [|reflexivity].
    apply ascii_eqb_eq in E. subst x. exfalso. apply Hnl. now left.
  - rewrite IH; [reflexivity| |exact Hr]. intros H. apply Hnl. now right.
Qed.

Lemma starts_with_split (p s : pystr) :
  starts_with p s = true -> s = p ++ skipn (List.length p) s.
Proof.
  revert s. induction p as [|x p IH]; intros s H; [reflexivity|].
  destruct s as [|y s]; [discriminate|]. cbn [starts_with] in H.
  apply andb_prop in H as [Hxy H]. apply ascii_eqb_eq in Hxy. subst y.
  cbn [app List.length skipn]. f_equal. now apply IH.
Qed.

Lemma follows_page_head (r : pystr) :
  follows_page r -> r = [] \/ exists r', r = NL :: r'.
Proof. intros [->|[r' ->]]; eauto. Qed.

Lemma follows_page_runs (r : pystr) :
  follows_page r ->
  take_while is_digit r = [] /\ drop_while is_digit r = r
  /\ take_while is_digit (drop_while is_space r) = []
  /\ starts_with (lit ">>") r = false.
Proof. intros [->|[r' ->]]; repeat split; reflexivity. Qed.

(** A text in which the pattern does not match at the head does not match
    at the head either when it is followed by the rest of a combined
    text. *)
Lemma match_marker_followed (s r : pystr) :
  follows_page r -> match_marker s = None -> match_marker (s ++ r) = None.
Proof.
  intros Hr Hs. unfold match_marker in *.
  rewrite starts_with_app; [|cbn; intuition discriminate|now apply follows_page_head].
  destruct (starts_with (lit "<<PAGE") s) eqn:Epre; [|reflexivity].
  apply starts_with_split in Epre. cbn [lit list_ascii_of_string List.length] in Epre.
  set (s1 := skipn 6 s) in *.
  assert (Hskip : skipn 6 (s ++ r) = s1 ++ r).
  { rewrite Epre at 1. reflexivity. }
  rewrite Hskip. clear Hskip Epre.
  destruct (follows_page_runs r Hr) as (Hr1 & Hr2 & Hr3 & Hr4).
  rewrite take_while_app, drop_while_app.
  destruct (forallb is_space s1) eqn:Ews.
  - rewrite Hr3. cbn [nonempty]. rewrite andb_false_r. reflexivity.
  - rewrite take_while_app, drop_while_app.
    destruct (forallb is_digit (drop_while is_space s1)) eqn:Eds.
    + rewrite Hr1, Hr2, Hr4, app_nil_r, andb_false_r. reflexivity.
    + rewrite starts_with_app;
        [|cbn; intuition discriminate|now apply follows_page_head].
      exact Hs.
Qed.

Lemma split_go_skip (pre : pystr) :
  forall (x cur : pystr),
    split_go (pre ++ x) (List.length pre) cur = split_go x O cur.
Proof.
  induction pre as [|c pre IH]; intros x cur; [reflexivity|].
  cbn [app List.length split_go]. apply IH.
Qed.

(** The split runs through a text without a marker. *)
Lemma split_go_plain (t : pystr) :
  forall (r cur : pystr),
    has_marker t = false -> follows_page r ->
    split_go (t ++ r) O cur = split_go r O (rev t ++ cur).
Proof.
  induction t as [|c t IH]; intros r cur Hm Hr; [reflexivity|].
  cbn [has_marker] in Hm.
  destruct (match_marker (c :: t)) eqn:E; [discriminate|].
  cbn [app split_go].
  change (c :: t ++ r) with ((c :: t) ++ r).
  rewrite (match_marker_followed (c :: t) r Hr E).
  rewrite (IH r (c :: cur) Hm Hr). cbn [rev]. now rewrite <- app_assoc.
Qed.

(** The pattern matches a marker of the combiner, and only in one way. *)
Lemma match_marker_block (ds x : pystr) :
  forallb is_digit ds = true -> ds <> [] ->
  match_marker (lit "<<PAGE " ++ ds ++ lit ">>" ++ x)
  = Some (ds, List.length (lit "<<PAGE " ++ ds ++ lit ">>")).
Proof.
  intros Hall Hne. unfold match_marker.
  change (lit "<<PAGE " ++ ds ++ lit ">>" ++ x)
    with (lit "<<PAGE" ++ SP :: ds ++ lit ">>" ++ x).
  assert (Hsw : starts_with (lit "<<PAGE") (lit "<<PAGE" ++ SP :: ds ++ lit ">>" ++ x) = true)
    by reflexivity.
  rewrite Hsw.
  change (skipn 6 (lit "<<PAGE" ++ SP :: ds ++ lit ">>" ++ x))
    with (SP :: ds ++ lit ">>" ++ x).
  destruct ds as [|d ds]; [congruence|].
  pose proof Hall as Hall'. cbn [forallb] in Hall'. apply andb_prop in Hall' as [Hd _].
  assert (Hws : take_while is_space (SP :: (d :: ds) ++ lit ">>" ++ x) = [SP]).
  { cbn [take_while app]. change (is_space SP) with true. cbv iota.
    now rewrite (is_digit_not_space d Hd). }
  assert (Hdw : drop_while is_space (SP :: (d :: ds) ++ lit ">>" ++ x)
                = (d :: ds) ++ lit ">>" ++ x).
  { cbn [drop_while app]. change (is_space SP) with true. cbv iota.
    now rewrite (is_digit_not_space d Hd). }
  rewrite Hws, Hdw, take_while_app, drop_while_app, Hall.
  change (take_while is_digit (lit ">>" ++ x)) with (@nil ascii).
  change (drop_while is_digit (lit ">>" ++ x)) with (lit ">>" ++ x).
  rewrite app_nil_r.
  change (starts_with (lit ">>") (lit ">>" ++ x)) with true.
  cbn [nonempty andb]. f_equal. f_equal.
  rewrite !length_app. cbn [lit list_ascii_of_string List.length]. lia.
Qed.

Lemma split_go_block (ds x cur : pystr) :
  forallb is_digit ds = true -> ds <> [] ->
  split_go (lit "<<PAGE " ++ ds ++ lit ">>" ++ x) O cur
  = rev cur :: ds :: split_go x O [].
Proof.
  intros Hall Hne.
  pose proof (match_marker_block ds x Hall Hne) as Hm.
  remember (lit "<<PAGE " ++ ds ++ lit ">>" ++ x) as s eqn:Es.
  destruct s as [|c s]; [discriminate|].
  cbn [split_go]. rewrite Hm. do 2 f_equal.
  assert (Hs : s = tl (lit "<<PAGE " ++ ds ++ lit ">>") ++ x).
  { change (lit "<<PAGE " ++ ds ++ lit ">>" ++ x)
      with ("<"%char :: (lit "<PAGE " ++ ds ++ lit ">>" ++ x)) in Es.
    injection Es as _ ->. cbn [tl lit list_ascii_of_string app].
    now rewrite <- !app_assoc. }
  rewrite Hs.
  replace (List.length (lit "<<PAGE " ++ ds ++ lit ">>") - 1)%nat
    with (List.length (tl (lit "<<PAGE " ++ ds ++ lit ">>")))
    by (cbn [lit list_ascii_of_string app tl List.length]; lia).
  apply split_go_skip.
Qed.

(** ** The round trip of combiner and slicer *)

Lemma lstrip_all_space (w : pystr) : forallb is_space w = true -> lstrip w = [].
Proof.
  induction w as [|c w IH]; [reflexivity|]. cbn [forallb lstrip].
  intros H. apply andb_prop in H as [-> H]. auto.
Qed.

Lemma lstrip_app (t w : pystr) :
  lstrip (t ++ w) = if forallb is_space t then lstrip w else lstrip t ++ w.
Proof.
  induction t as [|c t IH]; cbn [app lstrip forallb]; [reflexivity|].
  destruct (is_space c); cbn [andb]; [exact IH|reflexivity].
Qed.

Lemma rstrip_app_space (x w : pystr) :
  forallb is_space w = true -> rstrip (x ++ w) = rstrip x.
Proof.
  intros Hw. unfold rstrip. rewrite rev_app_distr, lstrip_app, forallb_rev, Hw.
  reflexivity.
Qed.

Lemma strip_padded (w1 t w2 : pystr) :
  forallb is_space w1 = true -> forallb is_space w2 = true ->
  strip (w1 ++ t ++ w2) = strip t.
Proof.
  intros H1 H2. unfold strip. rewrite lstrip_app, H1, lstrip_app.
  destruct (forallb is_space t) eqn:Et.
  - rewrite (lstrip_all_space w2 H2), (lstrip_all_space t Et). reflexivity.
  - now apply rstrip_app_space.
Qed.

Lemma combine_pages_cons (p q : PageText) (ps : list PageText) :
  combine_pages (p :: q :: ps)
  = page_block p ++ [NL; NL] ++ combine_pages (q :: ps).
Proof. reflexivity. Qed.

Lemma combine_pages_head (q : PageText) (ps : list PageText) :
  exists r, combine_pages (q :: ps) = "<"%char :: r.
Proof.
  destruct ps as [|q' ps].
  - eexists. reflexivity.
  - rewrite combine_pages_cons. eexists. reflexivity.
Qed.

Lemma split_go_line_feed (x cur : pystr) :
  split_go (NL :: x) O cur = split_go x O (NL :: cur).
Proof. reflexivity. Qed.

Lemma split_combined (pages : list PageText) :
  (forall p, In p pages -> 0 <= page_num p /\ has_marker (text p) = false) ->
  forall cur, split_go (combine_pages pages) O cur = rev cur :: parts_of pages.
Proof.
  induction pages as [|p ps IH]; intros Hok cur; [reflexivity|].
  destruct (Hok p (or_introl eq_refl)) as [Hnum Hplain].
  destruct (str_of_int_spec (page_num p) Hnum) as (Hall & Hne & _).
  assert (Hrest : forall q, In q ps -> 0 <= page_num q /\ has_marker (text q) = false)
    by (intros q Hq; apply Hok; now right).
  destruct ps as [|q ps].
  - change (combine_pages [p])
      with (lit "<<PAGE " ++ str_of_int (page_num p) ++ lit ">>" ++ NL :: text p).
    rewrite (split_go_block _ _ _ Hall Hne), split_go_line_feed.
    rewrite <- (app_nil_r (text p)) at 1.
    rewrite (split_go_plain (text p) [] [NL] Hplain (or_introl eq_refl)).
    cbn [split_go parts_of]. rewrite rev_app_distr, rev_involutive, app_nil_r.
    reflexivity.
  - rewrite combine_pages_cons. unfold page_block.
    replace ((lit "<<PAGE " ++ str_of_int (page_num p) ++ lit ">>" ++ [NL] ++ text p)
             ++ [NL; NL] ++ combine_pages (q :: ps))
      with (lit "<<PAGE " ++ str_of_int (page_num p) ++ lit ">>"
            ++ NL :: (text p ++ NL :: NL :: combine_pages (q :: ps)))
      by (rewrite <- !app_assoc; reflexivity).
    rewrite (split_go_block _ _ _ Hall Hne), split_go_line_feed.
    destruct (combine_pages_head q ps) as [r Hr].
    rewrite (split_go_plain (text p) _ [NL] Hplain)
      by (right; exists r; now rewrite Hr).
    rewrite !split_go_line_feed, (IH Hrest).
    cbn [parts_of rev]. rewrite !rev_app_distr, rev_involutive.
    cbn [rev app]. rewrite <- !app_assoc. reflexivity.
Qed.

Lemma slice_loop_parts (a b : Z) (pages : list PageText) :
  (forall p, In p pages -> 0 <= page_num p) ->
  slice_loop (parts_of pages) a b
  = map (fun p => strip (text p))
        (pages_in_range a b (filter within_digit_limit pages)).
Proof.
  induction pages as [|p ps IH]; intros Hok; [reflexivity|].
  cbn [parts_of slice_loop filter].
  rewrite (int_of_str_of_int_limit _ (Hok p (or_introl eq_refl))).
  rewrite IH by (intros q Hq; apply Hok; now right).
  fold (within_digit_limit p).
  destruct (within_digit_limit p); [|reflexivity].
  cbn [pages_in_range filter].
  fold (pages_in_range a b (filter within_digit_limit ps)).
  destruct ((a <=? page_num p) && (page_num p <=? b)); [|reflexivity].
  cbn [map]. f_equal. apply strip_padded; [reflexivity|].
  destruct ps; reflexivity.
Qed.

Lemma within_digit_limit_all (pages : list PageText) :
  (forall p, In p pages -> 0 <= page_num p < 10 ^ int_max_str_digits) ->
  filter within_digit_limit pages = pages.
Proof.
  intros H. apply filter_all, forallb_forall. intros p Hp.
  apply Z.leb_le, str_of_int_length, H, Hp.
Qed.

(** C2: for every list of pages whose numbers are not negative (1-based
    numbers are not) and whose texts do not contain the page-marker
    pattern, and for every [a] and [b], slicing the combined text for
    [a .. b] gives the trimmed texts of the pages numbered [a .. b], in
    order, joined by a blank line: of all those pages when the numbers
    are below [10 ^ 4300], and in general of those whose number [int]
    reads back, the ones written with at most 4300 digits.  (The pages
    need not be in ascending order and [a .. b] need not lie in the page
    range for this.) *)
Theorem combine_slice_round_trip (pages : list PageText) (a b : Z) :
  (forall p, In p pages -> 0 <= page_num p /\ has_marker (text p) = false) ->
  slice_pages_text (combine_pages pages) a b
  = join [NL; NL]
      (map (fun p => strip (text p))
           (pages_in_range a b (filter within_digit_limit pages)))
  /\ ((forall p, In p pages -> page_num p < 10 ^ int_max_str_digits) ->
      slice_pages_text (combine_pages pages) a b
      = join [NL; NL] (map (fun p => strip (text p)) (pages_in_range a b pages))).
Proof.
  intros Hok.
  assert (H : slice_pages_text (combine_pages pages) a b
              = join [NL; NL]
                  (map (fun p => strip (text p))
                       (pages_in_range a b (filter within_digit_limit pages)))).
  { unfold slice_pages_text, re_split_marker.
    rewrite (split_combined pages Hok). cbn [tl].
    rewrite slice_loop_parts; [reflexivity|].
    intros p Hp. now apply Hok. }
  split; [exact H|]. intros Hlim. rewrite H, within_digit_limit_all; [reflexivity|].
  intros p Hp. split; [now apply Hok|now apply Hlim].
Qed.

Lemma combine_slice_round_trip_witness :
  slice_pages_text (combine_pages sample_pages) 2 3
  = join [NL; NL]
      (map (fun p => strip (text p))
           (pages_in_range 2 3 (filter within_digit_limit sample_pages)))
  /\ ((forall p, In p sample_pages -> page_num p < 10 ^ int_max_str_digits) ->
      slice_pages_text (combine_pages sample_pages) 2 3
      = join [NL; NL]
          (map (fun p => strip (text p)) (pages_in_range 2 3 sample_pages))).
Proof.
  apply (combine_slice_round_trip sample_pages 2 3).
  intros p [<-|[<-|[<-|[]]]]; split; solve [cbn; lia | reflexivity].
Defined.

(** The slice of the example, evaluated. *)
Lemma combine_slice_sample :
  slice_pages_text (combine_pages sample_pages) 2 3
  = lit "Second <<PAGE two>> page" ++ [NL; NL] ++ lit "Third".
Proof. vm_compute. reflexivity. Qed.

(** ** The page-marker pattern, declaratively *)

Lemma take_drop_while (f : ascii -> bool) (s : pystr) :
  take_while f s ++ drop_while f s = s /\ forallb f (take_while f s) = true.
Proof.
  induction s as [|c s [IH1 IH2]]; [split; reflexivity|].
  cbn [take_while drop_while]. destruct (f c) eqn:E; [|split; reflexivity].
  cbn [app forallb]. rewrite IH1, E, IH2. split; reflexivity.
Qed.

Lemma nonempty_true_iff (s : pystr) : nonempty s = true <-> s <> [].
Proof. destruct s; cbn; split; congruence. Qed.

(** [match_marker] accepts exactly the strings that begin with a match of
    [<<PAGE\s+(\d+)>>], and returns the group of that match: the literal,
    a non-empty run of white space, a non-empty run of digits, [>>]. *)
Lemma match_marker_iff (s ds : pystr) (n : nat) :
  match_marker s = Some (ds, n)
  <-> exists ws rest,
        s = lit "<<PAGE" ++ ws ++ ds ++ lit ">>" ++ rest
        /\ ws <> [] /\ forallb is_space ws = true
        /\ ds <> [] /\ forallb is_digit ds = true
        /\ n = List.length (lit "<<PAGE" ++ ws ++ ds ++ lit ">>").
Proof.
  split.
  - unfold match_marker. destruct (starts_with (lit "<<PAGE") s) eqn:Epre; [|discriminate].
    apply starts_with_split in Epre. cbn [lit list_ascii_of_string List.length] in Epre.
    set (s1 := skipn 6 s) in *.
    destruct (take_drop_while is_space s1) as [Hs1 Hws].
    destruct (take_drop_while is_digit (drop_while is_space s1)) as [Hs2 Hds].
    set (ws := take_while is_space s1) in *.
    set (s2 := drop_while is_space s1) in *.
    set (ds' := take_while is_digit s2) in *.
    set (s3 := drop_while is_digit s2) in *.
    destruct (nonempty ws) eqn:Ews; [|discriminate].
    destruct (nonempty ds') eqn:Eds; [|discriminate].
    destruct (starts_with (lit ">>") s3) eqn:Eend; [|discriminate].
    cbn [andb]. intros H. injection H as <- <-.
    apply starts_with_split in Eend. cbn [lit list_ascii_of_string List.length] in Eend.
    exists ws, (skipn 2 s3).
    split.
    { rewrite Epre at 1. f_equal. rewrite <- Hs1 at 1. f_equal.
      rewrite <- Hs2 at 1. f_equal. exact Eend. }
    split; [now apply nonempty_true_iff|]. split; [exact Hws|].
    split; [now apply nonempty_true_iff|]. split; [exact Hds|].
    rewrite !length_app. cbn [lit list_ascii_of_string List.length]. lia.
  - intros (ws & rest & -> & Hwne & Hws & Hdne & Hds & ->).
    unfold match_marker.
    assert (Hsw : starts_with (lit "<<PAGE") (lit "<<PAGE" ++ ws ++ ds ++ lit ">>" ++ rest) = true)
      by reflexivity.
    rewrite Hsw.
    change (skipn 6 (lit "<<PAGE" ++ ws ++ ds ++ lit ">>" ++ rest))
      with (ws ++ ds ++ lit ">>" ++ rest).
    destruct ds as [|d ds]; [congruence|].
    pose proof Hds as Hds'. cbn [forallb] in Hds'. apply andb_prop in Hds' as [Hd _].
    rewrite take_while_app, drop_while_app, Hws.
    assert (Ht : take_while is_space ((d :: ds) ++ lit ">>" ++ rest) = [])
      by (cbn [app take_while]; now rewrite (is_digit_not_space d Hd)).
    assert (Hdr : drop_while is_space ((d :: ds) ++ lit ">>" ++ rest)
                  = (d :: ds) ++ lit ">>" ++ rest)
      by (cbn [app drop_while]; now rewrite (is_digit_not_space d Hd)).
    rewrite Ht, Hdr, app_nil_r, take_while_app, drop_while_app, Hds.
    change (take_while is_digit (lit ">>" ++ rest)) with (@nil ascii).
    change (drop_while is_digit (lit ">>" ++ rest)) with (lit ">>" ++ rest).
    rewrite app_nil_r.
    change (starts_with (lit ">>") (lit ">>" ++ rest)) with true.
    destruct ws as [|w ws]; [congruence|]. cbn [nonempty andb].
    f_equal. f_equal. rewrite !length_app.
    cbn [lit list_ascii_of_string List.length]. lia.
Qed.

(** ** What the fenced block of the examples holds *)

(** The contents of the fence of the response that cites "[1]" are the
    object, and the scan of those contents alone would find it. *)
Lemma fence_contents_of_cited_response :
  spec_fence_contents cited_response = Some (json_a1 ++ [NL])
  /\ json_fragment (json_a1 ++ [NL]) = json_a1
  /\ json_fragment cited_response = lit "[1]".
Proof. split; [|split]; vm_compute; reflexivity. Qed.

(** ** The reconciler: what a valid integer is *)

Lemma lstrip_int_drop_while (s : pystr) : lstrip_int s = drop_while is_int_space s.
Proof.
  induction s as [|c s IH]; [reflexivity|]. cbn [lstrip_int drop_while].
  now rewrite IH.
Qed.

Lemma digit_not_underscore (c : ascii) :
  is_digit c = true -> ascii_eqb c "_"%char = false.
Proof.
  intros H. destruct (ascii_eqb c "_"%char) eqn:E; [|reflexivity].
  apply ascii_eqb_eq in E. subst c. discriminate.
Qed.

Lemma nonempty_rev (s : pystr) : nonempty (rev s) = nonempty s.
Proof.
  destruct s as [|c s]; [reflexivity|]. cbn [rev nonempty].
  destruct (rev s); reflexivity.
Qed.

(** A group that holds something else than a digit spoils the numeral. *)
Lemma underscore_groups_spoilt (s : pystr) :
  forall cur,
    forallb is_digit cur = false ->
    forallb (fun g => nonempty g && forallb is_digit g) (underscore_groups s cur)
    = false.
Proof.
  induction s as [|c s IH]; intros cur H; cbn [underscore_groups forallb].
  - now rewrite forallb_rev, H, andb_false_r.
  - destruct (ascii_eqb c "_"%char).
    + cbn [forallb]. now rewrite forallb_rev, H, andb_false_r.
    + apply IH. cbn [forallb]. now rewrite H, andb_false_r.
Qed.

(** The scan of the source accepts the numerals, and reads their value. *)
Lemma parse_digits_groups (s : pystr) :
  forall (cur : pystr) (acc : Z) (prev : bool),
    forallb is_digit cur = true -> prev = nonempty cur ->
    parse_digits s acc prev
    = if forallb (fun g => nonempty g && forallb is_digit g)
                 (underscore_groups s cur)
      then Ok (fold_left (fun a c => a * 10 + digit_val c) (filter is_digit s) acc)
      else Raise ValueError.
Proof.
  induction s as [|c s IH]; intros cur acc prev Hcur Hprev;
    cbn [parse_digits underscore_groups filter].
  - cbn [forallb fold_left]. rewrite nonempty_rev, forallb_rev, Hcur, <- Hprev.
    now rewrite !andb_true_r.
  - destruct (is_digit c) eqn:Ed.
    + rewrite (digit_not_underscore c Ed). cbn [fold_left].
      apply IH; [cbn [forallb]; now rewrite Ed, Hcur|reflexivity].
    + destruct (ascii_eqb c "_"%char) eqn:Eu; cbn [andb].
      * cbn [forallb]. rewrite nonempty_rev, forallb_rev, Hcur, <- Hprev.
        rewrite andb_true_r. destruct prev; cbn [andb]; [|reflexivity].
        apply IH; reflexivity.
      * rewrite underscore_groups_spoilt; [reflexivity|].
        cbn [forallb]. now rewrite Ed.
Qed.

Lemma parse_digits_numeral (s : pystr) :
  Z.of_nat (List.length (filter is_digit s)) <= int_max_str_digits ->
  parse_digits s 0 false
  = if is_numeral s then Ok (numeral_value s) else Raise ValueError.
Proof.
  intros Hlen. rewrite (parse_digits_groups s [] 0 false) by reflexivity.
  unfold is_numeral, numeral_value, digits_value.
  apply Z.leb_le in Hlen. rewrite Hlen, andb_true_r. reflexivity.
Qed.

Lemma is_numeral_within_limit (s : pystr) :
  int_max_str_digits < Z.of_nat (List.length (filter is_digit s)) ->
  is_numeral s = false.
Proof.
  intros H. unfold is_numeral. apply andb_false_iff. right.
  apply Z.leb_gt. exact H.
Qed.

(** [int(s)] converts exactly the strings that hold a numeral. *)
Lemma int_of_str_spec (s : pystr) :
  int_of_str s
  = match spec_int_of_str s with
    | Some z => Ok z
    | None => Raise ValueError
    end.
Proof.
  unfold int_of_str, spec_int_of_str. rewrite !lstrip_int_drop_while.
  set (body := rev (drop_while is_int_space (rev (drop_while is_int_space s)))).
  cbn zeta. destruct body as [|c rest]; [reflexivity|].
  assert (Hsign : forall sign, ascii_eqb c sign = true -> is_digit sign = false ->
            filter is_digit (c :: rest) = filter is_digit rest).
  { intros sign E Hs. apply ascii_eqb_eq in E. subst c. cbn [filter].
    now rewrite Hs. }
  destruct (Z.ltb_spec int_max_str_digits
              (Z.of_nat (List.length (filter is_digit (c :: rest))))) as [Hbig|Hok].
  - destruct (ascii_eqb c "-"%char) eqn:Em.
    { rewrite (Hsign _ Em eq_refl) in Hbig.
      now rewrite (is_numeral_within_limit rest Hbig). }
    destruct (ascii_eqb c "+"%char) eqn:Ep.
    { rewrite (Hsign _ Ep eq_refl) in Hbig.
      now rewrite (is_numeral_within_limit rest Hbig). }
    now rewrite (is_numeral_within_limit (c :: rest) Hbig).
  - destruct (ascii_eqb c "-"%char) eqn:Em.
    { rewrite (Hsign _ Em eq_refl) in Hok.
      rewrite (parse_digits_numeral rest Hok).
      destruct (is_numeral rest); reflexivity. }
    destruct (ascii_eqb c "+"%char) eqn:Ep.
    { rewrite (Hsign _ Ep eq_refl) in Hok.
      rewrite (parse_digits_numeral rest Hok).
      destruct (is_numeral rest); reflexivity. }
    rewrite (parse_digits_numeral (c :: rest) Hok).
    destruct (is_numeral (c :: rest)); reflexivity.
Qed.

(** [int(v)] converts exactly the values that stand for an integer. *)
Lemma py_int_spec (v : pyval) :
  match spec_integer v with
  | Some z => py_int v = Ok z
  | None => exists e, py_int v = Raise e
  end.
Proof.
  destruct v as [|b|z|f|s|l|d]; cbn [spec_integer py_int]; eauto.
  - destruct f as [m e|neg|]; cbn [int_of_float]; eauto.
    destruct (Z.leb_spec 0 e) as [He|He].
    + now rewrite Z.shiftl_mul_pow2.
    + rewrite Z.shiftl_mul_pow2 by lia. now rewrite Z.mul_1_l.
  - rewrite int_of_str_spec. destruct (spec_int_of_str s); eauto.
Qed.

Lemma int_field_spec (d : pydict) (k : pystr) (x : Z) :
  int_field d k x x = with_default x (spec_field d k).
Proof.
  unfold int_field, spec_field, dict_get_default, with_default.
  destruct (dict_get d k) as [v|]; [|reflexivity].
  pose proof (py_int_spec v) as H.
  destruct (spec_integer v); [now rewrite H|].
  destruct H as [e ->]. reflexivity.
Qed.

Lemma single_summary (s : pystr) :
  join [SP] (if nonempty s then [s] else []) = s.
Proof. destruct s; reflexivity. Qed.

(** C8: a candidate with a non-empty trimmed title is kept, and alone it
    comes out as one section with its trimmed title,
    [start_page = max(1, s)] and [end_page = max(start_page, e)], where
    [s] is the integer that its [start_page] stands for, or 1 when the
    field is absent or not a valid integer, and [e] is the integer that
    its [end_page] stands for, or [start_page] when that is absent or not
    valid; so [1 <= start_page <= end_page] (the code clamps, it never
    swaps).  A valid integer is an integer, a truth value, a finite float
    (cut toward zero) or a string with a decimal numeral of at most 4300
    digits.  An item that is not a dict, or whose trimmed title is empty,
    gives no section, and the output is the same as without it.  Two
    examples: a string [" 7 "] with an [end_page] of [null] gives pages
    7 to 7, and a [start_page] of 4301 digits falls back to 1. *)
Theorem reconciler_normalization (repr_other : pyval -> pystr) :
  (forall d, title_of repr_other d <> [] ->
     let sp := Z.max 1 (with_default 1 (spec_field d (lit "start_page"))) in
     let ep := Z.max sp (with_default sp (spec_field d (lit "end_page"))) in
     1 <= sp <= ep
     /\ normalize_candidate repr_other (PDict d)
        = Some {| c_title := title_of repr_other d;
                  c_key := title_key (title_of repr_other d);
                  c_sp := sp; c_ep := ep;
                  c_summary := summary_of repr_other d |}
     /\ _reconcile_sections repr_other [PDict d]
        = [ {| title := title_of repr_other d;
               start_page := sp; end_page := ep;
               summary := slice (summary_of repr_other d) 0 1200 |} ])
  /\ (forall it,
        (forall d, it = PDict d -> title_of repr_other d = []) ->
        _reconcile_sections repr_other [it] = []
        /\ forall l1 l2,
             _reconcile_sections repr_other (l1 ++ it :: l2)
             = _reconcile_sections repr_other (l1 ++ l2))
  /\ _reconcile_sections repr_other [string_pages_item]
     = [ {| title := lit "Results"; start_page := 7; end_page := 7;
            summary := lit "s" |} ]
  /\ _reconcile_sections repr_other [long_digits_item]
     = [ {| title := lit "T"; start_page := 1; end_page := 3; summary := [] |} ].
Proof.
  assert (Hkept : forall d, title_of repr_other d <> [] ->
            let sp := Z.max 1 (with_default 1 (spec_field d (lit "start_page"))) in
            let ep := Z.max sp (with_default sp (spec_field d (lit "end_page"))) in
            normalize_candidate repr_other (PDict d)
            = Some {| c_title := title_of repr_other d;
                      c_key := title_key (title_of repr_other d);
                      c_sp := sp; c_ep := ep;
                      c_summary := summary_of repr_other d |}).
  { intros d Ht. cbn zeta. unfold normalize_candidate.
    fold (title_of repr_other d) (summary_of repr_other d).
    destruct (nonempty (title_of repr_other d)) eqn:E.
    2:{ apply nonempty_false_iff in E. contradiction. }
    cbn [negb]. rewrite !int_field_spec. do 2 f_equal.
    destruct (spec_field d (lit "end_page")); cbn [with_default]; lia. }
  assert (Hdropped : forall it,
            (forall d, it = PDict d -> title_of repr_other d = []) ->
            normalize_candidate repr_other it = None).
  { intros it Hit. destruct it as [| | | | | |d]; try reflexivity.
    unfold normalize_candidate. fold (title_of repr_other d).
    now rewrite (Hit d eq_refl). }
  split; [|split; [|split]].
  - intros d Ht. cbn zeta. split; [|split].
    + destruct (spec_field d (lit "end_page")); cbn [with_default]; lia.
    + apply Hkept, Ht.
    + unfold _reconcile_sections, merged_sections, build_groups.
      cbn [fold_left]. unfold group_step. rewrite (Hkept d Ht). cbn zeta.
      cbn [add_candidate map snd sort_sections insert_sorted
           resolve_overlaps resolve_from].
      unfold section_of_group, new_group.
      cbn [g_title g_start_page g_end_page g_summaries
           c_title c_sp c_ep c_summary].
      now rewrite single_summary.
  - intros it Hit. pose proof (Hdropped it Hit) as Hn. split.
    + unfold _reconcile_sections, merged_sections, build_groups.
      cbn [fold_left]. unfold group_step. rewrite Hn. reflexivity.
    + intros l1 l2. unfold _reconcile_sections, merged_sections.
      now rewrite (group_step_skip repr_other it l1 l2 Hn).
  - vm_compute. reflexivity.
  - vm_compute. reflexivity.
Qed.

(* ================================================================== *)
(** * Further properties                                               *)
(* ================================================================== *)

(** ** The chunker: sizes and coverage *)

Lemma len_app (a b : pystr) : len (a ++ b) = len a + len b.
Proof. unfold len. rewrite length_app. lia. Qed.

Lemma len_slice (s : pystr) (a b : Z) :
  0 <= a <= b -> b <= len s -> len (slice s a b) = b - a.
Proof.
  intros Hab Hb. unfold slice.
  rewrite !norm_index_nonneg by lia. rewrite !Z.min_r by lia.
  unfold len in *. rewrite length_firstn, length_skipn. lia.
Qed.

Lemma char_at_slice (s : pystr) (a b i : Z) :
  0 <= a <= i -> i < b -> b <= len s ->
  char_at (slice s a b) (i - a) = char_at s i.
Proof.
  intros Ha Hi Hb. unfold char_at, slice.
  rewrite !norm_index_nonneg by lia. rewrite !Z.min_r by lia.
  rewrite nth_firstn.
  destruct (Nat.ltb_spec (Z.to_nat (i - a)) (Z.to_nat (b - a))) as [_|H]; [|lia].
  rewrite nth_skipn. f_equal. lia.
Qed.

Lemma slice_whole (s : pystr) : slice s 0 (len s) = s.
Proof.
  pose proof (len_nonneg s) as Hn. unfold slice.
  rewrite !norm_index_nonneg by lia.
  replace (Z.min (len s) 0) with 0 by lia.
  replace (Z.min (len s) (len s)) with (len s) by lia.
  cbn [Z.to_nat skipn]. rewrite Z.sub_0_r. unfold len. rewrite Nat2Z.id.
  apply firstn_all.
Qed.

Section ChunkerCoverage.
Variables (text : pystr) (target overlap thr : Z).
Hypothesis Hthr : int_of_0_3_times target = Ok thr.
Hypothesis Hov : 0 <= overlap <= thr.
Hypothesis Htar : thr < target.

Lemma chunk_loop_covers :
  forall (fuel : nat) (start : Z) (spans : list (Z * Z)),
    0 <= start ->
    chunk_loop fuel text target overlap start = Some (Ok spans) ->
    forall i, start <= i < len text ->
      exists sb, In sb spans /\ fst sb <= i < snd sb.
Proof.
  induction fuel as [|fuel IH]; intros start spans H0 Hrun i Hi; [discriminate|].
  rewrite (chunk_loop_step text target overlap thr Hthr) in Hrun.
  destruct (Z.ltb_spec start (len text)) as [Hlt|Hge]; [|lia].
  cbn zeta in Hrun.
  pose proof (chosen_boundary_spec text target overlap thr Hov Htar start ltac:(lia)) as Hok.
  unfold span_ok in Hok. cbn [fst snd] in Hok. cbn zeta in Hok.
  destruct Hok as (_ & Hb & _).
  set (b := chosen_boundary text target thr start) in *.
  destruct (Z.eqb_spec b (len text)) as [Hbn|Hbn].
  - injection Hrun as <-. exists (start, b). split; [now left|cbn; lia].
  - destruct (chunk_loop fuel text target overlap (Z.max 0 (b - overlap)))
      as [[rest|e]|] eqn:E; try discriminate.
    injection Hrun as <-.
    destruct (Z_lt_ge_dec i b) as [Hib|Hib].
    + exists (start, b). split; [now left|cbn; lia].
    + destruct (IH (Z.max 0 (b - overlap)) rest ltac:(lia) E i ltac:(lia))
        as (sb & Hin & Hsb).
      exists sb. split; [now right|exact Hsb].
Qed.

(** With no paragraph break beyond the threshold and a text that fits the
    window, the first turn of the loop takes the whole text. *)
Lemma chunk_loop_single (fuel : nat) :
  0 < len text <= target ->
  (forall j, thr < j -> is_break text j = false) ->
  chunk_loop (S fuel) text target overlap 0 = Some (Ok [(0, len text)]).
Proof.
  intros Hn Hnb. rewrite (chunk_loop_step text target overlap thr Hthr).
  destruct (Z.ltb_spec 0 (len text)) as [_|H]; [|lia]. cbn zeta.
  pose proof (chosen_boundary_spec text target overlap thr Hov Htar 0 ltac:(lia)) as Hok.
  unfold span_ok in Hok. cbn [fst snd] in Hok. cbn zeta in Hok.
  destruct Hok as (_ & _ & [(Hbr & Hgt & _)|(Heq & _)]).
  - rewrite Hnb in Hbr by lia. discriminate.
  - rewrite Heq. rewrite Z.min_r by lia. now rewrite Z.eqb_refl.
Qed.

End ChunkerCoverage.

(** X1: under the conditions on the sizes, the chunks cover the text:
    every character of the text lies in some chunk, at the offset that
    the start of the chunk gives it. *)
Theorem chunks_cover_text
  (text : pystr) (target overlap thr : Z) (fuel : nat) :
  int_of_0_3_times target = Ok thr ->
  0 <= overlap <= thr ->
  thr < target ->
  (Z.to_nat (len text) < fuel)%nat ->
  exists spans,
    chunk_spans fuel text target overlap = Some (Ok spans)
    /\ chunk_text_for_model fuel text target overlap
       = Some (Ok (map (fun sb => slice text (fst sb) (snd sb)) spans))
    /\ forall i, 0 <= i < len text ->
         exists sb, In sb spans
                    /\ fst sb <= i < snd sb
                    /\ char_at (slice text (fst sb) (snd sb)) (i - fst sb)
                       = char_at text i.
Proof.
  intros Hthr Hov Htar Hfuel.
  destruct (chunk_spans_spec text target overlap thr Hthr Hov Htar fuel Hfuel)
    as (spans & Hrun & Hall & _).
  exists spans. split; [exact Hrun|]. split.
  - unfold chunk_text_for_model. now rewrite Hrun.
  - intros i Hi.
    destruct (chunk_loop_covers text target overlap thr Hthr Hov Htar fuel 0 spans
                ltac:(lia) Hrun i Hi) as (sb & Hin & Hsb).
    exists sb. split; [exact Hin|]. split; [exact Hsb|].
    rewrite Forall_forall in Hall. specialize (Hall sb Hin).
    unfold span_ok in Hall. cbn zeta in Hall.
    apply char_at_slice; lia.
Qed.

Lemma chunks_cover_text_witness :
  exists spans,
    chunk_spans 66 small_page_text 30 5 = Some (Ok spans)
    /\ chunk_text_for_model 66 small_page_text 30 5
       = Some (Ok (map (fun sb => slice small_page_text (fst sb) (snd sb)) spans))
    /\ forall i, 0 <= i < len small_page_text ->
         exists sb, In sb spans
                    /\ fst sb <= i < snd sb
                    /\ char_at (slice small_page_text (fst sb) (snd sb)) (i - fst sb)
                       = char_at small_page_text i.
Proof.
  apply (chunks_cover_text small_page_text 30 5 9 66).
  - vm_compute. reflexivity.
  - lia.
  - lia.
  - vm_compute. lia.
Defined.

(** X2: under the conditions on the sizes, no chunk is empty and no chunk
    is longer than [target_chars]. *)
Theorem chunks_nonempty_and_bounded
  (text : pystr) (target overlap thr : Z) (fuel : nat) :
  int_of_0_3_times target = Ok thr ->
  0 <= overlap <= thr ->
  thr < target ->
  (Z.to_nat (len text) < fuel)%nat ->
  exists chunks,
    chunk_text_for_model fuel text target overlap = Some (Ok chunks)
    /\ Forall (fun c => 0 < len c <= target) chunks.
Proof.
  intros Hthr Hov Htar Hfuel.
  destruct (chunk_spans_spec text target overlap thr Hthr Hov Htar fuel Hfuel)
    as (spans & Hrun & Hall & _).
  exists (map (fun sb => slice text (fst sb) (snd sb)) spans).
  unfold chunk_text_for_model. rewrite Hrun. split; [reflexivity|].
  apply Forall_map. eapply Forall_impl; [|exact Hall].
  intros sb Hok. unfold span_ok in Hok. cbn zeta in Hok.
  rewrite len_slice; lia.
Qed.

Lemma chunks_nonempty_and_bounded_witness :
  exists chunks,
    chunk_text_for_model 66 small_page_text 30 5 = Some (Ok chunks)
    /\ Forall (fun c => 0 < len c <= 30) chunks.
Proof.
  apply (chunks_nonempty_and_bounded small_page_text 30 5 9 66).
  - vm_compute. reflexivity.
  - lia.
  - lia.
  - vm_compute. lia.
Defined.

(** X3: under the conditions on the sizes, a non-empty text that fits
    [target_chars] and has no paragraph
    break more than [int(0.3 * target_chars)] characters from its start
    (so every text of at most [int(0.3 * target_chars) + 2] characters)
    comes back as one chunk, the text itself; the empty text gives no
    chunk. *)
Theorem short_text_is_one_chunk
  (text : pystr) (target overlap thr : Z) (fuel : nat) :
  int_of_0_3_times target = Ok thr ->
  0 <= overlap <= thr ->
  thr < target ->
  len text <= target ->
  (forall j, thr < j -> is_break text j = false) ->
  chunk_text_for_model (S fuel) text target overlap
  = Some (Ok (if len text =? 0 then [] else [text])).
Proof.
  intros Hthr Hov Htar Hn Hnb. unfold chunk_text_for_model, chunk_spans.
  pose proof (len_nonneg text) as H0.
  destruct (Z.eqb_spec (len text) 0) as [Hz|Hz].
  - cbn [chunk_loop]. cbn zeta. rewrite Hz. reflexivity.
  - rewrite (chunk_loop_single text target overlap thr Hthr Hov Htar fuel)
      by (auto; lia).
    cbn [map fst snd]. now rewrite slice_whole.
Qed.

Lemma short_text_is_one_chunk_witness :
  chunk_text_for_model 1 (lit "one short paragraph") 24000 1200
  = Some (Ok (if len (lit "one short paragraph") =? 0 then []
              else [lit "one short paragraph"])).
Proof.
  apply (short_text_is_one_chunk (lit "one short paragraph") 24000 1200 7200 0).
  - vm_compute. reflexivity.
  - lia.
  - lia.
  - vm_compute. discriminate.
  - intros j _. apply contains_false_no_break. vm_compute. reflexivity.
Defined.

(** ** The cleaner: which lines survive *)

Lemma lstrip_shape (s : pystr) :
  exists w, s = w ++ lstrip s /\ forallb is_space w = true
            /\ (lstrip s = [] \/ exists c r, lstrip s = c :: r /\ is_space c = false).
Proof.
  induction s as [|c s (w & Hs & Hw & Hl)].
  - exists []. cbn. auto.
  - cbn [lstrip]. destruct (is_space c) eqn:E.
    + exists (c :: w). cbn [app forallb]. rewrite E, Hw. split; [now f_equal|auto].
    + exists []. cbn. split; [reflexivity|]. split; [reflexivity|]. right. eauto.
Qed.

Lemma strip_shape (x : pystr) :
  strip x = []
  \/ exists c mid d r,
       strip x = c :: mid /\ is_space c = false
       /\ strip x = r ++ [d] /\ is_space d = false.
Proof.
  unfold strip, rstrip.
  destruct (lstrip_shape x) as (_ & _ & _ & [Hy|(c & r & Hy & Hc)]).
  - rewrite Hy. now left.
  - rewrite Hy. right.
    destruct (lstrip_shape (rev (c :: r))) as (w & Hrev & Hw & [Hz|(d & z & Hz & Hd)]).
    + (* the reversed text cannot be all white space: it ends with [c] *)
      rewrite Hz, app_nil_r in Hrev. rewrite <- Hrev in Hw.
      rewrite forallb_rev in Hw. cbn [forallb] in Hw. rewrite Hc in Hw. discriminate.
    + rewrite Hz. cbn [rev].
      assert (Hhead : exists m, rev z ++ [d] = c :: m).
      { assert (Hcr : c :: r = rev (d :: z) ++ rev w).
        { rewrite <- rev_app_distr, <- Hz, <- Hrev. now rewrite rev_involutive. }
        cbn [rev] in Hcr. destruct (rev z ++ [d]) as [|c' m] eqn:E.
        - destruct (rev z); discriminate.
        - cbn [app] in Hcr. injection Hcr as -> _. eauto. }
      destruct Hhead as [m Hm]. exists c, m, d, (rev z). rewrite Hm. auto.
Qed.

Lemma drop_while_nil_iff (f : ascii -> bool) (s : pystr) :
  drop_while f s = [] <-> forallb f s = true.
Proof.
  induction s as [|c s IH]; cbn [drop_while forallb]; [tauto|].
  destruct (f c); cbn [andb]; [exact IH|]. split; discriminate.
Qed.

Lemma drop_while_suffix (f : ascii -> bool) (s : pystr) :
  exists pre, s = pre ++ drop_while f s.
Proof. exists (take_while f s). symmetry. apply take_drop_while. Qed.

(** After a text that ends with a character that is not white space, a
    run of white space to the end is empty. *)
Lemma space_tail_empty (pre tail r : pystr) (d : ascii) :
  pre ++ tail = r ++ [d] -> is_space d = false ->
  forallb is_space tail = true -> tail = [].
Proof.
  intros Heq Hd Hall. destruct tail as [|t tail] using rev_ind; [reflexivity|].
  rewrite app_assoc in Heq. apply app_inj_tail in Heq as [_ ->].
  rewrite forallb_app in Hall. cbn in Hall. rewrite Hd in Hall.
  rewrite andb_false_r in Hall. discriminate.
Qed.

Lemma is_digit_not_roman (c : ascii) : is_digit c = true -> is_roman c = false.
Proof.
  intros Hd. destruct (is_roman c) eqn:E; [|reflexivity].
  destruct (is_roman_cases c E) as [_ H]. congruence.
Qed.

(** On a trimmed, non-empty text the pattern of the page-number lines
    matches exactly the runs of digits and the runs of Roman letters. *)
Lemma page_num_match_stripped (x : pystr) :
  page_num_match (strip x)
  = nonempty (strip x)
    && (forallb is_digit (strip x) || forallb is_roman (strip x)).
Proof.
  destruct (strip_shape x) as [->|(c & mid & d & r & Hs & Hc & He & Hd)]; [reflexivity|].
  set (s := strip x) in *. rewrite Hs at 1 2. cbn [nonempty andb].
  assert (Hdrop : drop_while is_space (c :: mid) = c :: mid)
    by (cbn [drop_while]; now rewrite Hc).
  unfold page_num_match. rewrite Hdrop.
  assert (Htail : forall f, forallb is_space (drop_while f (c :: mid))
                            = forallb f (c :: mid)).
  { intros f. destruct (forallb f (c :: mid)) eqn:Ef.
    - apply drop_while_nil_iff in Ef. now rewrite Ef.
    - destruct (forallb is_space (drop_while f (c :: mid))) eqn:Esp; [|reflexivity].
      destruct (drop_while_suffix f (c :: mid)) as [pre Hpre].
      assert (Heq : pre ++ drop_while f (c :: mid) = r ++ [d])
        by (rewrite <- Hpre; congruence).
      pose proof (space_tail_empty _ _ _ _ Heq Hd Esp) as Hnil.
      apply drop_while_nil_iff in Hnil. congruence. }
  destruct (is_digit c) eqn:Edig.
  - assert (Ht : nonempty (take_while is_digit (c :: mid)) = true)
      by (cbn [take_while]; now rewrite Edig).
    rewrite Ht, Htail. cbn [andb].
    assert (Hr : forallb is_roman s = false)
      by (rewrite Hs; cbn [forallb]; now rewrite (is_digit_not_roman c Edig)).
    rewrite Hr, orb_false_r, ?Ht. cbn [andb]. now rewrite Hs.
  - assert (Ht : take_while is_digit (c :: mid) = [])
      by (cbn [take_while]; now rewrite Edig).
    rewrite Ht. cbn [nonempty]. rewrite Htail.
    assert (Hdg : forallb is_digit s = false)
      by (rewrite Hs; cbn [forallb]; now rewrite Edig).
    rewrite Hdg. cbn [orb]. rewrite <- Hs.
    destruct (forallb is_roman s) eqn:Er; [|apply andb_false_r].
    destruct (take_while_all is_roman s Er) as [-> _]. now rewrite Hs.
Qed.

(** X4: a line survives the cleaner exactly when its trimmed text is not
    empty, neither pattern is found in it, and it is neither a run of
    digits nor a run of the letters i, v, x, l, c, d, m (in either case). *)
Theorem line_kept_iff (header_re footer_re : option regex) (ln : pystr) :
  keeps_line header_re footer_re ln
  = nonempty (strip ln)
    && negb (searches header_re (strip ln))
    && negb (searches footer_re (strip ln))
    && negb (forallb is_digit (strip ln))
    && negb (forallb is_roman (strip ln)).
Proof.
  unfold keeps_line. rewrite page_num_match_stripped.
  destruct (nonempty (strip ln)); cbn [negb andb]; [|reflexivity].
  destruct (searches header_re (strip ln)); cbn [negb andb]; [reflexivity|].
  destruct (searches footer_re (strip ln)); cbn [negb andb]; [reflexivity|].
  destruct (forallb is_digit (strip ln)), (forallb is_roman (strip ln)); reflexivity.
Qed.

(** ** The cleaner: the lines of a cleaned page *)

Lemma splitlines_go_no_linebreak :
  forall (n : nat) (s cur : pystr),
    (List.length s <= n)%nat ->
    no_linebreak cur = true ->
    Forall (fun l => no_linebreak l = true) (splitlines_go s cur).
Proof.
  unfold no_linebreak.
  induction n as [|n IH]; intros s cur Hlen Hcur.
  - destruct s; [|cbn in Hlen; lia]. cbn [splitlines_go].
    destruct cur; repeat constructor. now rewrite forallb_rev.
  - destruct s as [|c s]; cbn [splitlines_go].
    + destruct cur; repeat constructor. now rewrite forallb_rev.
    + cbn [List.length] in Hlen. destruct (is_linebreak c) eqn:E.
      * destruct s as [|d s].
        -- repeat constructor. now rewrite forallb_rev.
        -- cbn [List.length] in Hlen.
           destruct ((code c =? 13) && (code d =? 10));
             (constructor; [now rewrite forallb_rev|apply IH; [cbn; lia|reflexivity]]).
      * apply IH; [lia|]. cbn [forallb]. now rewrite E.
Qed.

Lemma splitlines_no_linebreak (s : pystr) :
  Forall (fun l => no_linebreak l = true) (splitlines s).
Proof. apply (splitlines_go_no_linebreak (List.length s)); auto. Qed.

Lemma splitlines_go_line (l : pystr) :
  forall rest cur,
    no_linebreak l = true ->
    splitlines_go (l ++ rest) cur = splitlines_go rest (rev l ++ cur).
Proof.
  unfold no_linebreak.
  induction l as [|c l IH]; intros rest cur H; [reflexivity|].
  cbn [forallb] in H. apply andb_prop in H as [Hc Hl].
  cbn [app splitlines_go]. destruct (is_linebreak c); [discriminate|].
  rewrite IH by exact Hl. cbn [rev]. now rewrite <- app_assoc.
Qed.

(** Lines that are not empty and hold no line break come back from
    [splitlines] as they were joined. *)
Lemma splitlines_join (lines : list pystr) :
  Forall plain_line lines -> splitlines (join [NL] lines) = lines.
Proof.
  unfold splitlines.
  induction 1 as [|l lines [Hne Hl] Hrest IH]; [reflexivity|].
  destruct lines as [|l2 lines].
  - cbn [join]. rewrite <- (app_nil_r l) at 1.
    rewrite splitlines_go_line by exact Hl. cbn [splitlines_go].
    rewrite app_nil_r. destruct (rev l) eqn:E.
    + apply (f_equal (@rev ascii)) in E. rewrite rev_involutive in E. contradiction.
    + rewrite <- E. now rewrite rev_involutive.
  - change (join [NL] (l :: l2 :: lines)) with (l ++ NL :: join [NL] (l2 :: lines)).
    rewrite splitlines_go_line by exact Hl. rewrite app_nil_r.
    inversion Hrest as [|? ? [Hne2 _] _]; subst.
    assert (Hj : exists d t, join [NL] (l2 :: lines) = d :: t).
    { destruct l2 as [|d t]; [contradiction|].
      destruct lines; cbn [join app]; eauto. }
    destruct Hj as (d & t & Hj). cbn [splitlines_go].
    change (is_linebreak NL) with true. cbv iota. rewrite Hj.
    change (code NL =? 13) with false. cbn [andb]. rewrite <- Hj.
    rewrite rev_involutive. f_equal. exact IH.
Qed.

Lemma kept_lines_plain (header_re footer_re : option regex) (t : pystr) :
  Forall plain_line (filter (keeps_line header_re footer_re) (splitlines t)).
Proof.
  apply Forall_forall. intros l Hin. apply filter_In in Hin as [Hin Hk].
  split.
  - intros ->. discriminate.
  - pose proof (splitlines_no_linebreak t) as H. rewrite Forall_forall in H.
    exact (H l Hin).
Qed.

Lemma filter_idem {A} (f : A -> bool) (l : list A) :
  filter f (filter f l) = filter f l.
Proof.
  induction l as [|x l IH]; [reflexivity|]. cbn [filter].
  destruct (f x) eqn:E; [|exact IH]. cbn [filter]. now rewrite E, IH.
Qed.

Lemma not_line_feed (d : ascii) :
  negb (is_linebreak d) = true -> ascii_eqb NL d = false.
Proof.
  intros H. destruct (ascii_eqb NL d) eqn:E; [|reflexivity].
  apply ascii_eqb_eq in E. subst d. discriminate.
Qed.

Lemma no_break_in_plain_line (l x : pystr) :
  no_linebreak l = true ->
  contains [NL; NL] (l ++ x) = contains [NL; NL] x.
Proof.
  intros H. unfold no_linebreak in H.
  induction l as [|c l IH]; [reflexivity|].
  cbn [forallb] in H. apply andb_prop in H as [Hc Hl].
  cbn [app contains]. rewrite (IH Hl).
  cbn [starts_with]. now rewrite (not_line_feed c Hc).
Qed.

Lemma join_plain_head (l : pystr) (lines : list pystr) :
  plain_line l ->
  exists d t, join [NL] (l :: lines) = d :: t /\ ascii_eqb NL d = false.
Proof.
  intros [Hne Hl]. destruct l as [|d t]; [contradiction|].
  unfold no_linebreak in Hl. cbn [forallb] in Hl. apply andb_prop in Hl as [Hd _].
  destruct lines; cbn [join app]; eauto using not_line_feed.
Qed.

Lemma join_plain_no_break (lines : list pystr) :
  Forall plain_line lines -> contains [NL; NL] (join [NL] lines) = false.
Proof.
  induction 1 as [|l lines [Hne Hl] Hrest IH]; [reflexivity|].
  destruct lines as [|l2 lines].
  - cbn [join]. rewrite <- (app_nil_r l).
    now rewrite (no_break_in_plain_line l [] Hl).
  - change (join [NL] (l :: l2 :: lines)) with (l ++ NL :: join [NL] (l2 :: lines)).
    rewrite (no_break_in_plain_line l _ Hl).
    cbn [contains]. rewrite IH, orb_false_r.
    inversion Hrest as [|? ? Hp2 _]; subst.
    destruct (join_plain_head l2 lines Hp2) as (d & t & -> & Hd).
    cbn [starts_with]. rewrite Hd. now rewrite andb_false_r.
Qed.

(** X5: the lines of a cleaned page are the lines of the page that the
    cleaner keeps, unchanged and in order; the cleaned text holds no blank
    line (no two line feeds in a row). *)
Theorem cleaned_page_lines (header_re footer_re : option regex) (p : PageText) :
  splitlines (text (clean_page header_re footer_re p))
  = filter (keeps_line header_re footer_re) (splitlines (text p))
  /\ contains [NL; NL] (text (clean_page header_re footer_re p)) = false
  /\ page_num (clean_page header_re footer_re p) = page_num p.
Proof.
  cbn [clean_page text page_num]. split; [|split; [|reflexivity]].
  - apply splitlines_join, kept_lines_plain.
  - apply join_plain_no_break, kept_lines_plain.
Qed.

(** X6: cleaning is idempotent: when the cleaner returns, cleaning its
    result again with the same patterns returns the same pages. *)
Theorem cleaning_is_idempotent
  (re_compile : pystr -> result regex) (pages cleaned : list PageText)
  (patterns : Patterns) :
  remove_headers_footers_and_numbers re_compile pages patterns = Ok cleaned ->
  remove_headers_footers_and_numbers re_compile cleaned patterns = Ok cleaned.
Proof.
  unfold remove_headers_footers_and_numbers.
  destruct (compile_if re_compile (header patterns)) as [h|e]; [|discriminate].
  destruct (compile_if re_compile (footer patterns)) as [f|e]; [|discriminate].
  cbn [bind]. intros H. injection H as <-. f_equal.
  rewrite map_map. apply map_ext. intros p.
  unfold clean_page at 1. cbn [page_num text clean_page]. f_equal.
  rewrite splitlines_join by apply kept_lines_plain.
  now rewrite filter_idem.
Qed.

Lemma cleaning_is_idempotent_witness :
  remove_headers_footers_and_numbers no_re_compile
    [ {| page_num := 1; text := join [NL] [lit "intro"; lit "outro"] |} ] no_patterns
  = Ok [ {| page_num := 1; text := join [NL] [lit "intro"; lit "outro"] |} ].
Proof.
  apply (cleaning_is_idempotent no_re_compile [words_page]).
  vm_compute. reflexivity.
Defined.

(** ** The cleaner: lines of Roman-numeral letters *)

(** C10: whenever the two patterns compile (an empty pattern is not
    compiled), the cleaner returns, page by page, the lines that it
    keeps, joined by line feeds; and a line that, trimmed, is a non-empty
    run of the letters i, v, x, l, c, d, m in either case is never kept,
    whatever the header and footer patterns are: it is a line of no
    cleaned page.  The words "mix", "civil", "did" and "mild" are such
    lines. *)
Theorem cleaner_drops_roman_letter_lines
  (re_compile : pystr -> result regex) (pages : list PageText)
  (patterns : Patterns) (header_re footer_re : option regex) (ln : pystr) :
  compile_if re_compile (header patterns) = Ok header_re ->
  compile_if re_compile (footer patterns) = Ok footer_re ->
  roman_letters_only ln = true ->
  remove_headers_footers_and_numbers re_compile pages patterns
  = Ok (map (clean_page header_re footer_re) pages)
  /\ keeps_line header_re footer_re ln = false
  /\ (forall p, In p pages ->
        text (clean_page header_re footer_re p)
        = join [NL] (filter (keeps_line header_re footer_re) (splitlines (text p)))
        /\ ~ In ln (splitlines (text (clean_page header_re footer_re p))))
  /\ forallb roman_letters_only [lit "mix"; lit "civil"; lit "did"; lit "mild"]
     = true.
Proof.
  intros Hh Hf Hr. split; [|split; [|split]].
  - unfold remove_headers_footers_and_numbers. rewrite Hh, Hf. reflexivity.
  - now apply keeps_line_roman.
  - intros p _. split; [reflexivity|].
    cbn [clean_page text]. rewrite splitlines_join by apply kept_lines_plain.
    intros Hin. apply filter_In in Hin as [_ Hk].
    rewrite keeps_line_roman in Hk by exact Hr. discriminate.
  - reflexivity.
Qed.

Lemma cleaner_drops_roman_letter_lines_witness :
  remove_headers_footers_and_numbers no_re_compile [words_page] no_patterns
  = Ok (map (clean_page None None) [words_page])
  /\ keeps_line None None (lit " Civil ") = false
  /\ (forall p, In p [words_page] ->
        text (clean_page None None p)
        = join [NL] (filter (keeps_line None None) (splitlines (text p)))
        /\ ~ In (lit " Civil ") (splitlines (text (clean_page None None p))))
  /\ forallb roman_letters_only [lit "mix"; lit "civil"; lit "did"; lit "mild"]
     = true.
Proof.
  apply (cleaner_drops_roman_letter_lines no_re_compile [words_page] no_patterns
           None None (lit " Civil ")); reflexivity.
Defined.

(** ** The reconciler: what the overlap pass does *)

Lemma push_after_moved (prev cur : Section) : moved_forward cur (push_after prev cur).
Proof.
  unfold moved_forward, push_after.
  destruct (Z.leb_spec (start_page cur) (end_page prev)); cbn;
    [|repeat split; lia].
  destruct (Z.ltb_spec (end_page cur) (end_page prev + 1));
    repeat split; lia.
Qed.

Lemma resolve_from_moved :
  forall (rest : list Section) (prev : Section),
    Forall2 moved_forward rest (resolve_from prev rest).
Proof.
  induction rest as [|cur rest IH]; intros prev; cbn [resolve_from]; constructor.
  - apply push_after_moved.
  - apply IH.
Qed.

Lemma push_after_id (prev cur : Section) :
  strictly_after prev cur -> push_after prev cur = cur.
Proof.
  unfold strictly_after, push_after. intros H.
  destruct (Z.leb_spec (start_page cur) (end_page prev)); [lia|reflexivity].
Qed.

Lemma resolve_from_id :
  forall (rest : list Section) (prev : Section),
    Sorted strictly_after (prev :: rest) -> resolve_from prev rest = rest.
Proof.
  induction rest as [|cur rest IH]; intros prev Hs; [reflexivity|].
  inversion Hs as [|? ? Hs' Hhd]; subst. inversion Hhd as [|? ? Hpc]; subst.
  cbn [resolve_from]. rewrite (push_after_id prev cur Hpc). f_equal. now apply IH.
Qed.

Lemma resolve_overlaps_moved (merged : list Section) :
  Forall2 moved_forward merged (resolve_overlaps merged).
Proof.
  destruct merged as [|first rest]; cbn [resolve_overlaps]; [constructor|].
  constructor; [|apply resolve_from_moved].
  unfold moved_forward. repeat split; lia.
Qed.

(** X7: the overlap pass keeps the number, the order, the titles and the
    summaries of the merged sections and never moves a page number
    backward; a merged list in which every section already starts after
    the one before it ends comes back unchanged. *)
Theorem overlap_pass_moves_forward (merged : list Section) :
  Forall2 moved_forward merged (resolve_overlaps merged)
  /\ (Sorted strictly_after merged -> resolve_overlaps merged = merged).
Proof.
  split; [apply resolve_overlaps_moved|].
  destruct merged as [|first rest]; cbn [resolve_overlaps]; [reflexivity|].
  intros Hs. f_equal. now apply resolve_from_id.
Qed.

(** ** The reconciler: one section per title key *)

Lemma add_candidate_keys (gs : groups) (c : Candidate) :
  (In (c_key c) (map fst gs) /\ map fst (add_candidate gs c) = map fst gs)
  \/ (~ In (c_key c) (map fst gs)
      /\ map fst (add_candidate gs c) = map fst gs ++ [c_key c]).
Proof.
  induction gs as [|[k g] gs IH]; cbn [add_candidate map fst].
  - right. split; [intros []|reflexivity].
  - destruct (pystr_eqb k (c_key c)) eqn:E; cbn [map fst].
    + apply pystr_eqb_eq in E. subst k. left. split; [now left|reflexivity].
    + apply pystr_eqb_neq in E. destruct IH as [[Hin Heq]|[Hin Heq]].
      * left. split; [now right|]. now rewrite Heq.
      * right. split; [|now rewrite Heq].
        intros [H|H]; [congruence|contradiction].
Qed.

Lemma fold_add_candidate_keys (cs : list Candidate) :
  NoDup (map fst (fold_left add_candidate cs []))
  /\ (forall k, In k (map fst (fold_left add_candidate cs []))
                <-> In k (map c_key cs)).
Proof.
  induction cs as [|c cs [IHnd IHin]] using rev_ind.
  - split; [constructor|]. intros k. reflexivity.
  - rewrite fold_left_app, map_app. cbn [fold_left map].
    destruct (add_candidate_keys (fold_left add_candidate cs []) c)
      as [[Hin ->]|[Hin ->]].
    + split; [exact IHnd|]. intros k. rewrite in_app_iff, IHin. cbn.
      split; [tauto|]. intros [H|[<-|[]]]; [exact H|]. now apply IHin.
    + split.
      * apply NoDup_app; [exact IHnd|repeat constructor; intros []|].
        intros k Hk [<-|[]]. contradiction.
      * intros k. rewrite !in_app_iff, IHin. reflexivity.
Qed.

Lemma insert_sorted_perm (x : Section) (l : list Section) :
  Permutation (insert_sorted x l) (x :: l).
Proof.
  induction l as [|y l IH]; cbn [insert_sorted]; [reflexivity|].
  destruct (key_le x y); [reflexivity|].
  rewrite IH. apply perm_swap.
Qed.

Lemma sort_sections_perm (l : list Section) : Permutation (sort_sections l) l.
Proof.
  induction l as [|x l IH]; cbn [sort_sections]; [reflexivity|].
  rewrite insert_sorted_perm. now constructor.
Qed.

Lemma resolve_overlaps_keys (l : list Section) :
  map section_key (resolve_overlaps l) = map section_key l.
Proof.
  pose proof (resolve_overlaps_moved l) as H.
  induction H as [|a b l l' (Ht & _) _ IH]; [reflexivity|].
  cbn [map]. unfold section_key at 1 3. now rewrite Ht, IH.
Qed.

Lemma group_section_keys (gs : groups) :
  Forall (fun kg => title_key (g_title (snd kg)) = fst kg) gs ->
  map section_key (map (fun kg => section_of_group (snd kg)) gs) = map fst gs.
Proof.
  induction 1 as [|[k g] gs Hg _ IH]; [reflexivity|].
  cbn [map]. unfold section_key at 1. cbn [section_of_group title snd fst] in *.
  now rewrite Hg, IH.
Qed.

Lemma merged_sections_keys (repr_other : pyval -> pystr) (items : list pyval) :
  Permutation (map section_key (merged_sections repr_other items))
              (map fst (build_groups repr_other items)).
Proof.
  unfold merged_sections. rewrite sort_sections_perm.
  rewrite group_section_keys; [reflexivity|].
  rewrite build_groups_candidates.
  apply fold_add_candidate_titles, candidates_key.
Qed.

Lemma reconcile_keys_NoDup (repr_other : pyval -> pystr) (items : list pyval) :
  NoDup (map section_key (_reconcile_sections repr_other items)).
Proof.
  unfold _reconcile_sections. rewrite resolve_overlaps_keys.
  pose proof (merged_sections_keys repr_other items) as Hperm.
  rewrite build_groups_candidates in Hperm.
  destruct (fold_add_candidate_keys (candidates repr_other items)) as [Hnd _].
  eapply Permutation_NoDup; [symmetry; exact Hperm|exact Hnd].
Qed.

(** X8: the output holds one section per title key: no two sections of
    the output have the same key, and the keys of the output are exactly
    the keys of the kept candidates. *)
Theorem one_section_per_title_key
  (repr_other : pyval -> pystr) (items : list pyval) :
  let out := _reconcile_sections repr_other items in
  NoDup (map section_key out)
  /\ (forall k, In k (map section_key out)
                <-> In k (map c_key (candidates repr_other items))).
Proof.
  cbn zeta. unfold _reconcile_sections. rewrite resolve_overlaps_keys.
  pose proof (merged_sections_keys repr_other items) as Hperm.
  rewrite build_groups_candidates in Hperm.
  destruct (fold_add_candidate_keys (candidates repr_other items)) as [Hnd Hin].
  split.
  - eapply Permutation_NoDup; [symmetry; exact Hperm|exact Hnd].
  - intros k. rewrite <- Hin. split; intros H.
    + eapply Permutation_in; [exact Hperm|exact H].
    + eapply Permutation_in; [symmetry; exact Hperm|exact H].
Qed.

(** ** The reconciler: titles and summaries of the output *)

Lemma normalize_candidate_title (repr_other : pyval -> pystr) (it : pyval) (c : Candidate) :
  normalize_candidate repr_other it = Some c -> c_title c <> [].
Proof.
  unfold normalize_candidate. destruct it; try discriminate.
  destruct (nonempty _) eqn:E; cbn [negb]; [|discriminate].
  intros H. injection H as <-. cbn [c_title]. now apply nonempty_true_iff.
Qed.

Lemma candidates_titles (repr_other : pyval -> pystr) (items : list pyval) :
  Forall (fun c => c_title c <> []) (candidates repr_other items).
Proof.
  unfold candidates. induction items as [|it items IH]; cbn [flat_map]; [constructor|].
  apply Forall_app. split; [|exact IH].
  destruct (normalize_candidate repr_other it) as [c|] eqn:E; repeat constructor.
  eapply normalize_candidate_title; eassumption.
Qed.

Lemma add_candidate_nonempty_titles (gs : groups) (c : Candidate) :
  c_title c <> [] ->
  Forall (fun kg => g_title (snd kg) <> []) gs ->
  Forall (fun kg => g_title (snd kg) <> []) (add_candidate gs c).
Proof.
  intros Hc Hgs. induction Hgs as [|[k g] gs Hg Hgs IH]; cbn [add_candidate].
  - repeat constructor. exact Hc.
  - destruct (pystr_eqb k (c_key c)); constructor; assumption.
Qed.

Lemma fold_add_candidate_nonempty_titles (cs : list Candidate) :
  Forall (fun c => c_title c <> []) cs ->
  Forall (fun kg => g_title (snd kg) <> []) (fold_left add_candidate cs []).
Proof.
  induction cs as [|c cs IH] using rev_ind; intros H; [constructor|].
  apply Forall_app in H as [H1 H2]. inversion H2; subst.
  rewrite fold_left_app. cbn [fold_left]. apply add_candidate_nonempty_titles; auto.
Qed.

Lemma len_slice_le (s : pystr) (k : Z) : 0 <= k -> len (slice s 0 k) <= k.
Proof.
  intros Hk. pose proof (len_nonneg s) as Hn. unfold slice.
  rewrite !norm_index_nonneg by lia.
  unfold len in *. rewrite length_firstn. lia.
Qed.

(** X9: every section of the output has a title that is not empty and a
    summary of at most 1200 characters. *)
Theorem output_titles_and_summaries
  (repr_other : pyval -> pystr) (items : list pyval) :
  Forall (fun s => title s <> [] /\ len (summary s) <= 1200)
         (_reconcile_sections repr_other items).
Proof.
  unfold _reconcile_sections.
  assert (Hm : Forall (fun s => title s <> [] /\ len (summary s) <= 1200)
                      (merged_sections repr_other items)).
  { unfold merged_sections. apply sort_sections_Forall, Forall_map.
    rewrite build_groups_candidates.
    eapply Forall_impl;
      [|apply fold_add_candidate_nonempty_titles, candidates_titles].
    intros [k g] Hg. cbn [section_of_group title summary snd] in *.
    split; [exact Hg|]. apply len_slice_le. lia. }
  pose proof (resolve_overlaps_moved (merged_sections repr_other items)) as H2.
  induction H2 as [|a b l l' (Ht & Hs & _) _ IH]; [constructor|].
  inversion Hm as [|? ? [Ha1 Ha2] Hl]; subst.
  constructor; [|now apply IH]. rewrite Ht, Hs. auto.
Qed.

(** ** The JSON extractor: what reaches [json.loads] *)

Lemma scan_balanced_started :
  forall (rest : pystr) (i st depth : Z) (in_str esc : bool) (st' stop : Z),
    scan_balanced rest i (Some st) depth in_str esc = Some (st', stop) ->
    st' = st
    /\ exists mid cl post,
         rest = mid ++ cl :: post /\ is_close cl = true
         /\ stop = i + len mid + 1.
Proof.
  induction rest as [|ch rest IH]; intros i st depth in_str esc st' stop H;
    [discriminate|].
  cbn [scan_balanced] in H.
  assert (Hrec : forall d s e,
             scan_balanced rest (i + 1) (Some st) d s e = Some (st', stop) ->
             st' = st
             /\ exists mid cl post,
                  ch :: rest = mid ++ cl :: post /\ is_close cl = true
                  /\ stop = i + len mid + 1).
  { intros d s e Hr. destruct (IH _ _ _ _ _ _ _ Hr) as (-> & mid & cl & post & -> & Hcl & ->).
    split; [reflexivity|]. exists (ch :: mid), cl, post.
    rewrite len_cons. repeat split; auto; lia. }
  destruct in_str.
  - destruct esc; [eauto|].
    destruct (ascii_eqb ch BACKSLASH); [eauto|].
    destruct (ascii_eqb ch DQUOTE); eauto.
  - destruct (ascii_eqb ch DQUOTE); [eauto|].
    destruct (is_open ch); [eauto|].
    destruct (is_close ch) eqn:Ecl; [|eauto].
    destruct (depth - 1 =? 0); [|eauto].
    injection H as <- <-. split; [reflexivity|].
    exists [], ch, rest. rewrite len_nil. repeat split; auto; lia.
Qed.

Lemma scan_balanced_unstarted :
  forall (rest : pystr) (i depth : Z) (in_str esc : bool) (st stop : Z),
    scan_balanced rest i None depth in_str esc = Some (st, stop) ->
    exists pre o mid cl post,
      rest = pre ++ o :: mid ++ cl :: post
      /\ no_open pre = true /\ is_open o = true /\ is_close cl = true
      /\ st = i + len pre /\ stop = st + 1 + len mid + 1.
Proof.
  induction rest as [|ch rest IH]; intros i depth in_str esc st stop H;
    [discriminate|].
  cbn [scan_balanced] in H. destruct (is_open ch) eqn:Eo.
  - destruct (scan_balanced_started _ _ _ _ _ _ _ _ H)
      as (-> & mid & cl & post & -> & Hcl & ->).
    exists [], ch, mid, cl, post. rewrite len_nil. repeat split; auto; lia.
  - destruct (IH _ _ _ _ _ _ H)
      as (pre & o & mid & cl & post & -> & Hpre & Ho & Hcl & -> & ->).
    exists (ch :: pre), o, mid, cl, post. rewrite len_cons.
    unfold no_open in *. cbn [forallb app]. rewrite Eo, Hpre.
    repeat split; auto; lia.
Qed.

Lemma scan_balanced_no_open :
  forall (rest : pystr) (i depth : Z) (in_str esc : bool),
    no_open rest = true -> scan_balanced rest i None depth in_str esc = None.
Proof.
  unfold no_open. induction rest as [|ch rest IH]; intros i depth in_str esc H;
    [reflexivity|].
  cbn [forallb] in H. apply andb_prop in H as [Hc Hr].
  cbn [scan_balanced]. destruct (is_open ch); [discriminate|]. now apply IH.
Qed.

Lemma slice_middle (pre x post : pystr) :
  slice (pre ++ x ++ post) (len pre) (len pre + len x) = x.
Proof.
  pose proof (len_nonneg pre). pose proof (len_nonneg x). pose proof (len_nonneg post).
  unfold slice. rewrite !norm_index_nonneg by lia. rewrite !len_app.
  rewrite !Z.min_r by lia.
  replace (len pre + len x - len pre) with (len x) by lia.
  unfold len. rewrite !Nat2Z.id.
  rewrite skipn_app, skipn_all, Nat.sub_diag. cbn [app skipn].
  rewrite firstn_app, firstn_all, Nat.sub_diag. cbn [firstn]. apply app_nil_r.
Qed.

Lemma json_fragment_shape (c : pystr) :
  (no_open c = true -> json_fragment c = c)
  /\ (json_fragment c = c
      \/ exists pre o mid cl post,
           c = pre ++ o :: mid ++ cl :: post
           /\ no_open pre = true /\ is_open o = true /\ is_close cl = true
           /\ json_fragment c = o :: mid ++ [cl]).
Proof.
  unfold json_fragment. split.
  - intros H. now rewrite scan_balanced_no_open.
  - destruct (scan_balanced c 0 None 0 false false) as [[st stop]|] eqn:E; [|now left].
    right. destruct (scan_balanced_unstarted _ _ _ _ _ _ _ E)
      as (pre & o & mid & cl & post & Hc & Hpre & Ho & Hcl & -> & ->).
    exists pre, o, mid, cl, post. repeat split; auto.
    rewrite Hc.
    replace (pre ++ o :: mid ++ cl :: post)
      with (pre ++ (o :: mid ++ [cl]) ++ post)
      by (cbn [app]; rewrite <- app_assoc; reflexivity).
    replace (0 + len pre + 1 + len mid + 1) with (len pre + len (o :: mid ++ [cl]))
      by (rewrite len_cons, len_app, len_cons, len_nil; lia).
    rewrite Z.add_0_l. apply slice_middle.
Qed.

(** X10: a response with six backticks in a row raises [IndexError]; of
    any other response [json.loads] receives either the whole trimmed
    text (always so when that text holds no opening bracket) or the part
    of it that runs from its first opening bracket to a closing bracket. *)
Theorem parse_json_str_input (json_loads : pystr -> result pyval) (s : pystr) :
  (contains fence_pattern (strip s) = true ->
     parse_json_str json_loads s = Raise IndexError)
  /\ (contains fence_pattern (strip s) = false ->
        exists frag,
          parse_json_str json_loads s = json_loads frag
          /\ (no_open (strip s) = true -> frag = strip s)
          /\ (frag = strip s
              \/ exists pre o mid cl post,
                   strip s = pre ++ o :: mid ++ cl :: post
                   /\ no_open pre = true /\ is_open o = true
                   /\ is_close cl = true
                   /\ frag = o :: mid ++ [cl])).
Proof.
  unfold parse_json_str, fence_candidate. split; intros H; rewrite H; cbn [bind].
  - reflexivity.
  - exists (json_fragment (strip s)). split; [reflexivity|].
    apply json_fragment_shape.
Qed.

(** ** The client: retries and fallback *)

Section RetryWrapper.

Variables world exc : Type.
Variable str_exc : exc -> pystr.
Variable MAX_RETRIES : Z.
Variable backoff : Z -> world -> option exc * world.
Variable fn : world -> reply exc * world.

Local Abbreviation loop := (retry_loop world exc str_exc MAX_RETRIES backoff fn).
Local Abbreviation is_transient := (is_transient_error exc str_exc).
Local Abbreviation from a n := (map Z.of_nat (seq a n)).

Lemma events_of_failed_round (k : Z) (r : reply exc) (x : option exc)
  (tr : list (event exc)) :
  tried exc (Tried k r :: Slept k x :: tr) = (k, r) :: tried exc tr
  /\ slept exc (Tried k r :: Slept k x :: tr) = k :: slept exc tr
  /\ fell_back exc (Tried k r :: Slept k x :: tr) = fell_back exc tr.
Proof. repeat split. Qed.

Lemma retry_loop_run (n : nat) :
  forall (a : nat) (err : option exc) (w : world) r w' tr,
    loop (from a n) err w = (r, w', tr) ->
    Z.of_nat (a + n) = MAX_RETRIES + 1 ->
    (n = O /\ r = after_loop exc err /\ w' = w /\ tr = [])
    \/ exists init k last,
         tried exc tr = init ++ [(k, last)]
         /\ map fst (tried exc tr) = from a (List.length (tried exc tr))
         /\ (List.length (tried exc tr) <= n)%nat
         /\ Forall (fun kr => is_transient (snd kr) = true) init
         /\ fell_back exc tr = []
         /\ ((is_transient last = false /\ r = last
              /\ slept exc tr = from a (List.length init))
             \/ (is_transient last = true
                 /\ slept exc tr = from a (S (List.length init))
                 /\ ((k = MAX_RETRIES /\ r = last)
                     \/ exists pre e',
                          tr = pre ++ [Slept k (Some e')] /\ r = Raises e'))).
Proof.
  induction n as [|n IH]; intros a err w r w' tr H Hlast.
  - cbn in H. injection H as <- <- <-. left. auto.
  - right. cbn [seq map retry_loop] in H.
    destruct (fn w) as [r0 w1]. destruct r0 as [v|e].
    + injection H as <- <- <-. exists [], (Z.of_nat a), (Returns v).
      cbn. repeat split; auto; try lia.
    + destruct (transient exc str_exc e) eqn:Et; cbn [negb andb] in H.
      * destruct (backoff (Z.of_nat a) w1) as [[e'|] w2].
        -- injection H as <- <- <-. exists [], (Z.of_nat a), (Raises e).
           cbn. rewrite Et. repeat split; auto; try lia.
           right. repeat split; auto. right.
           exists [Tried (Z.of_nat a) (Raises e)], e'. split; reflexivity.
        -- destruct (loop (from (S a) n) (Some e) w2) as [[res w3] tr'] eqn:E.
           injection H as <- <- <-.
           apply IH in E; [|lia].
           destruct E as [(-> & -> & -> & ->)
                         |(init & k & last & Htr & Hk & Hlen & Hinit & Hfb & Hres)].
           ++ exists [], (Z.of_nat a), (Raises e).
              cbn. rewrite Et. repeat split; auto; try lia.
              right. repeat split; auto. left. split; [lia|reflexivity].
           ++ exists ((Z.of_nat a, Raises e) :: init), k, last.
              destruct (events_of_failed_round (Z.of_nat a) (Raises e) None tr')
                as (-> & -> & ->).
              rewrite Htr. cbn [app List.length map fst seq].
              rewrite Htr in Hk. rewrite Htr in Hlen.
              split; [reflexivity|]. split; [now rewrite Hk|].
              split; [cbn [List.length] in *; lia|].
              split; [constructor; [cbn; exact Et|exact Hinit]|].
              split; [exact Hfb|].
              destruct Hres as [(Hl & Hr & Hs)|(Hl & Hs & Hr)].
              ** left. repeat split; auto. now rewrite Hs.
              ** right. split; [exact Hl|]. split; [now rewrite Hs|].
                 destruct Hr as [Hr|(pre & e' & -> & ->)]; [now left|].
                 right. exists (Tried (Z.of_nat a) (Raises e)
                                  :: Slept (Z.of_nat a) None :: pre), e'.
                 split; reflexivity.
      * assert (H' : (Raises e, w1, [Tried (Z.of_nat a) (Raises e)])
                     = (r, w', tr)).
        { destruct (MAX_RETRIES <=? Z.of_nat a); exact H. }
        clear H. injection H' as <- <- <-.
        exists [], (Z.of_nat a), (Raises e).
        cbn. rewrite Et. repeat split; auto; try lia.
Qed.

Lemma retry_wrapper_run (w : world) r w' tr :
  _retry_wrapper world exc str_exc MAX_RETRIES backoff fn w = (r, w', tr) ->
  (MAX_RETRIES <= 0 /\ r = Returns None /\ w' = w /\ tr = [])
  \/ (0 < MAX_RETRIES
      /\ exists init k last,
         tried exc tr = init ++ [(k, last)]
         /\ map fst (tried exc tr)
            = attempts_upto (Z.of_nat (List.length (tried exc tr)))
         /\ (List.length (tried exc tr) <= Z.to_nat MAX_RETRIES)%nat
         /\ Forall (fun kr => is_transient (snd kr) = true) init
         /\ fell_back exc tr = []
         /\ ((is_transient last = false /\ r = last
              /\ slept exc tr = attempts_upto (k - 1))
             \/ (is_transient last = true
                 /\ slept exc tr = attempts_upto k
                 /\ ((k = MAX_RETRIES /\ r = last)
                     \/ exists pre e',
                          tr = pre ++ [Slept k (Some e')] /\ r = Raises e')))).
Proof.
  unfold _retry_wrapper, attempts_upto. intros H.
  destruct (Z_le_gt_dec MAX_RETRIES 0) as [Hle|Hgt].
  - left. replace (Z.to_nat MAX_RETRIES) with O in H by lia.
    cbn in H. injection H as <- <- <-. auto.
  - right. split; [lia|].
    apply retry_loop_run in H; [|lia].
    destruct H as [(Hn & _)|(init & k & last & Htr & Hk & Hlen & Hinit & Hfb & Hres)];
      [lia|].
    exists init, k, last. rewrite Nat2Z.id.
    assert (Hkv : k = Z.of_nat (S (List.length init))).
    { rewrite Htr in Hk. rewrite map_app, length_app in Hk. cbn [map List.length fst] in Hk.
      replace (List.length init + 1)%nat with (List.length init + 1)%nat in Hk by lia.
      rewrite seq_app, map_app in Hk. cbn [seq map] in Hk.
      apply (f_equal (@rev Z)) in Hk. rewrite !rev_app_distr in Hk.
      cbn [rev app] in Hk. injection Hk as Hk _. lia. }
    repeat split; auto.
    destruct Hres as [(Hl & Hr & Hs)|(Hl & Hs & Hr)].
    + left. repeat split; auto. rewrite Hs, Hkv. f_equal. f_equal. lia.
    + right. repeat split; auto. rewrite Hs, Hkv. f_equal. f_equal. lia.
Qed.

(** X11: whatever the call does, [_retry_wrapper] makes at most
    [MAX_RETRIES] calls, numbered 1, 2, ... in order, every call but the
    last one ended in a transient error, and it sleeps at most once per
    call. *)
Theorem retry_wrapper_calls_bounded (w : world) :
  let tr := snd (_retry_wrapper world exc str_exc MAX_RETRIES backoff fn w) in
  map fst (tried exc tr) = attempts_upto (Z.of_nat (List.length (tried exc tr)))
  /\ (List.length (tried exc tr) <= Z.to_nat MAX_RETRIES)%nat
  /\ Forall (fun r => is_transient r = true)
            (removelast (map snd (tried exc tr)))
  /\ (List.length (slept exc tr) <= List.length (tried exc tr))%nat.
Proof.
  cbn zeta.
  destruct (_retry_wrapper world exc str_exc MAX_RETRIES backoff fn w)
    as [[r w'] tr] eqn:E. cbn [snd].
  apply retry_wrapper_run in E.
  destruct E as [(Hle & _ & _ & ->)
                |(Hgt & init & k & last & Htr & Hk & Hlen & Hinit & _ & Hres)].
  - cbn. repeat split; auto; lia.
  - split; [exact Hk|]. split; [exact Hlen|]. split.
    + rewrite Htr, map_app. cbn [map]. rewrite removelast_last.
      apply Forall_map. exact Hinit.
    + assert (Hkv : k = Z.of_nat (S (List.length init))).
      { rewrite Htr in Hk. rewrite map_app, length_app in Hk.
        cbn [map List.length fst] in Hk. unfold attempts_upto in Hk.
        rewrite Nat2Z.id, seq_app, map_app in Hk. cbn [seq map] in Hk.
        apply (f_equal (@rev Z)) in Hk. rewrite !rev_app_distr in Hk.
        cbn [rev app] in Hk. injection Hk as Hk _. lia. }
      rewrite Htr, length_app. cbn [List.length].
      destruct Hres as [(_ & _ & Hs)|(_ & Hs & _)]; rewrite Hs;
        unfold attempts_upto; rewrite length_map, length_seq; lia.
Qed.

(** X12: with [MAX_RETRIES] at most 0 the wrapper returns [None] without
    calling and without sleeping.  Otherwise it calls at least once, and
    the last call decides: its value is returned; its error is raised
    without a sleep if it is not transient; and after a transient error
    the wrapper still sleeps, then raises that error, which happens only
    at attempt [MAX_RETRIES], unless the sleep itself raised. *)
Theorem retry_wrapper_result (w : world) :
  let '(r, w', tr) :=
    _retry_wrapper world exc str_exc MAX_RETRIES backoff fn w in
  (MAX_RETRIES <= 0 -> r = Returns None /\ w' = w /\ tr = [])
  /\ (0 < MAX_RETRIES ->
      exists init k last,
        tried exc tr = init ++ [(k, last)]
        /\ ((is_transient last = false /\ r = last
             /\ slept exc tr = attempts_upto (k - 1))
            \/ (is_transient last = true
                /\ slept exc tr = attempts_upto k
                /\ ((k = MAX_RETRIES /\ r = last)
                    \/ exists pre e',
                         tr = pre ++ [Slept k (Some e')] /\ r = Raises e')))).
Proof.
  destruct (_retry_wrapper world exc str_exc MAX_RETRIES backoff fn w)
    as [[r w'] tr] eqn:E.
  apply retry_wrapper_run in E.
  destruct E as [(Hle & -> & -> & ->)
                |(Hgt & init & k & last & Htr & _ & _ & _ & _ & Hres)].
  - split; [auto|lia].
  - split; [lia|]. intros _. exists init, k, last. auto.
Qed.

End RetryWrapper.

Section GenerateJson.

Variables world exc : Type.
Variable str_exc : exc -> pystr.
Variable MAX_RETRIES : Z.
Variable FALLBACK_MODEL : pystr.
Variable _call_once : pystr -> pystr -> GenParams -> world -> reply exc * world.
Variable backoff : Z -> world -> option exc * world.

Local Abbreviation generate :=
  (generate_json world exc str_exc MAX_RETRIES FALLBACK_MODEL _call_once backoff).

(** X13: [generate_json] calls the service at most [MAX_RETRIES + 1]
    times, the fallback model at most once and last.  When the fallback
    is called, the configured fallback is non-empty and differs from the
    model, the primary model was tried before, and the reply of the
    fallback, value or error, is the result.  When the result is an error
    and the fallback was not called, there is no usable fallback.  With
    [MAX_RETRIES] at most 0 nothing is called at all and the result is
    [None]. *)
Theorem generate_json_fallback (model_name prompt : pystr)
  (system_instruction : option pystr) (params : GenParams) (w : world) :
  let '(r, w', tr) := generate model_name prompt system_instruction params w in
  (List.length (tried exc tr) + List.length (fell_back exc tr)
   <= Z.to_nat MAX_RETRIES + 1)%nat
  /\ (MAX_RETRIES <= 0 -> r = Returns None /\ w' = w /\ tr = [])
  /\ (forall rf, In rf (fell_back exc tr) ->
        tr = removelast tr ++ [FellBack rf]
        /\ fell_back exc (removelast tr) = []
        /\ tried exc tr <> []
        /\ r = rf
        /\ FALLBACK_MODEL <> [] /\ FALLBACK_MODEL <> model_name)
  /\ (forall e, r = Raises e -> fell_back exc tr = [] ->
        FALLBACK_MODEL = [] \/ FALLBACK_MODEL = model_name).
Proof.
  unfold generate_json.
  set (contents := contents_of prompt system_instruction).
  destruct (_retry_wrapper world exc str_exc MAX_RETRIES backoff
              (_call_once model_name contents params) w)
    as [[r0 w0] tr0] eqn:E.
  apply retry_wrapper_run in E.
  assert (Hfb0 : fell_back exc tr0 = []).
  { destruct E as [(_ & _ & _ & ->)|(_ & i & k & l & _ & _ & _ & _ & H & _)];
      [reflexivity|exact H]. }
  assert (Hlen0 : (List.length (tried exc tr0) <= Z.to_nat MAX_RETRIES)%nat).
  { destruct E as [(_ & _ & _ & ->)|(_ & i & k & l & _ & _ & H & _)];
      [cbn; lia|exact H]. }
  assert (Hoff : MAX_RETRIES <= 0 -> r0 = Returns None /\ w0 = w /\ tr0 = []).
  { destruct E as [(_ & -> & -> & ->)|(Hgt & _)]; [auto|lia]. }
  assert (Hne : forall e, r0 = Raises e -> tried exc tr0 <> []).
  { intros e ->. destruct E as [(_ & Hr & _)|(_ & i & k & l & -> & _)];
      [discriminate|]. destruct i; discriminate. }
  clear E. destruct r0 as [v|e].
  - rewrite Hfb0. cbn [List.length]. split; [lia|]. split; [exact Hoff|].
    split; [intros rf []|]. discriminate.
  - destruct (nonempty FALLBACK_MODEL && negb (pystr_eqb FALLBACK_MODEL model_name))
      eqn:Efb.
    + destruct (_call_once FALLBACK_MODEL contents params w0) as [rf w2].
      assert (Ht : tried exc (tr0 ++ [FellBack rf]) = tried exc tr0).
      { unfold tried. rewrite flat_map_app. cbn. apply app_nil_r. }
      assert (Hf : fell_back exc (tr0 ++ [FellBack rf]) = [rf]).
      { unfold fell_back at 1. rewrite flat_map_app. fold (fell_back exc tr0).
        rewrite Hfb0. reflexivity. }
      rewrite Ht, Hf. cbn [List.length].
      apply andb_prop in Efb as [Hn Hd].
      apply nonempty_true_iff in Hn.
      apply negb_true_iff, pystr_eqb_neq in Hd.
      split; [lia|]. split.
      { intros Hle. destruct (Hoff Hle) as [Hr _]. discriminate. }
      split.
      { intros rf' [<-|[]]. rewrite removelast_last.
        repeat split; eauto. }
      intros e' _ Hnil. discriminate.
    + rewrite Hfb0. cbn [List.length]. split; [lia|]. split.
      { intros Hle. destruct (Hoff Hle) as [Hr _]. discriminate. }
      split; [intros rf []|].
      intros e' _ _. apply andb_false_iff in Efb as [Hn|Hd].
      * left. now apply nonempty_false_iff.
      * right. apply negb_false_iff, pystr_eqb_eq in Hd. exact Hd.
Qed.

End GenerateJson.

(** ** Segmentation of a text through the service *)

Lemma default_chunks (fuel : nat) (full_text : pystr) :
  (Z.to_nat (len full_text) < fuel)%nat ->
  exists chunks,
    chunk_text_for_model fuel full_text default_target_chars default_overlap_chars
    = Some (Ok chunks).
Proof.
  intros Hfuel.
  destruct (chunk_spans_spec full_text default_target_chars default_overlap_chars
              7200 default_threshold
              ltac:(unfold default_overlap_chars; lia)
              ltac:(unfold default_target_chars; lia) fuel Hfuel)
    as (spans & Hrun & _).
  unfold chunk_text_for_model. rewrite Hrun. eauto.
Qed.

Lemma reconcile_sections_shape (repr_other : pyval -> pystr) (items : list pyval) :
  let out := _reconcile_sections repr_other items in
  Forall valid_span out /\ Sorted strictly_after out
  /\ NoDup (map section_key out).
Proof.
  cbn zeta. split; [|split].
  - apply resolve_overlaps_spec, merged_sections_valid.
  - apply resolve_overlaps_spec, merged_sections_valid.
  - apply reconcile_keys_NoDup.
Qed.

Section SegmentationProofs.

Variables world exc : Type.
Variable ask : pystr -> world -> outcome exc (option pystr) * world.
Variable json_loads : pystr -> result pyval.
Variable repr_other : pyval -> pystr.

Lemma segment_chunks_outcome (chunks : list pystr) :
  forall (collected : list pyval) (w : world),
    match fst (segment_chunks world exc ask json_loads chunks collected w) with
    | Returns _ => True
    | Raises e => exists p w0, fst (ask p w0) = Raises e
    end
    /\ ((forall p w0, exists out, fst (ask p w0) = Returns out) ->
        exists items,
          fst (segment_chunks world exc ask json_loads chunks collected w)
          = Returns items).
Proof.
  induction chunks as [|ch rest IH]; intros collected w; cbn [segment_chunks].
  - cbn. split; eauto.
  - destruct (ask (segment_prompt ch) w) as [[out|e] w1] eqn:E.
    + apply IH.
    + cbn [fst]. split.
      * exists (segment_prompt ch), w. now rewrite E.
      * intros Hnever. destruct (Hnever (segment_prompt ch) w) as [out Ho].
        rewrite E in Ho. discriminate.
Qed.

(** X14: on every text the segmentation comes to an end (fuel above the
    length of the text is enough) and the chunker never raises.  An error
    of the result is one that the client raised; no reply of the service,
    whatever its text, makes the function raise: when the client always
    returns, sections are returned.  The sections have valid page spans,
    each starts after the one before it ends, and no two share a title
    key. *)
Theorem segmentation_total_and_ordered
  (fuel : nat) (full_text : pystr) (w : world) :
  (Z.to_nat (len full_text) < fuel)%nat ->
  exists r w',
    ai_segment_text world exc ask json_loads repr_other fuel full_text w
    = Some (r, w')
    /\ match r with
       | Returns secs =>
           Forall valid_span secs /\ Sorted strictly_after secs
           /\ NoDup (map section_key secs)
       | Raises (inl _) => False
       | Raises (inr e) => exists p w0, fst (ask p w0) = Raises e
       end
    /\ ((forall p w0, exists out, fst (ask p w0) = Returns out) ->
        exists secs, r = Returns secs).
Proof.
  intros Hfuel. destruct (default_chunks fuel full_text Hfuel) as [chunks Hch].
  unfold ai_segment_text. rewrite Hch.
  destruct (segment_chunks_outcome chunks [] w) as [Hout Hret].
  destruct (segment_chunks world exc ask json_loads chunks [] w)
    as [[collected|e] w1]; cbn [fst] in *.
  - eexists _, _. split; [reflexivity|]. split.
    + apply reconcile_sections_shape.
    + eauto.
  - eexists _, _. split; [reflexivity|]. split; [exact Hout|].
    intros Hnever. destruct (Hret Hnever) as [items Hi]. discriminate.
Qed.

End SegmentationProofs.

Lemma segmentation_total_and_ordered_witness :
  exists r w',
    ai_segment_text unit unit
      (fun _ w => (Returns (Some (lit "[]")), w))
      (fun _ => Ok (PList overlap_items)) no_repr 66 small_page_text tt
    = Some (r, w')
    /\ match r with
       | Returns secs =>
           Forall valid_span secs /\ Sorted strictly_after secs
           /\ NoDup (map section_key secs)
       | Raises (inl _) => False
       | Raises (inr e) =>
           exists (p : pystr) (w0 : unit),
             fst (@Returns unit _ (Some (lit "[]")), w0) = Raises e
       end
    /\ ((forall (p : pystr) (w0 : unit),
           exists out,
             fst (@Returns unit _ (Some (lit "[]")), w0)
             = Returns out) ->
        exists secs, r = Returns secs).
Proof.
  apply (segmentation_total_and_ordered unit unit
           (fun _ w => (Returns (Some (lit "[]")), w))
           (fun _ => Ok (PList overlap_items)) no_repr 66 small_page_text tt).
  vm_compute. lia.
Defined.

(** ** The rows of the stance CSV *)

Lemma rows_of_examples_spec (section : pyval) (cat : pystr) (exs : list pyval) :
  forall rows,
    rows_of_examples section cat exs rows
    = if forallb is_dict exs
      then Returns
             (rows ++ map (fun ex =>
                             [(lit "section", section);
                              (lit "category", PStr cat);
                              (lit "word", example_field ex (lit "word"));
                              (lit "sentence", example_field ex (lit "sentence"))])
                          exs)
      else Raises AttributeError.
Proof.
  induction exs as [|ex exs IH]; intros rows; cbn [rows_of_examples forallb map].
  - now rewrite app_nil_r.
  - destruct ex; cbn [csv_row py_get obind is_dict andb]; try reflexivity.
    rewrite IH. destruct (forallb is_dict exs); [|reflexivity].
    cbn [example_field]. now rewrite <- app_assoc.
Qed.

Lemma forallb_of_map {A B : Type} (f : B -> bool) (g : A -> B) (l : list A) :
  forallb f (map g l) = forallb (fun x => f (g x)) l.
Proof. induction l as [|x l IH]; cbn; [reflexivity|now rewrite IH]. Qed.

(** A record whose categories are all bound to lists. *)
Lemma rows_of_categories_spec (d : pydict) (cats : list pystr) :
  (forall cat, In cat cats -> exists l, dict_get d cat = Some (PList l)) ->
  forall rows,
    let exs := flat_map (fun cat => map (fun ex => (cat, ex)) (examples_of d cat)) cats in
    rows_of_categories (PDict d) (dict_get_default d (lit "section") (PStr [])) cats rows
    = if forallb (fun ce => is_dict (snd ce)) exs
      then Returns (rows ++ map (row_of d) exs)
      else Raises AttributeError.
Proof.
  induction cats as [|cat cats IH]; intros Hd rows; cbn zeta;
    cbn [rows_of_categories flat_map forallb map].
  - now rewrite app_nil_r.
  - destruct (Hd cat (or_introl eq_refl)) as [l Hl].
    cbn [py_get obind]. unfold dict_get_default at 1. rewrite Hl.
    cbn [py_iter obind]. rewrite rows_of_examples_spec.
    assert (He : examples_of d cat = l) by (unfold examples_of; now rewrite Hl).
    rewrite He.
    rewrite forallb_app, map_app, forallb_of_map. cbn [snd].
    destruct (forallb is_dict l); cbn [andb obind]; [|reflexivity].
    rewrite IH by (intros c Hc; apply Hd; now right). cbn zeta.
    destruct (forallb _ _); [|reflexivity].
    rewrite map_map, <- app_assoc. reflexivity.
Qed.

Lemma stance_rows_spec (records : list pydict) :
  Forall (fun d => forall cat, In cat stance_keys ->
                     exists l, dict_get d cat = Some (PList l)) records ->
  forall rows,
    stance_rows (map PDict records) rows
    = if forallb objects_only records
      then Returns
             (rows ++ flat_map (fun d => map (row_of d) (all_examples d)) records)
      else Raises AttributeError.
Proof.
  induction 1 as [|d records Hd _ IH]; intros rows;
    cbn [stance_rows map forallb flat_map].
  - now rewrite app_nil_r.
  - cbn [py_get obind].
    pose proof (rows_of_categories_spec d stance_keys Hd rows) as Hc.
    cbn zeta in Hc. fold (all_examples d) in Hc. rewrite Hc.
    unfold objects_only at 1.
    destruct (forallb _ (all_examples d)); cbn [andb obind]; [|reflexivity].
    rewrite IH. destruct (forallb objects_only records); [|reflexivity].
    now rewrite <- app_assoc.
Qed.

Lemma stance_record_lists (json_loads : pystr -> result pyval)
  (section_title out : pystr) :
  forall cat, In cat stance_keys ->
    exists l,
      dict_get (ai_analyse_stance json_loads section_title out) cat
      = Some (PList l).
Proof.
  intros cat Hcat. unfold ai_analyse_stance.
  destruct (parse_json_str json_loads out) as [data|e]; cbn [bind].
  - destruct (fill_stance section_title data) as [d'|e] eqn:E.
    + destruct data; try discriminate.
      rewrite (fill_stance_categories _ _ _ E cat Hcat).
      destruct (filled_is_list (dict_get d cat)) as [l ->]. eauto.
    + rewrite (stance_fallback_categories section_title cat Hcat). eauto.
  - rewrite (stance_fallback_categories section_title cat Hcat). eauto.
Qed.

(** X15: on the records that [ai_analyse_stance] returns, whatever the
    responses were, the rows of [save_csv_stance] are one row per example,
    record by record and category by category, when every example is an
    object; otherwise the function raises [AttributeError], and it raises
    nothing else.  A response that did not parse gives a record without
    examples, hence no row. *)
Theorem csv_rows_of_stance_records
  (json_loads : pystr -> result pyval) (responses : list (pystr * pystr)) :
  let records :=
    map (fun tr => ai_analyse_stance json_loads (fst tr) (snd tr)) responses in
  save_csv_stance_rows (map PDict records)
  = (if forallb objects_only records
     then Returns (flat_map (fun d => map (row_of d) (all_examples d)) records)
     else Raises AttributeError)
  /\ (forall section_title out e,
        parse_json_str json_loads out = Raise e ->
        all_examples (ai_analyse_stance json_loads section_title out) = []).
Proof.
  cbn zeta. split.
  - unfold save_csv_stance_rows. rewrite stance_rows_spec; [reflexivity|].
    apply Forall_map, Forall_forall. intros [t o] _. cbn [fst snd].
    apply stance_record_lists.
  - intros section_title out e H. unfold ai_analyse_stance. rewrite H.
    reflexivity.
Qed.

(** ** The refined query specification *)

Lemma dict_get_setdefault_same (d : pydict) (k : pystr) (v : pyval) :
  dict_get (dict_setdefault d k v) k
  = Some (match dict_get d k with Some v' => v' | None => v end).
Proof.
  unfold dict_setdefault. destruct (dict_get d k) eqn:E; [exact E|].
  now rewrite dict_get_set, pystr_eqb_refl.
Qed.

Lemma dict_get_setdefault_kept (d : pydict) (k k' : pystr) (v v' : pyval) :
  dict_get d k' = Some v' -> dict_get (dict_setdefault d k v) k' = Some v'.
Proof.
  intros H. destruct (pystr_eqb k k') eqn:E.
  - apply pystr_eqb_eq in E. subst k'. now rewrite dict_get_setdefault_same, H.
  - now rewrite dict_get_setdefault_other.
Qed.

Lemma dict_get_setdefault_bound (d : pydict) (k k' : pystr) (v : pyval) :
  dict_get d k' <> None -> dict_get (dict_setdefault d k v) k' <> None.
Proof.
  intros H. destruct (dict_get d k') as [v'|] eqn:E; [|contradiction].
  now rewrite (dict_get_setdefault_kept d k k' v v' E).
Qed.

Lemma strategy_defaults_kept (strategy : pydict) (k : pystr) (v : pyval) :
  dict_get strategy k = Some v -> dict_get (strategy_defaults strategy) k = Some v.
Proof.
  intros H. unfold strategy_defaults. cbn zeta.
  repeat apply dict_get_setdefault_kept. exact H.
Qed.

Lemma strategy_defaults_keys (strategy : pydict) (k : pystr) :
  In k strategy_keys -> dict_get (strategy_defaults strategy) k <> None.
Proof.
  unfold strategy_keys, strategy_defaults. cbn [In]. cbn zeta.
  intros [<-|[<-|[<-|[<-|[<-|[<-|[<-|[]]]]]]]];
    repeat (first [ rewrite dict_get_setdefault_same; discriminate
                  | apply dict_get_setdefault_bound ]).
Qed.

Lemma ai_refine_query_inv
  (json_loads : pystr -> result pyval) (out : option pystr) (spec : pydict) :
  ai_refine_query json_loads out = Returns spec ->
  exists s d given,
    out = Some s
    /\ parse_json_str json_loads s = Ok (PDict d)
    /\ dict_get_default d (lit "strategy") (PDict []) = PDict given
    /\ dict_get spec (lit "strategy") = Some (PDict (strategy_defaults given))
    /\ dict_get spec (lit "fields") <> None
    /\ (forall k v, k <> lit "strategy" ->
          dict_get d k = Some v -> dict_get spec k = Some v).
Proof.
  unfold ai_refine_query. destruct out as [s|]; [|discriminate].
  destruct (parse_json_str json_loads s) as [[| | | | | |d]|e] eqn:Ep;
    cbn [of_result obind]; try discriminate.
  set (d1 := dict_setdefault d (lit "fields") default_fields).
  set (d2 := dict_setdefault d1 (lit "strategy") (PDict [])).
  destruct (dict_get d2 (lit "strategy")) as [[| | | | | |st]|] eqn:Est;
    try discriminate.
  intros H. injection H as <-.
  exists s, d, st.
  split; [reflexivity|]. split; [exact Ep|].
  split.
  { subst d2. rewrite dict_get_setdefault_same in Est.
    subst d1. rewrite dict_get_setdefault_other in Est by reflexivity.
    unfold dict_get_default. destruct (dict_get d (lit "strategy")); congruence. }
  split; [now rewrite dict_get_set, pystr_eqb_refl|].
  split.
  { rewrite dict_get_set.
    replace (pystr_eqb (lit "strategy") (lit "fields")) with false by reflexivity.
    subst d2. rewrite dict_get_setdefault_other by reflexivity.
    subst d1. rewrite dict_get_setdefault_same. discriminate. }
  intros k v Hk Hv. rewrite dict_get_set.
  destruct (pystr_eqb _ k) eqn:E.
  { apply pystr_eqb_eq in E. subst k. exfalso. apply Hk. reflexivity. }
  subst d2 d1. now repeat apply dict_get_setdefault_kept.
Qed.

(** X16: a specification that [ai_refine_query] returns comes from a
    response that parsed to an object; it has [fields], and a [strategy]
    object with each of the seven keys that [run_query_on_text] reads.
    Nothing that the response set is replaced: every other key of the
    response keeps its value, and so does every key of a [strategy] that
    the response gave, a [null] included. *)
Theorem refined_query_has_every_key
  (json_loads : pystr -> result pyval) (out : option pystr) (spec : pydict) :
  ai_refine_query json_loads out = Returns spec ->
  exists s d strategy,
    out = Some s
    /\ parse_json_str json_loads s = Ok (PDict d)
    /\ dict_get spec (lit "strategy") = Some (PDict strategy)
    /\ (forall k, In k strategy_keys -> dict_get strategy k <> None)
    /\ dict_get spec (lit "fields") <> None
    /\ (forall k v, k <> lit "strategy" ->
          dict_get d k = Some v -> dict_get spec k = Some v)
    /\ (forall given k v,
          dict_get d (lit "strategy") = Some (PDict given) ->
          dict_get given k = Some v -> dict_get strategy k = Some v).
Proof.
  intros H.
  destruct (ai_refine_query_inv json_loads out spec H)
    as (s & d & st & Hout & Hp & Hst & Hs & Hf & Hk).
  exists s, d, (strategy_defaults st).
  repeat (split; [assumption|]).
  split; [apply strategy_defaults_keys|].
  split; [assumption|]. split; [assumption|].
  intros given k v Hg Hv. apply strategy_defaults_kept.
  unfold dict_get_default in Hst. rewrite Hg in Hst. injection Hst as <-.
  exact Hv.
Qed.

Lemma refined_query_has_every_key_witness :
  exists s d strategy,
    Some (lit "{}") = Some s
    /\ parse_json_str (fun _ => Ok risk_response) s = Ok (PDict d)
    /\ dict_get
         [(lit "strategy",
           PDict (strategy_defaults
                    [(lit "keywords", PList [PStr (lit "risk")]);
                     (lit "context_before_chars", PInt 6);
                     (lit "context_after_chars", PInt 6)]));
          (lit "fields", default_fields)]
         (lit "strategy") = Some (PDict strategy)
    /\ (forall k, In k strategy_keys -> dict_get strategy k <> None)
    /\ dict_get
         [(lit "strategy",
           PDict (strategy_defaults
                    [(lit "keywords", PList [PStr (lit "risk")]);
                     (lit "context_before_chars", PInt 6);
                     (lit "context_after_chars", PInt 6)]));
          (lit "fields", default_fields)]
         (lit "fields") <> None
    /\ (forall k v, k <> lit "strategy" ->
          dict_get d k = Some v ->
          dict_get
            [(lit "strategy",
              PDict (strategy_defaults
                       [(lit "keywords", PList [PStr (lit "risk")]);
                        (lit "context_before_chars", PInt 6);
                        (lit "context_after_chars", PInt 6)]));
             (lit "fields", default_fields)] k = Some v)
    /\ (forall given k v,
          dict_get d (lit "strategy") = Some (PDict given) ->
          dict_get given k = Some v -> dict_get strategy k = Some v).
Proof.
  apply (refined_query_has_every_key (fun _ => Ok risk_response) (Some (lit "{}"))).
  vm_compute. reflexivity.
Defined.

(** ** Queries on the combined text *)

Lemma strip_idem (s : pystr) : strip (strip s) = strip s.
Proof.
  destruct (strip_shape s) as [H|(c & mid & d & r & Hc & Hcs & Hd & Hds)].
  - rewrite H. reflexivity.
  - unfold strip at 1. rewrite Hc at 1. cbn [lstrip]. rewrite Hcs.
    rewrite <- Hc, Hd. unfold rstrip. rewrite rev_app_distr. cbn [rev app lstrip].
    rewrite Hds. cbn [rev]. now rewrite rev_involutive.
Qed.

Lemma lstrip_incl (s : pystr) (c : ascii) : In c (lstrip s) -> In c s.
Proof.
  destruct (lstrip_shape s) as (w & Hs & _). intros H. rewrite Hs.
  apply in_or_app. now right.
Qed.

Lemma strip_incl (s : pystr) (c : ascii) : In c (strip s) -> In c s.
Proof.
  unfold strip, rstrip. intros H. apply in_rev in H. apply lstrip_incl in H.
  apply in_rev in H. now apply lstrip_incl.
Qed.

Lemma replace_nl_no_line_feed (s : pystr) : ~ In NL (replace_nl s).
Proof.
  unfold replace_nl. intros H. apply in_map_iff in H as (c & Hc & _).
  destruct (ascii_eqb c NL) eqn:E; [discriminate|].
  apply (proj2 (ascii_eqb_eq c NL)) in Hc. congruence.
Qed.

Lemma snippet_trimmed (before after : Z) (text : pystr) (start stop : Z) :
  let sn := snippet_of before after text start stop in
  strip sn = sn /\ ~ In NL sn.
Proof.
  cbn zeta. unfold snippet_of. split; [apply strip_idem|].
  intros H. apply strip_incl in H. now apply replace_nl_no_line_feed in H.
Qed.

Section QueryProofs.

Variable re_compile : pystr -> bool -> result (pystr -> list (Z * Z)).
Variable repr_other : pyval -> pystr.
Variable full_text : pystr.

Lemma collect_shape (spec : pydict) (before after page : Z) (num text : pystr)
  (h : hit) (results results' : list pydict) :
  In num (marker_numbers full_text) -> int_of_str num = Ok page ->
  Forall (query_row full_text) results ->
  collect spec before after results page text h = Returns results' ->
  Forall (query_row full_text) results'.
Proof.
  intros Hnum Hpage Hres. unfold collect. destruct h as [[term start] stop].
  destruct (py_iter _) as [fields|e]; cbn [obind]; [|discriminate].
  destruct (wants_term fields) as [want|e]; cbn [obind]; [|discriminate].
  intros H. injection H as <-. apply Forall_app. split; [exact Hres|].
  constructor; [|constructor].
  destruct (snippet_trimmed before after text start stop) as [Hs Hn].
  exists page, (snippet_of before after text start stop).
  split; [eauto|]. destruct want; repeat split; auto.
Qed.

Lemma collect_hits_shape (spec : pydict) (before after page : Z)
  (num text : pystr) (hits : list hit) :
  In num (marker_numbers full_text) -> int_of_str num = Ok page ->
  forall results results',
    Forall (query_row full_text) results ->
    collect_hits spec before after page text hits results = Returns results' ->
    Forall (query_row full_text) results'.
Proof.
  intros Hnum Hpage. induction hits as [|h hits IH]; intros results results' Hres;
    cbn [collect_hits].
  - intros H. injection H as <-. exact Hres.
  - destruct (collect spec before after results page text h) as [r1|e] eqn:E;
      cbn [obind]; [|discriminate].
    apply IH. eapply collect_shape; eassumption.
Qed.

Lemma query_page_shape (spec : pydict) (mode any_all : pyval)
  (ignore_case : bool) (before after : Z) (keyword_list : list pystr)
  (patterns : list compiled) (page : Z) (num text : pystr)
  (results results' : list pydict) :
  In num (marker_numbers full_text) -> int_of_str num = Ok page ->
  Forall (query_row full_text) results ->
  query_page spec mode any_all ignore_case before after keyword_list patterns
    page text results = Returns results' ->
  Forall (query_row full_text) results'.
Proof.
  intros Hnum Hpage Hres. unfold query_page.
  destruct (py_eq_str mode (lit "regex") && _).
  - now apply (collect_hits_shape spec before after page num).
  - destruct keyword_list as [|kw kws].
    + intros H. injection H as <-. exact Hres.
    + destruct (py_eq_str any_all (lit "all") && _).
      * intros H. injection H as <-. exact Hres.
      * now apply (collect_hits_shape spec before after page num).
Qed.

Lemma query_loop_shape (spec : pydict) (mode any_all : pyval)
  (ignore_case : bool) (before after : Z) (keyword_list : list pystr)
  (patterns : list compiled) (n : nat) :
  forall (segments : list pystr) (results results' : list pydict),
    (List.length segments <= n)%nat ->
    (forall num, In num (odd_pieces segments) -> In num (marker_numbers full_text)) ->
    Forall (query_row full_text) results ->
    query_loop spec mode any_all ignore_case before after keyword_list patterns
      segments results = Returns results' ->
    Forall (query_row full_text) results'.
Proof.
  induction n as [|n IH]; intros segments results results' Hlen Hin Hres.
  - destruct segments; [|cbn in Hlen; lia]. cbn. intros H. injection H as <-. exact Hres.
  - destruct segments as [|num [|text rest]]; cbn [query_loop].
    + intros H. injection H as <-. exact Hres.
    + destruct (int_of_str num) as [page|e] eqn:Ep.
      * destruct (query_page _ _ _ _ _ _ _ _ _ _ _) as [r1|e] eqn:E;
          cbn [obind]; [|discriminate].
        intros H. injection H as <-.
        eapply (query_page_shape _ _ _ _ _ _ _ _ page num); try eassumption.
        apply Hin. cbn. auto.
      * intros H. injection H as <-. exact Hres.
    + cbn [List.length] in Hlen.
      assert (Hin' : forall m, In m (odd_pieces rest) -> In m (marker_numbers full_text)).
      { intros m Hm. apply Hin. cbn [odd_pieces]. now right. }
      destruct (int_of_str num) as [page|e] eqn:Ep.
      * destruct (query_page _ _ _ _ _ _ _ _ _ _ _) as [r1|e] eqn:E;
          cbn [obind]; [|discriminate].
        apply IH; [lia|exact Hin'|].
        eapply (query_page_shape _ _ _ _ _ _ _ _ page num); try eassumption.
        apply Hin. cbn. auto.
      * apply IH; [lia|exact Hin'|exact Hres].
Qed.

(** X17: every row that [run_query_on_text] returns, in either mode and
    whatever the regular-expression engine finds, carries the number of a
    page marker of the text under [page], a snippet under [snippet] that
    is trimmed and holds no line feed, and no other key than [term]. *)
Theorem query_rows_shape (spec : pydict) (rows : list pydict) :
  run_query_on_text re_compile repr_other full_text spec = Returns rows ->
  Forall (query_row full_text) rows.
Proof.
  unfold run_query_on_text. cbn zeta.
  repeat match goal with
         | |- obind ?r _ = _ -> _ =>
             destruct r; cbn [obind]; [|discriminate]
         end.
  eapply query_loop_shape; [reflexivity| |constructor].
  intros num H. exact H.
Qed.

End QueryProofs.

Lemma query_rows_shape_witness :
  Forall (query_row risk_text)
    [ [(lit "page", PInt 1); (lit "snippet", PStr (lit "A Risk is a"))];
      [(lit "page", PInt 1); (lit "snippet", PStr (lit "is a risk."))] ].
Proof.
  apply (query_rows_shape no_regex no_repr risk_text
           [(lit "strategy",
             PDict (strategy_defaults
                      [(lit "keywords", PList [PStr (lit "risk")]);
                       (lit "context_before_chars", PInt 6);
                       (lit "context_after_chars", PInt 6)]));
            (lit "fields", default_fields)]).
  vm_compute. reflexivity.
Defined.

(** ** A refined specification, run *)

Lemma no_key_error_bind {A B : Type} (r : outcome pyerror A)
  (k : A -> outcome pyerror B) :
  no_key_error r -> (forall a, no_key_error (k a)) -> no_key_error (obind r k).
Proof.
  intros Hr Hk. destruct r as [a|e]; cbn [obind]; [apply Hk|].
  intros x H. injection H as ->. now apply (Hr x).
Qed.

Lemma no_key_error_returns {A : Type} (a : A) : no_key_error (Returns a).
Proof. intros k H. discriminate. Qed.

Lemma no_key_error_of_result {A : Type} (r : result A) :
  no_key_error (of_result r).
Proof. destruct r; intros k H; discriminate. Qed.

Lemma no_key_error_py_get (v : pyval) (k : pystr) (default : pyval) :
  no_key_error (py_get v k default).
Proof. destruct v; intros x H; discriminate. Qed.

Lemma no_key_error_py_iter (v : pyval) : no_key_error (py_iter v).
Proof. destruct v; intros x H; discriminate. Qed.

Lemma no_key_error_omap {A B : Type} (f : A -> outcome pyerror B) (l : list A) :
  (forall a, no_key_error (f a)) -> no_key_error (omap f l).
Proof.
  intros Hf. induction l as [|x l IH]; cbn [omap].
  - apply no_key_error_returns.
  - apply no_key_error_bind; [apply Hf|]. intros y.
    apply no_key_error_bind; [exact IH|]. intros ys. apply no_key_error_returns.
Qed.

Lemma no_key_error_wants_term (fields : list pyval) :
  no_key_error (wants_term fields).
Proof.
  induction fields as [|f fields IH]; cbn [wants_term].
  - apply no_key_error_returns.
  - apply no_key_error_bind; [apply no_key_error_py_get|]. intros name.
    destruct (py_eq_str name (lit "term")); [apply no_key_error_returns|exact IH].
Qed.

Lemma no_key_error_collect_hits (spec : pydict) (before after page : Z)
  (text : pystr) (hits : list hit) :
  forall results,
    no_key_error (collect_hits spec before after page text hits results).
Proof.
  induction hits as [|[[term start] stop] hits IH]; intros results;
    cbn [collect_hits].
  - apply no_key_error_returns.
  - apply no_key_error_bind; [|intros r; apply IH].
    unfold collect.
    apply no_key_error_bind; [apply no_key_error_py_iter|]. intros fields.
    apply no_key_error_bind; [apply no_key_error_wants_term|]. intros want.
    apply no_key_error_returns.
Qed.

Lemma no_key_error_query_page (spec : pydict) (mode any_all : pyval)
  (ignore_case : bool) (before after : Z) (keyword_list : list pystr)
  (patterns : list compiled) (page : Z) (text : pystr) (results : list pydict) :
  no_key_error (query_page spec mode any_all ignore_case before after
                  keyword_list patterns page text results).
Proof.
  unfold query_page. destruct (py_eq_str mode (lit "regex") && _).
  - apply no_key_error_collect_hits.
  - destruct keyword_list; [apply no_key_error_returns|].
    destruct (py_eq_str any_all (lit "all") && _);
      [apply no_key_error_returns|apply no_key_error_collect_hits].
Qed.

Lemma no_key_error_query_loop (spec : pydict) (mode any_all : pyval)
  (ignore_case : bool) (before after : Z) (keyword_list : list pystr)
  (patterns : list compiled) (n : nat) :
  forall (segments : list pystr) (results : list pydict),
    (List.length segments <= n)%nat ->
    no_key_error (query_loop spec mode any_all ignore_case before after
                    keyword_list patterns segments results).
Proof.
  induction n as [|n IH]; intros segments results Hlen.
  - destruct segments; [|cbn in Hlen; lia]. apply no_key_error_returns.
  - destruct segments as [|num [|text rest]]; cbn [query_loop].
    + apply no_key_error_returns.
    + destruct (int_of_str num); [|apply no_key_error_returns].
      apply no_key_error_bind; [apply no_key_error_query_page|].
      intros r. apply no_key_error_returns.
    + cbn [List.length] in Hlen.
      destruct (int_of_str num); [|apply IH; lia].
      apply no_key_error_bind; [apply no_key_error_query_page|].
      intros r. apply IH. lia.
Qed.

(** Without keywords and without patterns no page gives a row. *)
Lemma query_loop_no_terms (spec : pydict) (mode any_all : pyval)
  (ignore_case : bool) (before after : Z) (n : nat) :
  forall (segments : list pystr) (results : list pydict),
    (List.length segments <= n)%nat ->
    query_loop spec mode any_all ignore_case before after [] [] segments results
    = Returns results.
Proof.
  assert (Hpage : forall page text results,
             query_page spec mode any_all ignore_case before after [] []
               page text results = Returns results).
  { intros. unfold query_page. now rewrite andb_false_r. }
  induction n as [|n IH]; intros segments results Hlen.
  - destruct segments; [reflexivity|cbn in Hlen; lia].
  - destruct segments as [|num [|text rest]]; cbn [query_loop].
    + reflexivity.
    + destruct (int_of_str num); [now rewrite Hpage|reflexivity].
    + cbn [List.length] in Hlen.
      destruct (int_of_str num); [rewrite Hpage; cbn [obind]|]; apply IH; lia.
Qed.

Section RefinedQuery.

Variable json_loads : pystr -> result pyval.
Variable re_compile : pystr -> bool -> result (pystr -> list (Z * Z)).
Variable repr_other : pyval -> pystr.

Lemma getitem_strategy_key (strategy : pydict) (k : pystr) :
  In k strategy_keys ->
  exists v, py_getitem (PDict (strategy_defaults strategy)) k = Returns v.
Proof.
  intros Hk. pose proof (strategy_defaults_keys strategy k Hk) as H.
  cbn [py_getitem]. destruct (dict_get (strategy_defaults strategy) k); [eauto|].
  contradiction.
Qed.

(** X18: a specification that [ai_refine_query] returned never makes
    [run_query_on_text] end in a [KeyError], on any text and with any
    engine; and when the response had no [strategy] at all, the query
    runs on the defaults alone and returns no row. *)
Theorem refined_query_runs
  (out : option pystr) (spec : pydict) (full_text : pystr) :
  ai_refine_query json_loads out = Returns spec ->
  no_key_error (run_query_on_text re_compile repr_other full_text spec)
  /\ (forall s d,
        out = Some s -> parse_json_str json_loads s = Ok (PDict d) ->
        dict_get d (lit "strategy") = None ->
        run_query_on_text re_compile repr_other full_text spec = Returns []).
Proof.
  intros H.
  destruct (ai_refine_query_inv json_loads out spec H)
    as (s & d & st & Hout & Hp & Hst & Hs & _ & _).
  split.
  - unfold run_query_on_text. cbn zeta. cbn [py_getitem]. rewrite Hs. cbn [obind].
    destruct (getitem_strategy_key st (lit "mode")) as [v1 ->];
      [cbn; auto|]. cbn [obind].
    destruct (getitem_strategy_key st (lit "case_sensitive")) as [v2 ->];
      [cbn; auto 10|]. cbn [obind].
    destruct (getitem_strategy_key st (lit "context_before_chars")) as [v3 ->];
      [cbn; auto 10|]. cbn [obind].
    apply no_key_error_bind; [apply no_key_error_of_result|]. intros before.
    destruct (getitem_strategy_key st (lit "context_after_chars")) as [v4 ->];
      [cbn; auto 10|]. cbn [obind].
    apply no_key_error_bind; [apply no_key_error_of_result|]. intros after.
    apply no_key_error_bind; [apply no_key_error_py_get|]. intros kws.
    apply no_key_error_bind; [apply no_key_error_py_iter|]. intros ks.
    apply no_key_error_bind; [apply no_key_error_py_get|]. intros any_all.
    apply no_key_error_bind; [apply no_key_error_py_get|]. intros ps.
    apply no_key_error_bind; [apply no_key_error_py_iter|]. intros ps'.
    apply no_key_error_bind.
    { apply no_key_error_omap. intros p. destruct p; cbn [compile_pattern];
        try (intros k Hk; discriminate).
      apply no_key_error_bind; [apply no_key_error_of_result|].
      intros f. apply no_key_error_returns. }
    intros patterns. eapply no_key_error_query_loop. reflexivity.
  - intros s' d' Hout' Hp' Hnone.
    rewrite Hout in Hout'. injection Hout' as <-.
    rewrite Hp in Hp'. injection Hp' as <-.
    unfold dict_get_default in Hst. rewrite Hnone in Hst. injection Hst as <-.
    unfold run_query_on_text. cbn zeta. cbn [py_getitem]. rewrite Hs.
    cbn [obind].
    let t := eval vm_compute in (strategy_defaults []) in
    change (strategy_defaults []) with t.
    cbn [py_getitem py_get dict_get dict_get_default pystr_eqb ascii_eqb
         Ascii.eqb Bool.eqb andb lit list_ascii_of_string obind of_result
         py_int py_iter py_truthy negb map omap].
    eapply query_loop_no_terms. reflexivity.
Qed.

End RefinedQuery.

Lemma refined_query_runs_witness :
  no_key_error
    (run_query_on_text no_regex no_repr risk_text
       [(lit "strategy",
         PDict (strategy_defaults
                  [(lit "keywords", PList [PStr (lit "risk")]);
                   (lit "context_before_chars", PInt 6);
                   (lit "context_after_chars", PInt 6)]));
        (lit "fields", default_fields)])
  /\ (forall s d,
        Some (lit "{}") = Some s ->
        parse_json_str (fun _ => Ok risk_response) s = Ok (PDict d) ->
        dict_get d (lit "strategy") = None ->
        run_query_on_text no_regex no_repr risk_text
          [(lit "strategy",
            PDict (strategy_defaults
                     [(lit "keywords", PList [PStr (lit "risk")]);
                      (lit "context_before_chars", PInt 6);
                      (lit "context_after_chars", PInt 6)]));
           (lit "fields", default_fields)]
        = Returns []).
Proof.
  apply (refined_query_runs (fun _ => Ok risk_response) no_regex no_repr
           (Some (lit "{}"))).
  vm_compute. reflexivity.
Defined.

(** ** The detected signatures and the pipeline *)

Lemma last_two {A : Type} (l : list A) :
  (2 <= List.length l)%nat ->
  exists pre a b, l = pre ++ [a; b] /\ skipn (List.length l - 2) l = [a; b].
Proof.
  intros H.
  destruct (rev l) as [|b [|a r]] eqn:E;
    try (apply (f_equal (@List.length A)) in E; rewrite length_rev in E;
         cbn in E; lia).
  apply (f_equal (@rev A)) in E. rewrite rev_involutive in E. cbn [rev] in E.
  rewrite <- app_assoc in E. cbn [app] in E.
  exists (rev r), a, b. split; [exact E|]. rewrite E.
  rewrite length_app. cbn [List.length].
  replace (List.length (rev r) + 2 - 2)%nat with (List.length (rev r) + 0)%nat by lia.
  rewrite skipn_app, skipn_all2 by lia.
  replace (List.length (rev r) + 0 - List.length (rev r))%nat with O by lia.
  reflexivity.
Qed.

Lemma signature_of_some_page (tn bn : Z) (pages : list PageText) (sig : pystr) :
  (In sig (top_signatures tn bn pages) ->
   exists p bot, In p pages /\ page_signatures tn bn p = Some (sig, bot)
                 /\ sig <> [])
  /\ (In sig (bottom_signatures tn bn pages) ->
      exists p top, In p pages /\ page_signatures tn bn p = Some (top, sig)
                    /\ sig <> []).
Proof.
  unfold top_signatures, bottom_signatures. split; intros H;
    apply in_flat_map in H as (p & Hp & Hin);
    destruct (page_signatures tn bn p) as [[top bot]|] eqn:Es; try contradiction.
  - destruct (nonempty top) eqn:E; [|contradiction].
    destruct Hin as [<-|[]]. apply nonempty_true_iff in E. eauto.
  - destruct (nonempty bot) eqn:E; [|contradiction].
    destruct Hin as [<-|[]]. apply nonempty_true_iff in E. eauto.
Qed.

Lemma top_key_member (l : list pystr) :
  top_key (tally l []) = [] \/ In (top_key (tally l [])) l.
Proof.
  destruct l as [|x l]; [now left|]. right.
  destruct (top_key_tally (x :: l) ltac:(discriminate))
    as (pre & post & Heq & _).
  rewrite Heq at 2. apply in_or_app. right. now left.
Qed.

(** X19: with the default of two lines, the footer signature that the
    detector returns is empty or is the last two non-blank lines of some
    page, trimmed and joined by one space; the header signature is empty,
    or the only non-blank line of some page, or the first two non-blank
    lines of some page joined by one space.  The patterns returned are
    these signatures, escaped. *)
Theorem detected_signatures_shape (pages : list PageText) :
  let hc := header_candidate default_top_n_lines default_bottom_n_lines pages in
  let fc := footer_candidate default_top_n_lines default_bottom_n_lines pages in
  let patterns :=
    detect_repeated_headers_footers pages
      default_top_n_lines default_bottom_n_lines in
  (fc = []
   \/ exists p pre a b,
        In p pages /\ nonblank_lines (text p) = pre ++ [a; b]
        /\ fc = a ++ SP :: b)
  /\ (hc = []
      \/ exists p, In p pages
           /\ ((nonblank_lines (text p) = [hc])
               \/ exists l1 l2 rest,
                    nonblank_lines (text p) = l1 :: l2 :: rest
                    /\ hc = l1 ++ SP :: l2))
  /\ header patterns = re_escape hc
  /\ footer patterns = re_escape fc.
Proof.
  cbn zeta. unfold header_candidate, footer_candidate, tally_pages.
  rewrite tally_pages_split. cbn [fst snd].
  split; [|split; [|split]].
  - destruct (top_key_member
                (bottom_signatures default_top_n_lines default_bottom_n_lines pages))
      as [H|H]; [now left|]. right.
    apply signature_of_some_page in H as (p & top & Hp & Hsig & Hne).
    rewrite page_signatures_spec in Hsig by (vm_compute; discriminate).
    destruct (nonblank_lines (text p)) as [|l0 ls] eqn:El; [discriminate|].
    destruct (default_bottom_n_lines <=? Z.of_nat (List.length (l0 :: ls))) eqn:Ec.
    + apply Z.leb_le in Ec. unfold default_bottom_n_lines in Ec.
      destruct (last_two (l0 :: ls) ltac:(lia)) as (pre & a & b & Hl & Hs).
      exists p, pre, a, b. split; [exact Hp|]. split; [congruence|].
      assert (Hbot : spec_bottom_signature (Z.to_nat default_bottom_n_lines) p
                     = a ++ SP :: b).
      { unfold spec_bottom_signature. rewrite El.
        change (Z.to_nat default_bottom_n_lines) with 2%nat.
        cbn zeta. rewrite Hs. reflexivity. }
      rewrite <- Hbot. congruence.
    + exfalso. apply Hne. congruence.
  - destruct (top_key_member
                (top_signatures default_top_n_lines default_bottom_n_lines pages))
      as [H|H]; [now left|]. right.
    apply signature_of_some_page in H as (p & bot & Hp & Hsig & Hne).
    rewrite page_signatures_spec in Hsig by (vm_compute; discriminate).
    exists p. split; [exact Hp|].
    destruct (nonblank_lines (text p)) as [|l1 [|l2 rest]] eqn:El; [discriminate| |].
    + injection Hsig as Htop _. left. rewrite <- Htop.
      unfold spec_top_signature. rewrite El. reflexivity.
    + injection Hsig as Htop _. right. exists l1, l2, rest.
      split; [reflexivity|]. rewrite <- Htop.
      unfold spec_top_signature. rewrite El. reflexivity.
  - unfold detect_repeated_headers_footers, header_candidate, tally_pages.
    cbn [header]. rewrite tally_pages_split. cbn [fst].
    destruct (top_key _); reflexivity.
  - unfold detect_repeated_headers_footers, footer_candidate, tally_pages.
    cbn [footer]. rewrite tally_pages_split. cbn [snd].
    destruct (top_key _); reflexivity.
Qed.

Lemma matches_at_len (ic : bool) (kw : pystr) :
  forall s, matches_at ic kw s = true -> len kw <= len s.
Proof.
  induction kw as [|p kw IH]; intros s H.
  - rewrite len_nil. apply len_nonneg.
  - destruct s as [|c s]; [discriminate|]. cbn [matches_at] in H.
    apply andb_prop in H as [_ H]. rewrite !len_cons. apply IH in H. lia.
Qed.

Lemma find_literal_len (ic : bool) (kw : pystr) :
  forall s i skip, find_literal ic kw s i skip <> [] -> len kw <= len s.
Proof.
  induction s as [|c s IH]; intros i skip H; cbn [find_literal] in H.
  - destruct skip; [|contradiction]. destruct kw; [|contradiction].
    rewrite len_nil. lia.
  - rewrite len_cons. destruct skip as [|k].
    + destruct (matches_at ic kw (c :: s)) eqn:E.
      * apply matches_at_len in E. now rewrite len_cons in E.
      * apply IH in H. lia.
    + apply IH in H. lia.
Qed.

Lemma search_literal_len (h s : pystr) :
  search_literal h s = true -> len h <= len s.
Proof.
  unfold search_literal, finditer_literal. intros H.
  apply (find_literal_len true h s 0 O). intros E. rewrite E in H. discriminate.
Qed.

Lemma re_escape_nonempty (h : pystr) : h <> [] -> nonempty (re_escape h) = true.
Proof.
  destruct h as [|c h]; [contradiction|]. intros _. cbn [re_escape flat_map].
  destruct (is_re_special c); reflexivity.
Qed.

Lemma compile_signature (re_compile : pystr -> result regex) (h : pystr) :
  compiles_as_literal re_compile h ->
  exists rx,
    compile_if re_compile (if nonempty h then re_escape h else []) = Ok rx
    /\ forall s, out_of_reach h (len s) -> searches rx s = false.
Proof.
  intros Hc. unfold compile_if. destruct h as [|c h].
  - exists None. split; reflexivity.
  - cbn [nonempty]. rewrite re_escape_nonempty by discriminate.
    rewrite Hc by discriminate. cbn [bind].
    exists (Some (search_literal (c :: h))). split; [reflexivity|].
    intros s [Hs|Hs]; [discriminate|]. cbn [searches].
    destruct (search_literal (c :: h) s) eqn:E; [|reflexivity].
    apply search_literal_len in E. lia.
Qed.

(** X20: when the engine takes the two escaped signatures as the
    literals they are, the pipeline returns; it cleans every page and
    keeps the page numbers; and a line that is not blank, is not a page
    number and is shorter than each signature there is stays in its page.
    By the shape of the signatures this holds for the very lines a
    two-line signature was made of: the pattern cannot match them. *)
Theorem pipeline_keeps_short_lines
  (re_compile : pystr -> result regex) (raw_pages : list PageText) :
  let hc := header_candidate default_top_n_lines default_bottom_n_lines raw_pages in
  let fc := footer_candidate default_top_n_lines default_bottom_n_lines raw_pages in
  compiles_as_literal re_compile hc ->
  compiles_as_literal re_compile fc ->
  exists cleaned,
    extract_text_pipeline re_compile raw_pages
    = Ok (raw_pages, cleaned, combine_pages cleaned)
    /\ Forall2
         (fun p q =>
            page_num q = page_num p
            /\ forall ln,
                 In ln (splitlines (text p)) ->
                 nonempty (strip ln) = true ->
                 page_num_match (strip ln) = false ->
                 out_of_reach hc (len (strip ln)) ->
                 out_of_reach fc (len (strip ln)) ->
                 In ln (splitlines (text q)))
         raw_pages cleaned.
Proof.
  cbn zeta.
  set (hc := header_candidate default_top_n_lines default_bottom_n_lines raw_pages).
  set (fc := footer_candidate default_top_n_lines default_bottom_n_lines raw_pages).
  intros Hh Hf.
  destruct (compile_signature re_compile hc Hh) as (hre & Hhc & Hhs).
  destruct (compile_signature re_compile fc Hf) as (fre & Hfc & Hfs).
  exists (map (clean_page hre fre) raw_pages). split.
  - unfold extract_text_pipeline, remove_headers_footers_and_numbers,
      detect_repeated_headers_footers.
    cbn [header footer]. fold hc fc. rewrite Hhc, Hfc. reflexivity.
  - clear Hh Hf Hhc Hfc. clearbody hc fc.
    induction raw_pages as [|p ps IH]; cbn [map]; [constructor|].
    constructor; [|exact IH].
    split; [reflexivity|].
    intros ln Hin Hne Hpn Hoh Hof. cbn [clean_page text].
    rewrite splitlines_join by apply kept_lines_plain.
    apply filter_In. split; [exact Hin|].
    unfold keeps_line. cbn zeta. rewrite Hne. cbn [negb].
    rewrite (Hhs _ Hoh), (Hfs _ Hof), Hpn. reflexivity.
Qed.

Lemma pipeline_keeps_short_lines_witness :
  exists cleaned,
    extract_text_pipeline literal_engine titled_pages
    = Ok (titled_pages, cleaned, combine_pages cleaned)
    /\ Forall2
         (fun p q =>
            page_num q = page_num p
            /\ forall ln,
                 In ln (splitlines (text p)) ->
                 nonempty (strip ln) = true ->
                 page_num_match (strip ln) = false ->
                 out_of_reach
                   (header_candidate default_top_n_lines default_bottom_n_lines
                      titled_pages) (len (strip ln)) ->
                 out_of_reach
                   (footer_candidate default_top_n_lines default_bottom_n_lines
                      titled_pages) (len (strip ln)) ->
                 In ln (splitlines (text q)))
         titled_pages cleaned.
Proof.
  apply (pipeline_keeps_short_lines literal_engine titled_pages).
  - intros _. vm_compute. reflexivity.
  - intros _. vm_compute. reflexivity.
Defined.

(** The pipeline on the pages of the example: the running title and the
    chapter line, from which the header signature was made, are still
    there; only the page numbers went. *)
Lemma pipeline_on_titled_pages :
  extract_text_pipeline literal_engine titled_pages
  = Ok (titled_pages,
        [ {| page_num := 1;
             text := join [NL] [lit "Thesis"; lit "Chapter 1"; lit "So it begins."] |};
          {| page_num := 2;
             text := join [NL] [lit "Thesis"; lit "Chapter 1"; lit "And so on."] |} ],
        join [NL]
          [lit "<<PAGE 1>>"; lit "Thesis"; lit "Chapter 1"; lit "So it begins.";
           []; lit "<<PAGE 2>>"; lit "Thesis"; lit "Chapter 1"; lit "And so on."]).
Proof. vm_compute. reflexivity. Qed.

(** ** Slices and queries without pages *)

Lemma slice_loop_empty_range (a b : Z) (n : nat) :
  b < a ->
  forall parts, (List.length parts <= n)%nat -> slice_loop parts a b = [].
Proof.
  intros Hab. induction n as [|n IH]; intros parts Hlen.
  - destruct parts; [reflexivity|cbn in Hlen; lia].
  - assert (Hno : forall pnum, (a <=? pnum) && (pnum <=? b) = false).
    { intros pnum. apply andb_false_iff.
      destruct (Z.leb_spec a pnum); [right; apply Z.leb_gt; lia|now left]. }
    destruct parts as [|num [|ptext rest]]; cbn [slice_loop].
    + reflexivity.
    + destruct (int_of_str num); [now rewrite Hno|reflexivity].
    + cbn [List.length] in Hlen.
      destruct (int_of_str num); [rewrite Hno|]; apply IH; lia.
Qed.

Lemma split_without_marker (t : pystr) :
  has_marker t = false -> re_split_marker t = [t].
Proof.
  intros H. unfold re_split_marker.
  rewrite <- (app_nil_r t) at 1.
  rewrite (split_go_plain t [] [] H (or_introl eq_refl)).
  cbn [split_go]. now rewrite app_nil_r, rev_involutive.
Qed.

(** X21: a range whose end lies before its start selects nothing, on every
    text; and a text without a page marker has no page: every slice of it
    is empty, and a query on it that returns, returns no row. *)
Theorem no_pages_no_text
  (re_compile : pystr -> bool -> result (pystr -> list (Z * Z)))
  (repr_other : pyval -> pystr) (full_text : pystr) :
  (forall a b, b < a -> slice_pages_text full_text a b = [])
  /\ (has_marker full_text = false ->
      (forall a b, slice_pages_text full_text a b = [])
      /\ (forall spec rows,
            run_query_on_text re_compile repr_other full_text spec = Returns rows ->
            rows = [])).
Proof.
  split.
  - intros a b Hab. unfold slice_pages_text.
    now rewrite (slice_loop_empty_range a b _ Hab _ (le_n _)).
  - intros H. split.
    + intros a b. unfold slice_pages_text. now rewrite split_without_marker.
    + intros spec rows. unfold run_query_on_text. cbn zeta.
      rewrite split_without_marker by exact H. cbn [tl query_loop].
      repeat match goal with
             | |- obind ?r _ = _ -> _ =>
                 destruct r; cbn [obind]; [|discriminate]
             end.
      intros E. now injection E as <-.
Qed.

(** ** The markers of a combined text *)



